(** * random-viz / rocket viewer: trajectory playback and attitude display

    A shallow embedding of the JavaScript viewer under [rocket/viz]:
    - [parsers.js]   : [loadParquet], [loadCSV]
    - [plots.js]     : [extent], [pad], [drawLines]
    - [main.js]      : [quatToEuler], [setData], [tick], [onTimeChange],
                       the slider, plot-click, snapshot and file handlers
    - [threeview.js] : [updateThreePose], [addSnapshot], [updateNavball]

    JavaScript numbers are kept behind an interface ([JSNumber], [JSMath]) so
    that one transcription of each function can be read in two ways:
    - [B64]   : IEEE-754 binary64, through the Standard Library's [SpecFloat]
                (what a JavaScript engine computes, bit for bit);
    - [Exact] : the extended reals (NaN, the two infinities, and the real
                numbers), i.e. the same program with rounding switched off.
    Sample indices, which the program only ever adds, compares and clamps,
    are integers ([Z]). *)

From Stdlib Require Import ZArith List String Ascii Bool Lia.
From Stdlib Require Import Reals Lra Psatz RNsatz.
From Stdlib Require Import Floats.SpecFloat.
Import ListNotations.

Set Implicit Arguments.

(* ================================================================= *)
(** ** JavaScript values, exceptions *)

(** A thrown exception: its constructor name and its message. *)
Record exn : Type := mkExn { exn_name : string; exn_message : string }.

(** The result of running a piece of code that may throw. *)
Inductive outcome (A : Type) : Type :=
| Returned (a : A)
| Thrown (e : exn).
Arguments Returned {A} a.
Arguments Thrown {A} e.

Definition bind {A B : Type} (m : outcome A) (k : A -> outcome B) : outcome B :=
  match m with
  | Returned a => k a
  | Thrown e => Thrown e
  end.

Declare Scope js_scope.
Delimit Scope js_scope with js.
Notation "x <- m ;; k" := (bind m (fun x => k))
  (at level 61, m at next level, right associativity) : js_scope.
Notation "m ;;; k" := (bind m (fun _ => k))
  (at level 61, right associativity) : js_scope.

(** [TypeError]: what reading a property of [undefined] raises. *)
Definition TypeError (msg : string) : exn := mkExn "TypeError" msg.

(* ================================================================= *)
(** ** The number interface *)

(** The operations of the language on numbers that IEEE-754 fixes. *)
Class JSNumber (num : Type) : Type := {
  NaN : num;
  Infinity : num;
  ofZ : Z -> num;                 (* an integer literal *)
  neg : num -> num;               (* unary minus *)
  add : num -> num -> num;
  sub : num -> num -> num;
  mul : num -> num -> num;
  div : num -> num -> num;
  lt : num -> num -> bool;        (* a < b  *)
  le : num -> num -> bool;        (* a <= b *)
  strictEq : num -> num -> bool;  (* a === b, both numbers *)
  isFinite : num -> bool;
  Math_abs : num -> num;
  Math_sqrt : num -> num;
  (* the integer nearest to a finite number, the greater one of two that
     are equally near; nothing for NaN and the infinities.  [Math.round]
     goes by it, and so does a range input when it puts the number it is
     assigned on one of its steps. *)
  nearest : num -> option Z
}.

(** The rest of [Math] that the viewer calls. *)
Class JSMath (num : Type) : Type := {
  Math_PI : num;
  Math_asin : num -> num;
  Math_atan2 : num -> num -> num;   (* Math.atan2(y, x) *)
  Math_hypot : num -> num -> num;
  Math_round : num -> num;
  rem : num -> num -> num           (* a % b *)
}.

Declare Scope num_scope.
Delimit Scope num_scope with num.
Infix "+" := add : num_scope.
Infix "-" := sub : num_scope.
Infix "*" := mul : num_scope.
Infix "/" := div : num_scope.
Notation "- x" := (neg x) : num_scope.

(** A stored JavaScript value, as far as the trajectory data goes: a cell
    is a number, or it is [undefined] (a column or a cell that is absent). *)
Inductive value (num : Type) : Type :=
| Undefined
| Num (n : num).
Arguments Undefined {num}.
Arguments Num {num} n.

Section JSBase.
Context {num : Type} {JN : JSNumber num}.

Definition gt (a b : num) : bool := lt b a.   (* a > b  *)
Definition ge (a b : num) : bool := le b a.   (* a >= b *)

(** A decimal literal [n/d] with [d] a power of ten, e.g. [0.05]. *)
Definition lit (n d : Z) : num := div (ofZ n) (ofZ d).

(** [ToNumber] on a stored value: [undefined] converts to [NaN]. *)
Definition toNumber (v : value num) : num :=
    match v with
    | Undefined => NaN
    | Num n => n
    end.

(** [Math.sign]: 1, -1, or the argument itself (zero, NaN). *)
Definition Math_sign (x : num) : num :=
    if lt (ofZ 0) x then ofZ 1
    else if lt x (ofZ 0) then ofZ (-1)
    else x.

(** [Number.isFinite(v)]: no conversion, so [undefined] gives [false]. *)
Definition Number_isFinite (v : value num) : bool :=
    match v with
    | Undefined => false
    | Num n => isFinite n
    end.

(** [a[i]] on an array of cells: [undefined] when out of range. *)
Definition at_ (a : list (value num)) (i : nat) : value num :=
    match nth_error a i with
    | Some v => v
    | None => Undefined
    end.

(** [Number.isNaN]: NaN is the one number not equal to itself. *)
Definition isNaN (x : num) : bool := negb (strictEq x x).

(** [-0], which [===] does not tell from [0] and [1 / x] does. *)
Definition is_negative_zero (x : num) : bool :=
    strictEq x (ofZ 0) && lt (div (ofZ 1) x) (ofZ 0).

(** [Math.max(a, b)] and [Math.min(a, b)]: NaN when either is; of the two
    zeros, [0] is the greater. *)
Definition Math_max (a b : num) : num :=
    if isNaN a || isNaN b then NaN
    else if lt a b then b
    else if lt b a then a
    else if is_negative_zero a then b else a.

Definition Math_min (a b : num) : num :=
    if isNaN a || isNaN b then NaN
    else if lt a b then a
    else if lt b a then b
    else if is_negative_zero a then a else b.

(** [a || b] for a number [a]: [b] when [a] is 0 or NaN. *)
Definition or_else (a b : num) : num :=
    if strictEq a (ofZ 0) || isNaN a then b else a.

(** A parameter declared with a default, [(x = d) => ...]: the default
    stands in for [undefined] and for nothing else. *)
Definition or_default (v : value num) (d : num) : num :=
    match v with
    | Undefined => d
    | Num n => n
    end.

End JSBase.

(* ================================================================= *)
(** ** plots.js *)

Section Plots.
Context {num : Type} {JN : JSNumber num}.

(** One turn of the loop of [extent]:
    [if (v < lo) lo = v; if (v > hi) hi = v;] *)
Definition extent_step (acc : num * num) (v : value num) : num * num :=
    let '(lo, hi) := acc in
    (if lt (toNumber v) lo then toNumber v else lo,
     if gt (toNumber v) hi then toNumber v else hi).

Definition extent_loop (arr : list (value num)) : num * num :=
    fold_left extent_step arr (Infinity, neg Infinity).

Definition extent (arr : list (value num)) : num * num :=
    let '(lo, hi) := extent_loop arr in
    if negb (isFinite lo) || negb (isFinite hi) then (ofZ 0, ofZ 1)
    else if strictEq lo hi then (sub lo (ofZ 1), add hi (ofZ 1))
    else (lo, hi).

Definition pad (e : num * num) (p : num) : num * num :=
    let '(lo, hi) := e in
    let d := sub hi lo in
    (sub lo (mul p d), add hi (mul p d)).

(** The default argument [p = 0.05]. *)
Definition pad_default : num := lit 5 100.

(** [flat] of [drawLines]: for each of the three components [k], the
    [k]-th entry of every sample [i < t.length].  Reading [series3[i][k]]
    throws when sample [i] itself is missing. *)
Definition flat_component (n : nat) (series3 : list (list (value num))) (k : nat)
    : outcome (list (value num)) :=
    fold_right
      (fun i rest =>
         match nth_error series3 i with
         | None => Thrown (TypeError "Cannot read properties of undefined")
         | Some s => bind rest (fun r => Returned (at_ s k :: r))
         end)
      (Returned []) (List.seq 0 n).

Definition flat (n : nat) (series3 : list (list (value num)))
    : outcome (list (value num)) :=
    (c0 <- flat_component n series3 0 ;;
     c1 <- flat_component n series3 1 ;;
     c2 <- flat_component n series3 2 ;;
     Returned (c0 ++ c1 ++ c2))%js.

(** What [drawLines] leaves in [container._plot], as far as the vertical
    scale goes: the padded range and the inner height. *)
Record Plot : Type := mkPlot {
    plot_ymin : num;
    plot_ymax : num;
    plot_margin_t : num;
    plot_ih : num;
    plot_len : nat
  }.

(** [const [ymin,ymax] = pad(extent(flat))] *)
Definition yrange (arr : list (value num)) : num * num :=
    pad (extent arr) pad_default.

(** [y = (v) => margin.t + ih - (v - ymin) / (ymax - ymin) * ih] *)
Definition plot_y (p : Plot) (v : num) : num :=
    sub (add (plot_margin_t p) (plot_ih p))
        (mul (div (sub v (plot_ymin p)) (sub (plot_ymax p) (plot_ymin p)))
             (plot_ih p)).

(** [drawLines(container, t, series3, ...)] on a container whose
    [clientHeight] is given: [H = container.clientHeight || 220],
    [margin = { l: 36, r: 12, t: 8, b: 20 }], [ih = H - margin.t - margin.b]. *)
Definition drawLines (clientHeight : num) (t_length : nat)
             (series3 : list (list (value num))) : outcome Plot :=
    let H := or_else clientHeight (ofZ 220) in
    (f <- flat t_length series3 ;;
     let '(ymin, ymax) := yrange f in
     Returned (mkPlot ymin ymax (ofZ 8) (sub (sub H (ofZ 8)) (ofZ 20)) t_length))%js.
End Plots.

(* ================================================================= *)
(** ** Strings: the built-ins [loadCSV] calls *)

Section Strings.
Local Open Scope char_scope.

(** White space and line terminators that [String.prototype.trim] removes,
    within ASCII: TAB, LF, VT, FF, CR, SP. *)
Definition is_space (c : ascii) : bool :=
    let n := nat_of_ascii c in
    ((9 <=? n) && (n <=? 13) || (n =? 32))%nat.

Fixpoint trimStart (s : string) : string :=
    match s with
    | EmptyString => EmptyString
    | String c s' => if is_space c then trimStart s' else s
    end.

(** Drops trailing white space: a character is kept when it is not a
    space or something is kept after it. *)
Fixpoint trimEnd (s : string) : string :=
    match s with
    | EmptyString => EmptyString
    | String c s' =>
        match trimEnd s' with
        | EmptyString => if is_space c then EmptyString else String c EmptyString
        | r => String c r
        end
    end.

Definition trim (s : string) : string := trimEnd (trimStart s).

(** Puts [c] in front of the first piece of a split. *)
Definition cons_first (c : ascii) (l : list string) : list string :=
    match l with
    | [] => [String c EmptyString]
    | w :: ws => String c w :: ws
    end.

(** [s.split(',')] and the like: split at every occurrence of [sep]. *)
Fixpoint split (sep : ascii) (s : string) : list string :=
    match s with
    | EmptyString => [EmptyString]
    | String c s' =>
        if Ascii.eqb c sep then EmptyString :: split sep s'
        else cons_first c (split sep s')
    end.

Definition LF : ascii := ascii_of_nat 10.
Definition CR : ascii := ascii_of_nat 13.

(** [s.split(/\r?\n/)]: a line ends at LF, or at CR LF. *)
Fixpoint split_lines (s : string) : list string :=
    match s with
    | EmptyString => [EmptyString]
    | String c s' =>
        if Ascii.eqb c LF then EmptyString :: split_lines s'
        else
          match s' with
          | String c' s'' =>
              if Ascii.eqb c CR && Ascii.eqb c' LF
              then EmptyString :: split_lines s''
              else cons_first c (split_lines s')
          | EmptyString => [String c EmptyString]
          end
    end.

(** [toLowerCase], within ASCII. *)
Definition lower (c : ascii) : ascii :=
    let n := nat_of_ascii c in
    if ((65 <=? n) && (n <=? 90))%nat then ascii_of_nat (n + 32) else c.

Fixpoint toLowerCase (s : string) : string :=
    match s with
    | EmptyString => EmptyString
    | String c s' => String (lower c) (toLowerCase s')
    end.

(** [name.toLowerCase().split('.').pop()] *)
Definition extension (name : string) : string :=
    last (split "." (toLowerCase name)) EmptyString.
End Strings.

(* ================================================================= *)
(** ** parsers.js *)

Section Parsers.
Context {num : Type} {JN : JSNumber num}.
Local Open Scope string_scope.

(** [Number(s)] on a cell of text (the language's StringToNumber). *)
Variable Number : string -> num.

(** The record both loaders return, [{ t, pos, vel, quat, omega, fuel }];
    [euler] is the property [setData] adds to it. *)
Record Trajectory : Type := mkTrajectory {
    t : list (value num);
    pos : list (list (value num));
    vel : list (list (value num));
    quat : list (list (value num));
    omega : list (list (value num));
    fuel : list (value num);
    euler : option (list (list num))
  }.

  (* --------------------------------------------------------------- *)
  (** *** loadParquet *)

(** The decoded table: its schema fields in order, each with the array
    [col.toArray()] gives.  Decoding itself is the work of parquet-wasm
    and Arrow. *)
Definition Table : Type := list (string * list (value num)).

(** [getCol(name)]: the array of the first field called [name], and [[]]
    when there is none. *)
Definition getCol (table : Table) (name : string) : list (value num) :=
    match find (fun f => String.eqb (fst f) name) table with
    | Some f => snd f
    | None => []
    end.

(** [v ?? NaN] *)
Definition orNaN (v : value num) : value num :=
    match v with
    | Undefined => Num NaN
    | Num n => Num n
    end.

Definition loadParquet (table : Table) : Trajectory :=
    let t := getCol table "t" in
    let x := getCol table "x" in
    let y := getCol table "y" in
    let z := getCol table "z" in
    let vx := getCol table "vx" in
    let vy := getCol table "vy" in
    let vz := getCol table "vz" in
    let qx := getCol table "qx" in
    let qy := getCol table "qy" in
    let qz := getCol table "qz" in
    let qw := getCol table "qw" in
    let omx := getCol table "omx" in
    let omy := getCol table "omy" in
    let omz := getCol table "omz" in
    let fuelCol := getCol table "fuel" in
    let N := List.length t in
    let each {A} (f : nat -> A) := map f (List.seq 0 N) in
    {| t := t;
       pos := each (fun i => [at_ x i; at_ y i; at_ z i]);
       vel := each (fun i => [at_ vx i; at_ vy i; at_ vz i]);
       quat := each (fun i => [at_ qw i; at_ qx i; at_ qy i; at_ qz i]);
       omega := each (fun i => [at_ omx i; at_ omy i; at_ omz i]);
       fuel := each (fun i => orNaN (at_ fuelCol i));
       euler := None |}.

  (* --------------------------------------------------------------- *)
  (** *** loadCSV *)

(** [Object.fromEntries(headers.map((h,i)=>[h,i]))], read through
    [idx[name]]: the position of the last header called [name], and
    [undefined] ([None]) when no header is. *)
Fixpoint lookup_from (i : nat) (headers : list string) (name : string) : option nat :=
    match headers with
    | [] => None
    | h :: hs =>
        match lookup_from (S i) hs name with
        | Some j => Some j
        | None => if String.eqb h name then Some i else None
        end
    end.

Definition fromEntries (headers : list string) (name : string) : option nat :=
    lookup_from 0 headers name.

(** [r[k]] for a row [r] of numbers and [k = idx[name]]. *)
Definition cell (r : list num) (k : option nat) : value num :=
    match k with
    | None => Undefined
    | Some j =>
        match nth_error r j with
        | Some n => Num n
        | None => Undefined
        end
    end.

Definition csv_lines (text : string) : list string := split_lines (trim text).

(** [lines[0].split(',').map(s => s.trim())] *)
Definition csv_headers (text : string) : list string :=
    map trim (split "," (hd "" (csv_lines text))).

(** [lines.slice(1).map(line => line.split(',').map(Number))] *)
Definition csv_rows (text : string) : list (list num) :=
    map (fun line => map Number (split "," line)) (tl (csv_lines text)).

Definition loadCSV (text : string) : Trajectory :=
    let headers := csv_headers text in
    let idx := fromEntries headers in
    let rows := csv_rows text in
    let take name := map (fun r => cell r (idx name)) rows in
    let t := take "t" in
    (* [t.map((_,i) => ...rows[i]...)] *)
    let each {A} (f : list num -> A) :=
      map (fun i => f (nth i rows [])) (List.seq 0 (List.length t)) in
    {| t := t;
       pos := each (fun r => [cell r (idx "x"); cell r (idx "y"); cell r (idx "z")]);
       vel := each (fun r => [cell r (idx "vx"); cell r (idx "vy"); cell r (idx "vz")]);
       quat := each (fun r => [cell r (idx "qw"); cell r (idx "qx");
                               cell r (idx "qy"); cell r (idx "qz")]);
       omega := each (fun r => [cell r (idx "omx"); cell r (idx "omy"); cell r (idx "omz")]);
       fuel := match idx "fuel" with
               | Some _ => take "fuel"
               | None => repeat (Num NaN) (List.length t)
               end;
       euler := None |}.

  (* --------------------------------------------------------------- *)
  (** *** Reading a logical column of a record *)

(** The fifteen logical columns and where each sits in the record. *)
Definition component (c : list (list (value num))) (k i : nat) : option (value num) :=
    match nth_error c i with
    | Some s => Some (at_ s k)
    | None => None
    end.

Definition channel (r : Trajectory) (name : string) (i : nat) : option (value num) :=
    if name =? "t" then nth_error (t r) i
    else if name =? "x" then component (pos r) 0 i
    else if name =? "y" then component (pos r) 1 i
    else if name =? "z" then component (pos r) 2 i
    else if name =? "vx" then component (vel r) 0 i
    else if name =? "vy" then component (vel r) 1 i
    else if name =? "vz" then component (vel r) 2 i
    else if name =? "qw" then component (quat r) 0 i
    else if name =? "qx" then component (quat r) 1 i
    else if name =? "qy" then component (quat r) 2 i
    else if name =? "qz" then component (quat r) 3 i
    else if name =? "omx" then component (omega r) 0 i
    else if name =? "omy" then component (omega r) 1 i
    else if name =? "omz" then component (omega r) 2 i
    else if name =? "fuel" then nth_error (fuel r) i
    else None.

(** What a delimited-text file holds for column [name] in data row [i]:
    the number in that cell, or [undefined] when the header has no such
    column or the row is too short. *)
Definition csv_cell (text name : string) (i : nat) : value num :=
  cell (nth i (csv_rows text) []) (fromEntries (csv_headers text) name).

(** What a decoded table holds for column [name] in row [i]. *)
Definition table_cell (table : Table) (name : string) (i : nat) : value num :=
  at_ (getCol table name) i.

(** Whether the header row names a column; whether the schema has a field. *)
Definition has_header (text name : string) : bool :=
  existsb (String.eqb name) (csv_headers text).

Definition has_field (table : Table) (name : string) : bool :=
  existsb (fun f => String.eqb (fst f) name) table.

(** All six channels of a record have [N] entries. *)
Definition aligned (r : Trajectory) (N : nat) : Prop :=
  List.length (t r) = N /\ List.length (pos r) = N /\ List.length (vel r) = N /\
  List.length (quat r) = N /\ List.length (omega r) = N /\ List.length (fuel r) = N.

Definition required_columns : list string :=
    ["t"; "x"; "y"; "z"; "vx"; "vy"; "vz"; "qw"; "qx"; "qy"; "qz"].

Definition optional_columns : list string := ["omx"; "omy"; "omz"; "fuel"].

(** One of the fifteen logical columns. *)
Definition known_column (name : string) : Prop :=
    In name required_columns \/ In name optional_columns.

(** The file a user picks: its name, and what the platform's readers
    make of its bytes ([blob.text()], and parquet-wasm with Arrow). *)
Record File : Type := mkFile {
    file_name : string;
    file_text : outcome string;
    file_table : outcome Table
  }.

(** [ext === 'csv' ? await loadCSV(file) : await loadParquet(file)] *)
Definition load (f : File) : outcome Trajectory :=
    if extension (file_name f) =? "csv"
    then bind (file_text f) (fun text => Returned (loadCSV text))
    else bind (file_table f) (fun table => Returned (loadParquet table)).
End Parsers.

(* ================================================================= *)
(** ** threeview.js *)

(** [THREE.Vector3] and [THREE.Quaternion] (fields in the library's order
    x, y, z, w), over the type of what their fields hold. *)
Record V3 (A : Type) : Type := mkV3 { v3x : A; v3y : A; v3z : A }.
Record Q4 (A : Type) : Type := mkQ4 { q4x : A; q4y : A; q4z : A; q4w : A }.

Section ThreeView.
Context {num : Type} {JN : JSNumber num} {JM : JSMath num}.
Local Open Scope num_scope.

(** [rocket.position] and [rocket.quaternion]: [set] and [copy] store the
    values they are handed, numbers or not. *)
Record Pose : Type := mkPose {
    position : V3 (value num);
    quaternion : Q4 (value num)
  }.

(** A camera: where it is, what it was last aimed at ([lookAt]), and its
    aspect ratio. *)
Record Camera : Type := mkCamera {
    cam_position : V3 num;
    cam_target : V3 (value num);
    cam_aspect : num
  }.

(** A rendered picture, identified by what it depicts: the rocket's pose
    in the scene and the camera it was taken from (everything else in the
    scene is fixed once [setupThree] has run). *)
Record Frame : Type := mkFrame {
    frame_pose : Pose;
    frame_camera : Camera
  }.

(** Where [renderer.render] draws: the canvas ([setRenderTarget(null)]),
    or an off-screen target with its contents. *)
Inductive RenderTarget : Type :=
  | Screen
  | OffScreen (pixels : option Frame).

(** [{ scene, camera, renderer, rocket, ... }], the context [setupThree]
    returns.  [rocket_matrixWorld] is the world matrix the renderer
    caches on the rocket each time it draws. *)
Record ThreeCtx : Type := mkThree {
    rocket : Pose;
    rocket_matrixWorld : Pose;
    camera : Camera;
    renderTarget : RenderTarget;
    canvas : Frame
  }.

(** [renderer.render(scene, cam)]: refresh the world matrices from the
    objects' position and quaternion, then draw into the bound target. *)
Definition render_with (ctx : ThreeCtx) (cam : Camera) : ThreeCtx :=
    let f := mkFrame (rocket ctx) cam in
    {| rocket := rocket ctx;
       rocket_matrixWorld := rocket ctx;
       camera := camera ctx;
       renderTarget := match renderTarget ctx with
                       | Screen => Screen
                       | OffScreen _ => OffScreen (Some f)
                       end;
       canvas := match renderTarget ctx with
                 | Screen => f
                 | OffScreen _ => canvas ctx
                 end |}.

(** [render()] of [setupThree]: [renderer.render(scene, camera)]. *)
Definition render (ctx : ThreeCtx) : ThreeCtx := render_with ctx (camera ctx).

(** [Vector3.lerp(v, alpha)]: [this.x += (v.x - this.x) * alpha]. *)
Definition lerp (a v : V3 num) (alpha : num) : V3 num :=
    mkV3 (v3x a + (v3x v - v3x a) * alpha)
         (v3y a + (v3y v - v3y a) * alpha)
         (v3z a + (v3z v - v3z a) * alpha).

Definition undefined_read : exn :=
    TypeError "Cannot read properties of undefined".

(** [updateCameraFollow(targetPos)]: offset (6, 6, 4), lerp by 0.25,
    then [camera.lookAt(targetPos.x, targetPos.y, targetPos.z)].
    [Object3D.lookAt(x, y, z)] begins with [if (x.isVector3)], which
    throws when [x] is [undefined]; the camera has been moved by then. *)
Definition updateCameraFollow (cam : Camera) (targetPos : V3 (value num))
    : Camera * outcome unit :=
    let desired := mkV3 (toNumber (v3x targetPos) + ofZ 6)
                        (toNumber (v3y targetPos) + ofZ 6)
                        (toNumber (v3z targetPos) + ofZ 4) in
    let moved := lerp (cam_position cam) desired (lit 25 100) in
    match v3x targetPos with
    | Undefined =>
        ({| cam_position := moved;
            cam_target := cam_target cam;
            cam_aspect := cam_aspect cam |}, Thrown undefined_read)
    | Num _ =>
        ({| cam_position := moved;
            cam_target := targetPos;
            cam_aspect := cam_aspect cam |}, Returned tt)
    end.

Definition set_rocket (ctx : ThreeCtx) (p : Pose) : ThreeCtx :=
    {| rocket := p;
       rocket_matrixWorld := rocket_matrixWorld ctx;
       camera := camera ctx;
       renderTarget := renderTarget ctx;
       canvas := canvas ctx |}.

Definition set_camera (ctx : ThreeCtx) (c : Camera) : ThreeCtx :=
    {| rocket := rocket ctx;
       rocket_matrixWorld := rocket_matrixWorld ctx;
       camera := c;
       renderTarget := renderTarget ctx;
       canvas := canvas ctx |}.

Definition setRenderTarget (ctx : ThreeCtx) (rt : RenderTarget) : ThreeCtx :=
    {| rocket := rocket ctx;
       rocket_matrixWorld := rocket_matrixWorld ctx;
       camera := camera ctx;
       renderTarget := rt;
       canvas := canvas ctx |}.

(** [quaternion.set(quat[1], quat[2], quat[3], quat[0])] *)
Definition quat_of_array (quat : list (value num)) : Q4 (value num) :=
    mkQ4 (at_ quat 1) (at_ quat 2) (at_ quat 3) (at_ quat 0).

(** [Vector3.set(x, y, z)]: [if (z === undefined) z = this.z], then the
    three fields are assigned as they come, numbers or not. *)
Definition Vector3_set (this : V3 (value num)) (x y z : value num) : V3 (value num) :=
    mkV3 x y (match z with
              | Undefined => v3z this
              | Num _ => z
              end).

(** [position.set(pos[0], pos[1], pos[2])] *)
Definition position_set (this : V3 (value num)) (pos : list (value num))
    : V3 (value num) :=
    Vector3_set this (at_ pos 0) (at_ pos 1) (at_ pos 2).

(** [updateThreePose(ctx, pos, quat)] for a context that exists.  [pos]
    and [quat] are [data.pos[i]] and [data.quat[i]], which are
    [undefined] ([None]) past the end of the data: indexing them throws,
    with whatever was assigned before left in place.  So does the
    camera's [lookAt] when the position has no x; nothing is drawn then. *)
Definition updateThreePose (ctx : ThreeCtx)
             (pos quat : option (list (value num))) : ThreeCtx * outcome unit :=
    match quat with
    | None => (ctx, Thrown undefined_read)
    | Some q =>
        let ctx1 := set_rocket ctx (mkPose (position (rocket ctx)) (quat_of_array q)) in
        match pos with
        | None => (ctx1, Thrown undefined_read)
        | Some p =>
            let ctx2 := set_rocket ctx1 (mkPose (position_set (position (rocket ctx1)) p)
                                                (quaternion (rocket ctx1))) in
            let '(cam, r) := updateCameraFollow (camera ctx2) (position (rocket ctx2)) in
            let ctx3 := set_camera ctx2 cam in
            match r with
            | Returned _ => (render ctx3, Returned tt)
            | Thrown e => (ctx3, Thrown e)
            end
        end
    end.

(** [new THREE.Vector3()], the position of a [new THREE.Object3D()]. *)
Definition Vector3_new : V3 (value num) := mkV3 (Num (ofZ 0)) (Num (ofZ 0)) (Num (ofZ 0)).

(** A thumbnail in the snapshot strip: the picture and the time on its
    label ([t.toFixed(2)]). *)
Record Snapshot : Type := mkSnapshot {
    snap_image : option Frame;
    snap_t : num
  }.

(** [addSnapshot(container, ctx, pos, quat, t)].  Returns the context as
    the call leaves it and the item it appends to [container]. *)
Definition addSnapshot (ctx : ThreeCtx) (pos quat : option (list (value num)))
             (t : value num) : ThreeCtx * outcome Snapshot :=
    let w := ofZ 100 in
    let h := ofZ 80 in
    let tempCam := mkCamera (cam_position (camera ctx)) (cam_target (camera ctx)) (w / h) in
    match quat with
    | None => (ctx, Thrown undefined_read)
    | Some q =>
        match pos with
        | None => (ctx, Thrown undefined_read)
        | Some p =>
            let dummy := mkPose (position_set Vector3_new p) (quat_of_array q) in
            (* override the rocket's transform, render, then restore *)
            let oldPos := position (rocket ctx) in
            let oldQuat := quaternion (rocket ctx) in
            let ctx1 := set_rocket ctx (mkPose (position dummy) (quaternion (rocket ctx))) in
            let ctx2 := set_rocket ctx1 (mkPose (position (rocket ctx1)) (quaternion dummy)) in
            let ctx3 := setRenderTarget ctx2 (OffScreen None) in
            let ctx4 := render_with ctx3 tempCam in
            let rt := renderTarget ctx4 in
            let ctx5 := setRenderTarget ctx4 Screen in
            let ctx6 := set_rocket ctx5 (mkPose oldPos (quaternion (rocket ctx5))) in
            let ctx7 := set_rocket ctx6 (mkPose (position (rocket ctx6)) oldQuat) in
            let pixels := match rt with
                          | OffScreen px => px
                          | Screen => None
                          end in
            match t with
            | Undefined => (ctx7, Thrown undefined_read)
            | Num tn => (ctx7, Returned (mkSnapshot pixels tn))
            end
        end
    end.
End ThreeView.

(** *** The navball *)

Section Navball.
Context {num : Type} {JN : JSNumber num} {JM : JSMath num}.
Local Open Scope num_scope.

(** [Quaternion.length()] *)
Definition quat_length (q : Q4 num) : num :=
    Math_sqrt (q4x q * q4x q + q4y q * q4y q + q4z q * q4z q + q4w q * q4w q).

(** [Quaternion.normalize()]: the identity when the length is zero,
    otherwise every field times [1 / length]. *)
Definition normalize (q : Q4 num) : Q4 num :=
    let l := quat_length q in
    if strictEq l (ofZ 0) then mkQ4 (ofZ 0) (ofZ 0) (ofZ 0) (ofZ 1)
    else
      let l' := ofZ 1 / l in
      mkQ4 (q4x q * l') (q4y q * l') (q4z q * l') (q4w q * l').

(** [Quaternion.invert()], i.e. [conjugate()]: x, y, z times -1. *)
Definition invert (q : Q4 num) : Q4 num :=
    mkQ4 (q4x q * ofZ (-1)) (q4y q * ofZ (-1)) (q4z q * ofZ (-1)) (q4w q).

(** [Vector3.length()] *)
Definition vec_length (v : V3 num) : num :=
    Math_sqrt (v3x v * v3x v + v3y v * v3y v + v3z v * v3z v).

Definition multiplyScalar (v : V3 num) (s : num) : V3 num :=
    mkV3 (v3x v * s) (v3y v * s) (v3z v * s).

(** [Vector3.divideScalar(s)] is [multiplyScalar(1 / s)]. *)
Definition divideScalar (v : V3 num) (s : num) : V3 num :=
    multiplyScalar v (ofZ 1 / s).

Definition negate (v : V3 num) : V3 num :=
    mkV3 (- v3x v) (- v3y v) (- v3z v).

(** [Vector3.applyQuaternion(q)] (three.js r160):
    [t = 2 * cross(q.xyz, v); v + q.w * t + cross(q.xyz, t)]. *)
Definition applyQuaternion (v : V3 num) (q : Q4 num) : V3 num :=
    let vx := v3x v in let vy := v3y v in let vz := v3z v in
    let qx := q4x q in let qy := q4y q in let qz := q4z q in let qw := q4w q in
    let tx := ofZ 2 * (qy * vz - qz * vy) in
    let ty := ofZ 2 * (qz * vx - qx * vz) in
    let tz := ofZ 2 * (qx * vy - qy * vx) in
    mkV3 (vx + qw * tx + qy * tz - qz * ty)
         (vy + qw * ty + qz * tx - qx * tz)
         (vz + qw * tz + qx * ty - qy * tx).

Record Marker : Type := mkMarker {
    marker_position : V3 num;
    marker_visible : bool
  }.

(** The navball context, as far as [updateNavball] writes to it.  The two
    texts are kept as what they show: the speed (printed with
    [toFixed(1)]), and the heading in whole degrees, [None] standing for
    ['HDG ---°']. *)
Record NavballCtx : Type := mkNavball {
    navballGroup_quaternion : Q4 num;
    progradeMarker : Marker;
    retrogradeMarker : Marker;
    speedText : num;
    hdgText : option num
  }.

Definition NAVBALL_RADIUS : num := ofZ 5.

(** [const [w, x, y, z] = quatScalarFirst;
    new THREE.Quaternion(x, y, z, w).normalize()], the constructor being
    [constructor(x = 0, y = 0, z = 0, w = 1)]. *)
Definition vehicleQ (quatScalarFirst : list (value num)) : Q4 num :=
    let w := at_ quatScalarFirst 0 in
    let x := at_ quatScalarFirst 1 in
    let y := at_ quatScalarFirst 2 in
    let z := at_ quatScalarFirst 3 in
    normalize (mkQ4 (or_default x (ofZ 0)) (or_default y (ofZ 0))
                    (or_default z (ofZ 0)) (or_default w (ofZ 1))).

(** The rocket's forward axis (0, 0, 1) carried into the world. *)
Definition forwardWorld (quatScalarFirst : list (value num)) : V3 num :=
    applyQuaternion (mkV3 (ofZ 0) (ofZ 0) (ofZ 1)) (vehicleQ quatScalarFirst).

(** [Math.hypot(forwardWorld.x, forwardWorld.z)] *)
Definition heading_proj (quatScalarFirst : list (value num)) : num :=
    let f := forwardWorld quatScalarFirst in
    Math_hypot (v3x f) (v3z f).

(** [(Math.atan2(forwardWorld.x, forwardWorld.z) * 180 / Math.PI + 360) % 360] *)
Definition heading_deg (quatScalarFirst : list (value num)) : num :=
    let f := forwardWorld quatScalarFirst in
    rem (Math_atan2 (v3x f) (v3z f) * ofZ 180 / Math_PI + ofZ 360) (ofZ 360).

(** The heading part of [updateNavball]: ['HDG ---°'] unless
    [proj > 1e-2], and then the heading rounded to a whole degree. *)
Definition heading (quatScalarFirst : list (value num)) : option num :=
    if gt (heading_proj quatScalarFirst) (lit 1 100)
    then Some (Math_round (heading_deg quatScalarFirst))
    else None.

(** [updateNavball(ctx, velVec3, quatScalarFirst)] with all three
    arguments present (it returns at once otherwise).  The velocity goes
    through [new THREE.Vector3(x = 0, y = 0, z = 0)]. *)
Definition updateNavball (ctx : NavballCtx) (velVec3 quatScalarFirst : list (value num))
    : NavballCtx :=
    let navq := invert (vehicleQ quatScalarFirst) in
    let v := mkV3 (or_default (at_ velVec3 0) (ofZ 0)) (or_default (at_ velVec3 1) (ofZ 0))
                  (or_default (at_ velVec3 2) (ofZ 0)) in
    let speed := vec_length v in
    let scale := NAVBALL_RADIUS * lit 101 100 in
    let '(pro, retro) :=
      if isFinite speed && gt speed (lit 1 1000000) then
        let progradeWorld := divideScalar v speed in
        let progradeDisplay := applyQuaternion progradeWorld navq in
        let retrogradeDisplay := applyQuaternion (negate progradeWorld) navq in
        (mkMarker (multiplyScalar progradeDisplay scale) (gt (v3z progradeDisplay) (ofZ 0)),
         mkMarker (multiplyScalar retrogradeDisplay scale) (gt (v3z retrogradeDisplay) (ofZ 0)))
      else
        (mkMarker (marker_position (progradeMarker ctx)) false,
         mkMarker (marker_position (retrogradeMarker ctx)) false) in
    {| navballGroup_quaternion := navq;
       progradeMarker := pro;
       retrogradeMarker := retro;
       speedText := speed;
       hdgText := heading quatScalarFirst |}.
End Navball.

(* ================================================================= *)
(** ** main.js *)

Section Main.
Context {num : Type} {JN : JSNumber num} {JM : JSMath num}.
Local Open Scope num_scope.
Local Open Scope string_scope.

(** [quatToEuler(q)], [q = [qw, qx, qy, qz]] scalar-first. *)
Definition quatToEuler (q : list (value num)) : list num :=
    let w := toNumber (at_ q 0) in
    let x := toNumber (at_ q 1) in
    let y := toNumber (at_ q 2) in
    let z := toNumber (at_ q 3) in
    let sinr_cosp := ofZ 2 * (w * x + y * z) in
    let cosr_cosp := ofZ 1 - ofZ 2 * (x * x + y * y) in
    let roll := Math_atan2 sinr_cosp cosr_cosp in
    let sinp := ofZ 2 * (w * y - z * x) in
    let pitch := if ge (Math_abs sinp) (ofZ 1)
                 then Math_sign sinp * (Math_PI / ofZ 2)
                 else Math_asin sinp in
    let siny_cosp := ofZ 2 * (w * z + x * y) in
    let cosy_cosp := ofZ 1 - ofZ 2 * (y * y + z * z) in
    let yaw := Math_atan2 siny_cosp cosy_cosp in
    [roll; pitch; yaw].

(** The sine [quatToEuler] tests and feeds to the arcsine. *)
Definition sinp_of (q : list (value num)) : num :=
    let w := toNumber (at_ q 0) in
    let x := toNumber (at_ q 1) in
    let y := toNumber (at_ q 2) in
    let z := toNumber (at_ q 3) in
    ofZ 2 * (w * y - z * x).

(** The three entries of what [quatToEuler] returns. *)
Definition roll_of (q : list (value num)) : num := nth 0 (quatToEuler q) NaN.
Definition pitch_of (q : list (value num)) : num := nth 1 (quatToEuler q) NaN.
Definition yaw_of (q : list (value num)) : num := nth 2 (quatToEuler q) NaN.

Definition computeEulerAll (quats : list (list (value num))) : list (list num) :=
    map quatToEuler quats.

(** [fmt(n)]: the digits of a finite number, a dash for anything else. *)
Inductive shown : Type :=
  | Dash
  | Digits (n : num).

Definition fmt (v : value num) : shown :=
    match v with
    | Num n => if isFinite n then Digits n else Dash
    | Undefined => Dash
    end.

(** A plot container: the [_plot] that [drawLines] hangs on it, and the
    sample its cursor line stands at, if it has one. *)
Record PlotNode : Type := mkPlotNode {
    clientHeight : num;
    _plot : option (Plot (num:=num));
    cursor : option Z
  }.

(** The module's variables ([data], [playing], [rafId], [three],
    [cursorIndices], [navball]) and the part of the page it reads and
    writes.  [rafId] is kept as whether a frame request for [tick] is
    pending; [timeSlider_value] as the number [Number(timeSlider.value)]
    reads back; [speedEl_value] is the whole number of samples the speed
    selector stands at, [None] for the empty string;
    [threeCanvas_aspect] is the width over the height of the 3D canvas. *)
Record App : Type := mkApp {
    data : option (Trajectory (num:=num));
    playing : bool;
    rafId : bool;
    three : option (ThreeCtx (num:=num));
    cursorIndices : list Z;
    navball : option (NavballCtx (num:=num));
    timeSlider_max : Z;
    timeSlider_value : Z;
    tVal : option num;
    playPause_text : string;
    speedEl_value : option Z;
    posPlot : PlotNode;
    velPlot : PlotNode;
    eulerPlot : PlotNode;
    readout : list shown;
    snapshots : list (Snapshot (num:=num));
    alerts : list string;
    threeCanvas_aspect : num
  }.

Definition set_data (v : option (Trajectory (num:=num))) (a : App) : App :=
        mkApp (v) (playing a) (rafId a) (three a) (cursorIndices a) (navball
          a) (timeSlider_max a) (timeSlider_value a) (tVal a) (playPause_text
          a) (speedEl_value a) (posPlot a) (velPlot a) (eulerPlot a) (readout
          a) (snapshots a) (alerts a) (threeCanvas_aspect a).
Definition set_playing (v : bool) (a : App) : App :=
        mkApp (data a) (v) (rafId a) (three a) (cursorIndices a) (navball a)
          (timeSlider_max a) (timeSlider_value a) (tVal a) (playPause_text a)
          (speedEl_value a) (posPlot a) (velPlot a) (eulerPlot a) (readout a)
          (snapshots a) (alerts a) (threeCanvas_aspect a).
Definition set_rafId (v : bool) (a : App) : App :=
        mkApp (data a) (playing a) (v) (three a) (cursorIndices a) (navball a)
          (timeSlider_max a) (timeSlider_value a) (tVal a) (playPause_text a)
          (speedEl_value a) (posPlot a) (velPlot a) (eulerPlot a) (readout a)
          (snapshots a) (alerts a) (threeCanvas_aspect a).
Definition set_three (v : option (ThreeCtx (num:=num))) (a : App) : App :=
        mkApp (data a) (playing a) (rafId a) (v) (cursorIndices a) (navball a)
          (timeSlider_max a) (timeSlider_value a) (tVal a) (playPause_text a)
          (speedEl_value a) (posPlot a) (velPlot a) (eulerPlot a) (readout a)
          (snapshots a) (alerts a) (threeCanvas_aspect a).
Definition set_cursorIndices (v : list Z) (a : App) : App :=
        mkApp (data a) (playing a) (rafId a) (three a) (v) (navball a)
          (timeSlider_max a) (timeSlider_value a) (tVal a) (playPause_text a)
          (speedEl_value a) (posPlot a) (velPlot a) (eulerPlot a) (readout a)
          (snapshots a) (alerts a) (threeCanvas_aspect a).
Definition set_navball (v : option (NavballCtx (num:=num))) (a : App) : App :=
        mkApp (data a) (playing a) (rafId a) (three a) (cursorIndices a) (v)
          (timeSlider_max a) (timeSlider_value a) (tVal a) (playPause_text a)
          (speedEl_value a) (posPlot a) (velPlot a) (eulerPlot a) (readout a)
          (snapshots a) (alerts a) (threeCanvas_aspect a).
Definition set_timeSlider_max (v : Z) (a : App) : App :=
        mkApp (data a) (playing a) (rafId a) (three a) (cursorIndices a)
          (navball a) (v) (timeSlider_value a) (tVal a) (playPause_text a)
          (speedEl_value a) (posPlot a) (velPlot a) (eulerPlot a) (readout a)
          (snapshots a) (alerts a) (threeCanvas_aspect a).
Definition set_timeSlider_value (v : Z) (a : App) : App :=
        mkApp (data a) (playing a) (rafId a) (three a) (cursorIndices a)
          (navball a) (timeSlider_max a) (v) (tVal a) (playPause_text a)
          (speedEl_value a) (posPlot a) (velPlot a) (eulerPlot a) (readout a)
          (snapshots a) (alerts a) (threeCanvas_aspect a).
Definition set_tVal (v : option num) (a : App) : App :=
        mkApp (data a) (playing a) (rafId a) (three a) (cursorIndices a)
          (navball a) (timeSlider_max a) (timeSlider_value a) (v)
          (playPause_text a) (speedEl_value a) (posPlot a) (velPlot a)
          (eulerPlot a) (readout a) (snapshots a) (alerts a)
          (threeCanvas_aspect a).
Definition set_playPause_text (v : string) (a : App) : App :=
        mkApp (data a) (playing a) (rafId a) (three a) (cursorIndices a)
          (navball a) (timeSlider_max a) (timeSlider_value a) (tVal a) (v)
          (speedEl_value a) (posPlot a) (velPlot a) (eulerPlot a) (readout a)
          (snapshots a) (alerts a) (threeCanvas_aspect a).
Definition set_speedEl_value (v : option Z) (a : App) : App :=
        mkApp (data a) (playing a) (rafId a) (three a) (cursorIndices a)
          (navball a) (timeSlider_max a) (timeSlider_value a) (tVal a)
          (playPause_text a) (v) (posPlot a) (velPlot a) (eulerPlot a)
          (readout a) (snapshots a) (alerts a) (threeCanvas_aspect a).
Definition set_posPlot (v : PlotNode) (a : App) : App :=
        mkApp (data a) (playing a) (rafId a) (three a) (cursorIndices a)
          (navball a) (timeSlider_max a) (timeSlider_value a) (tVal a)
          (playPause_text a) (speedEl_value a) (v) (velPlot a) (eulerPlot a)
          (readout a) (snapshots a) (alerts a) (threeCanvas_aspect a).
Definition set_velPlot (v : PlotNode) (a : App) : App :=
        mkApp (data a) (playing a) (rafId a) (three a) (cursorIndices a)
          (navball a) (timeSlider_max a) (timeSlider_value a) (tVal a)
          (playPause_text a) (speedEl_value a) (posPlot a) (v) (eulerPlot a)
          (readout a) (snapshots a) (alerts a) (threeCanvas_aspect a).
Definition set_eulerPlot (v : PlotNode) (a : App) : App :=
        mkApp (data a) (playing a) (rafId a) (three a) (cursorIndices a)
          (navball a) (timeSlider_max a) (timeSlider_value a) (tVal a)
          (playPause_text a) (speedEl_value a) (posPlot a) (velPlot a) (v)
          (readout a) (snapshots a) (alerts a) (threeCanvas_aspect a).
Definition set_readout (v : list shown) (a : App) : App :=
        mkApp (data a) (playing a) (rafId a) (three a) (cursorIndices a)
          (navball a) (timeSlider_max a) (timeSlider_value a) (tVal a)
          (playPause_text a) (speedEl_value a) (posPlot a) (velPlot a)
          (eulerPlot a) (v) (snapshots a) (alerts a) (threeCanvas_aspect a).
Definition set_snapshots (v : list (Snapshot (num:=num))) (a : App) : App :=
        mkApp (data a) (playing a) (rafId a) (three a) (cursorIndices a)
          (navball a) (timeSlider_max a) (timeSlider_value a) (tVal a)
          (playPause_text a) (speedEl_value a) (posPlot a) (velPlot a)
          (eulerPlot a) (readout a) (v) (alerts a) (threeCanvas_aspect a).
Definition set_alerts (v : list string) (a : App) : App :=
        mkApp (data a) (playing a) (rafId a) (three a) (cursorIndices a)
          (navball a) (timeSlider_max a) (timeSlider_value a) (tVal a)
          (playPause_text a) (speedEl_value a) (posPlot a) (velPlot a)
          (eulerPlot a) (readout a) (snapshots a) (v) (threeCanvas_aspect a).

(** The page's markup is not among the sources.  [timeSlider] is taken
    for what the program uses it as, a range input (it is given a [max]
    and listened to for [input]), with the minimum 0 and the step 1 such
    an input has by default.  A range input keeps its value on a step
    within its range: assigned a number, it takes the nearest step within
    the range; assigned anything else (the text of NaN), it takes its
    default, the middle of the range after rounding a half upwards; and
    when the maximum is below the minimum the value is the minimum. *)
Definition range_value (max : Z) (v : option Z) : Z :=
    if (max <? 0)%Z then 0%Z
    else match v with
         | Some z => Z.max 0 (Z.min max z)
         | None => ((max + 1) / 2)%Z
         end.

(** [timeSlider.value = String(v)], [v] being given as the integer
    nearest to it when it has one. *)
Definition assign_timeSlider_value (v : option Z) (a : App) : App :=
    set_timeSlider_value (range_value (timeSlider_max a) v) a.

(** [timeSlider.max = String(m)]: the value is kept within the new range. *)
Definition assign_timeSlider_max (m : Z) (a : App) : App :=
    set_timeSlider_value (range_value m (Some (timeSlider_value a)))
                         (set_timeSlider_max m a).

(** Code that runs on the application state and may throw: what it
    assigned before throwing stays assigned. *)
Definition M (A : Type) : Type := App -> App * outcome A.

Definition ret {A : Type} (a : A) : M A := fun s => (s, Returned a).
Definition throw {A : Type} (e : exn) : M A := fun s => (s, Thrown e).
Definition bindM {A B : Type} (m : M A) (k : A -> M B) : M B :=
    fun s =>
      match m s with
      | (s', Returned a) => k a s'
      | (s', Thrown e) => (s', Thrown e)
      end.
Definition get : M App := fun s => (s, Returned s).
Definition modify (f : App -> App) : M unit := fun s => (f s, Returned tt).
Definition try_catch {A : Type} (m : M A) (h : exn -> M A) : M A :=
    fun s =>
      match m s with
      | (s', Returned a) => (s', Returned a)
      | (s', Thrown e) => h e s'
      end.
Definition lift {A : Type} (r : outcome A) : M A := fun s => (s, r).

Declare Scope app_scope.
Delimit Scope app_scope with app.
Notation "x <- m ;; k" := (bindM m (fun x => k))
    (at level 61, m at next level, right associativity) : app_scope.
Notation "m ;;; k" := (bindM m (fun _ => k))
    (at level 61, right associativity) : app_scope.
Local Open Scope app_scope.

(** [a[i]] for an integer [i]: [undefined] below zero and past the end. *)
Definition nthZ {A : Type} (l : list A) (i : Z) : option A :=
    if (i <? 0)%Z then None else nth_error l (Z.to_nat i).

Definition len {A : Type} (l : list A) : Z := Z.of_nat (List.length l).

(** [e[k]] read as a number. *)
Definition atn (e : list num) (k : nat) : num :=
    match nth_error e k with
    | Some n => n
    | None => NaN
    end.

Definition toDegrees (v : num) : num := v * ofZ 180 / Math_PI.

(** [drawCursor(container, t, i)] *)
Definition drawCursor (node : PlotNode) (i : Z) : PlotNode :=
    match _plot node with
    | None => node
    | Some _ => mkPlotNode (clientHeight node) (_plot node) (Some i)
    end.

(** [updateReadout(i)] with [data] present: the fourteen values it
    prints.  Indexing a missing [p], [v] or [e] throws. *)
Definition updateReadout (d : Trajectory) (i : Z) : outcome (list shown) :=
    let e_i := match euler d with
               | Some e => nthZ e i
               | None => None
               end in
    match nthZ (pos d) i, nthZ (vel d) i, e_i with
    | Some p, Some v, Some e =>
        let tv := match nthZ (t d) i with Some tv => tv | None => Undefined end in
        let o := match nthZ (omega d) i with
                 | Some o => o
                 | None => [Num NaN; Num NaN; Num NaN]
                 end in
        let f := match nthZ (fuel d) i with Some f => f | None => Undefined end in
        Returned
          [fmt tv;
           fmt (at_ p 0); fmt (at_ p 1); fmt (at_ p 2);
           fmt (at_ v 0); fmt (at_ v 1); fmt (at_ v 2);
           fmt (Num (toDegrees (atn e 0))); fmt (Num (toDegrees (atn e 1)));
           fmt (Num (toDegrees (atn e 2)));
           fmt (at_ o 0); fmt (at_ o 1); fmt (at_ o 2);
           fmt (orNaN f)]
    | _, _, _ => Thrown undefined_read
    end.

(** The call [updateThreePose(three, pos, quat)]: nothing without a context. *)
Definition call_updateThreePose (pos quat : option (list (value num))) : M unit :=
    fun s =>
      match three s with
      | None => (s, Returned tt)
      | Some ctx =>
          let '(ctx', r) := updateThreePose ctx pos quat in
          (set_three (Some ctx') s, r)
      end.

(** The call [updateNavball(navball, vel, quat)]: nothing when any of the
    three is missing. *)
Definition call_updateNavball (vel quat : option (list (value num))) : M unit :=
    fun s =>
      match navball s, vel, quat with
      | Some ctx, Some v, Some q => (set_navball (Some (updateNavball ctx v q)) s, Returned tt)
      | _, _, _ => (s, Returned tt)
      end.

Definition onTimeChange : M unit :=
    s <- get ;;
    let i := timeSlider_value s in
    match data s with
    | None => throw (TypeError "Cannot read properties of null")
    | Some d =>
        match nthZ (t d) i with
        | Some (Num tn) =>
            modify (set_tVal (Some tn)) ;;;
            modify (fun a => set_posPlot (drawCursor (posPlot a) i) a) ;;;
            modify (fun a => set_velPlot (drawCursor (velPlot a) i) a) ;;;
            modify (fun a => set_eulerPlot (drawCursor (eulerPlot a) i) a) ;;;
            call_updateThreePose (nthZ (pos d) i) (nthZ (quat d) i) ;;;
            call_updateNavball (nthZ (vel d) i) (nthZ (quat d) i) ;;;
            r <- lift (updateReadout d i) ;;
            modify (set_readout r)
        | _ => throw undefined_read
        end
    end.

(** What [setupThree] returns: the rocket at the origin, unrotated; the
    camera at (6, 6, 6) looking at the origin; one frame drawn. *)
Definition setupThree (aspect : num) : ThreeCtx :=
    let origin := mkPose (mkV3 (Num (ofZ 0)) (Num (ofZ 0)) (Num (ofZ 0)))
                         (mkQ4 (Num (ofZ 0)) (Num (ofZ 0)) (Num (ofZ 0)) (Num (ofZ 1))) in
    let cam := mkCamera (mkV3 (ofZ 6) (ofZ 6) (ofZ 6))
                        (mkV3 (Num (ofZ 0)) (Num (ofZ 0)) (Num (ofZ 0))) aspect in
    mkThree origin origin cam Screen (mkFrame origin cam).

(** What [setupNavball] returns, before the first [updateNavball]. *)
Definition setupNavball : NavballCtx :=
    let zero := mkV3 (ofZ 0) (ofZ 0) (ofZ 0) in
    mkNavball (mkQ4 (ofZ 0) (ofZ 0) (ofZ 0) (ofZ 1))
              (mkMarker zero true) (mkMarker zero true) (ofZ 0) None.

(** The call [drawLines(node, data.t, series3, ...)]. *)
Definition call_drawLines (getp : App -> PlotNode) (setp : PlotNode -> App -> App)
             (n : nat) (series3 : list (list (value num))) : M unit :=
    s <- get ;;
    p <- lift (drawLines (clientHeight (getp s)) n series3) ;;
    modify (setp (mkPlotNode (clientHeight (getp s)) (Some p) None)).

Definition with_euler (d : Trajectory) (e : list (list num)) : Trajectory :=
    mkTrajectory (t d) (pos d) (vel d) (quat d) (omega d) (fuel d) (Some e).

Definition setData (parsed : Trajectory) : M unit :=
    let d := with_euler parsed (computeEulerAll (quat parsed)) in
    let n := List.length (t d) in
    modify (set_data (Some d)) ;;;
    modify (assign_timeSlider_max (len (t d) - 1)%Z) ;;;
    modify (assign_timeSlider_value (Some 0%Z)) ;;;
    match nth_error (t d) 0 with
    | Some (Num t0) => modify (set_tVal (Some t0))
    | _ => throw undefined_read
    end ;;;
    call_drawLines posPlot set_posPlot n (pos d) ;;;
    call_drawLines velPlot set_velPlot n (vel d) ;;;
    call_drawLines eulerPlot set_eulerPlot n
      (map (fun rpy => map (fun v => Num (toDegrees v)) rpy) (computeEulerAll (quat parsed))) ;;;
    modify (fun a => match three a with
                     | None => set_three (Some (setupThree (threeCanvas_aspect a))) a
                     | Some _ => a
                     end) ;;;
    call_updateThreePose (nth_error (pos d) 0) (nth_error (quat d) 0) ;;;
    modify (fun a => match navball a with
                     | None => set_navball (Some setupNavball) a
                     | Some _ => a
                     end) ;;;
    call_updateNavball (nth_error (vel d) 0) (nth_error (quat d) 0) ;;;
    modify (set_cursorIndices []) ;;;
    modify (set_snapshots []).

Definition tick : M unit :=
    s <- get ;;
    match playing s, data s with
    | true, Some d =>
        (* [Number(speedEl.value || 1)] *)
        let dt := match speedEl_value s with Some v => v | None => 1%Z end in
        let next := Z.min (len (t d) - 1) (timeSlider_value s + dt) in
        modify (assign_timeSlider_value (Some next)) ;;;
        onTimeChange ;;;
        s' <- get ;;
        if (timeSlider_value s' >=? len (t d) - 1)%Z
        then modify (set_playing false) ;;; modify (set_playPause_text "Play")
        else modify (set_rafId true)
    | _, _ => ret tt
    end.

(** The browser runs the pending frame request, if there is one. *)
Definition animationFrame : M unit :=
    s <- get ;;
    if rafId s then modify (set_rafId false) ;;; tick else ret tt.

(** The click handler of [playPause]. *)
Definition playPause_click : M unit :=
    modify (fun a => set_playing (negb (playing a)) a) ;;;
    modify (fun a => set_playPause_text (if playing a then "Pause" else "Play") a) ;;;
    s <- get ;;
    if playing s then modify (set_rafId true) else ret tt.

(** The input handler of [timeSlider]; before it fires the browser has
    stored the position the user moved the slider to, [v] as far as the
    range goes. *)
Definition timeSlider_input (v : Z) : M unit :=
    modify (assign_timeSlider_value (Some v)) ;;;
    modify (set_playing false) ;;;
    modify (set_playPause_text "Play") ;;;
    onTimeChange.

(** [Math.max(0, Math.min(data.t.length - 1, idx))] for
    [x = e.clientX - rect.left], [w = rect.width] and
    [idx = Math.round((x / w) * (data.t.length - 1))], all of it in the
    engine's numbers. *)
Definition clicked (d : @Trajectory num) (clientX rect_left rect_width : num) : num :=
    let x := clientX - rect_left in
    let w := rect_width in
    let idx := Math_round ((x / w) * ofZ (len (t d) - 1)) in
    Math_max (ofZ 0) (Math_min (ofZ (len (t d) - 1)) idx).

(** [handlePlotClick(e, container)], given [e.clientX] and the [left] and
    [width] of the container's rectangle. *)
Definition handlePlotClick (clientX rect_left rect_width : num) : M unit :=
    s <- get ;;
    match data s with
    | None => ret tt
    | Some d =>
        modify (assign_timeSlider_value (nearest (clicked d clientX rect_left rect_width))) ;;;
        onTimeChange
    end.

Definition handleSnapshots : M unit :=
    s <- get ;;
    let i := timeSlider_value s in
    if existsb (Z.eqb i) (cursorIndices s) then ret tt
    else
      modify (set_cursorIndices (cursorIndices s ++ [i])) ;;;
      match data s with
      | None => throw (TypeError "Cannot read properties of null")
      | Some d =>
          match three s with
          | None => throw (TypeError "Cannot read properties of null")
          | Some ctx =>
              let tv := match nthZ (t d) i with Some tv => tv | None => Undefined end in
              let '(ctx', r) := addSnapshot ctx (nthZ (pos d) i) (nthZ (quat d) i) tv in
              modify (set_three (Some ctx')) ;;;
              snap <- lift r ;;
              modify (fun a => set_snapshots (snapshots a ++ [snap]) a)
          end
      end.

(** The change handler of [fileInput] once the parser has settled with
    [r]:
    [try { const parsed = await ...; setData(parsed); }
     catch (err) { alert('Failed to load file: ' + err.message); }] *)
Definition fileInput_change (r : outcome Trajectory) : M unit :=
    try_catch
      (parsed <- lift r ;; setData parsed)
      (fun err =>
         modify (fun a => set_alerts
                            (alerts a ++ ["Failed to load file: " ++ exn_message err]) a)).

(** What can happen to the page. *)
Inductive event : Type :=
  | AnimationFrame
  | PlayPauseClick
  | SliderInput (v : Z)
  | PlotClick (clientX rect_left rect_width : num)
  | SpeedSelect (v : option Z)
  | SnapshotClick
  | FileSettled (r : outcome (Trajectory (num:=num))).

Definition handle (e : event) : M unit :=
    match e with
    | AnimationFrame => animationFrame
    | PlayPauseClick => playPause_click
    | SliderInput v => timeSlider_input v
    | PlotClick x l w => handlePlotClick x l w
    | SpeedSelect v => modify (set_speedEl_value v)
    | SnapshotClick => handleSnapshots
    | FileSettled r => fileInput_change r
    end.

(** An exception no handler catches ends that handler; the page, with
    what the handler had assigned, goes on to the next event. *)
Definition dispatch (s : App) (e : event) : App := fst (handle e s).

Definition run (es : list event) (s : App) : App := fold_left dispatch es s.

(** *** Vocabulary for the controller's properties *)

(** [Number(speedEl.value || 1)], the step of a tick. *)
Definition speed_of (s : App) : Z :=
  match speedEl_value s with
  | Some v => v
  | None => 1%Z
  end.

(** A trajectory of [N] samples is on display. *)
Definition loaded (N : Z) (s : App) : Prop :=
  exists d, data s = Some d /\ len (t d) = N.

(** Sample [i] of the record can be shown, that is [onTimeChange] gets
    through it: its time is a number, its position is there and has a
    number for x (what the camera is aimed at), and its velocity,
    orientation and Euler angles are there. *)
Definition drawable (d : @Trajectory num) (i : nat) : bool :=
  match nth_error (t d) i, nth_error (pos d) i, nth_error (vel d) i,
        nth_error (quat d) i, euler d with
  | Some (Num _), Some p, Some _, Some _, Some e =>
      match at_ p 0, nth_error e i with
      | Num _, Some _ => true
      | _, _ => false
      end
  | _, _, _, _, _ => false
  end.

(** The first sample of a record as a loader returns it can be shown,
    as far as [setData] asks: there is a first time and it is a number,
    and the first position has a number for x. *)
Definition first_shown (r : @Trajectory num) : bool :=
  match nth_error (t r) 0, nth_error (pos r) 0 with
  | Some (Num _), Some p =>
      match at_ p 0 with
      | Num _ => true
      | Undefined => false
      end
  | _, _ => false
  end.

(** The position, velocity and orientation channels have an entry for
    every time. *)
Definition covers (r : @Trajectory num) : Prop :=
  (List.length (t r) <= List.length (pos r))%nat /\
  (List.length (t r) <= List.length (vel r))%nat /\
  (List.length (t r) <= List.length (quat r))%nat.

(** Every sample of the record can be shown. *)
Definition complete (d : @Trajectory num) : bool :=
  forallb (drawable d) (List.seq 0 (List.length (t d))).

Definition complete_data (s : App) : Prop :=
  exists d, data s = Some d /\ complete d = true.

(** The events of a playback session on one record: everything but the
    arrival of another file. *)
Definition session_event (e : event) : Prop :=
  match e with
  | FileSettled _ => False
  | _ => True
  end.

(** The controller's invariant: [N] samples loaded, the slider's range
    set for them, the index within them. *)
Definition playback_inv (N : Z) (s : App) : Prop :=
  loaded N s /\ timeSlider_max s = (N - 1)%Z /\ (0 <= timeSlider_value s <= N - 1)%Z.

(** [k] animation frames in a row. *)
Definition frames (k : nat) : list event := repeat AnimationFrame k.

(** The index a click asks for, on a slider whose range is that of the
    record. *)
Definition clicked_index (d : @Trajectory num) (clientX rect_left rect_width : num) : Z :=
  range_value (len (t d) - 1) (nearest (clicked d clientX rect_left rect_width)).

(** What the views never write: the data, the playback controls, the
    snapshot list and the alerts. *)
Definition same_controls (s s' : App) : Prop :=
  data s' = data s /\ playing s' = playing s /\ rafId s' = rafId s /\
  timeSlider_value s' = timeSlider_value s /\ timeSlider_max s' = timeSlider_max s /\
  speedEl_value s' = speedEl_value s /\ cursorIndices s' = cursorIndices s /\
  snapshots s' = snapshots s /\ alerts s' = alerts s.

(** Code that, thrown or not, leaves the controls as they were. *)
Definition view_only {A : Type} (m : M A) : Prop :=
  forall s : App, same_controls s (fst (m s)).

(** Code that never throws. *)
Definition succeeds {A : Type} (m : M A) : Prop :=
  forall s, exists a, snd (m s) = Returned a.

(** Code that leaves a given reading of the state as it was. *)
Definition keeps {A X : Type} (f : App -> X) (m : M A) : Prop :=
  forall s, f (fst (m s)) = f s.
End Main.

(* ================================================================= *)
(** ** Numbers as a JavaScript engine has them: IEEE-754 binary64 *)

Module B64.
Definition prec : Z := 53.
Definition emax : Z := 1024.

Definition num : Type := spec_float.

(** An integer literal, rounded to nearest even when it needs it. *)
Definition ofZ (z : Z) : num := binary_normalize prec emax z 0 false.

Definition isFinite (x : num) : bool :=
    match x with
    | S754_zero _ | S754_finite _ _ _ => true
    | S754_infinity _ | S754_nan => false
    end.

(** The integer nearest to [x], the greater of two equally near: the
    floor of [x + 1/2], computed on the integers [m] and [e] of
    [x = m * 2^e] without rounding. *)
Definition nearest (x : num) : option Z :=
    match x with
    | S754_zero _ => Some 0%Z
    | S754_finite s m e =>
        let sm := if s then Z.neg m else Z.pos m in
        Some (if (0 <=? e)%Z then (sm * 2 ^ e)%Z
              else ((2 * sm + 2 ^ (- e)) / 2 ^ (- e + 1))%Z)
    | S754_infinity _ | S754_nan => None
    end.

(** [Math.round]: the number whose value is [nearest x], with the sign
    of [x] when that is zero; NaN and the infinities are returned as
    they are. *)
Definition round (x : num) : num :=
    match x with
    | S754_finite s m e =>
        if (0 <=? e)%Z then x
        else match nearest x with
             | Some 0%Z => S754_zero s
             | Some z => ofZ z
             | None => x
             end
    | _ => x
    end.

#[global] Instance number : JSNumber num :=
    Build_JSNumber
      S754_nan (S754_infinity false) ofZ SFopp
      (SFadd prec emax) (SFsub prec emax) (SFmul prec emax) (SFdiv prec emax)
      SFltb SFleb SFeqb isFinite SFabs (SFsqrt prec emax) nearest.

(** [Math.PI], 0x1.921fb54442d18p+1. *)
Definition PI : num := S754_finite false 7074237752028440 (-51).

(** [Math.PI / 2], 0x1.921fb54442d18p+0. *)
Definition half_PI : num := SFdiv prec emax PI (ofZ 2).

(** The functions of [Math] that the language leaves to the engine are
    arguments, and so are [Math.round] (which the language fixes: it is
    [round] above) and [%] (for which [SpecFloat] has no counterpart). *)
Definition math (asin : num -> num) (atan2 hypot : num -> num -> num)
             (round : num -> num) (rem : num -> num -> num) : JSMath num :=
    Build_JSMath PI asin atan2 hypot round rem.
End B64.

(* ================================================================= *)
(** ** Numbers without rounding: the extended reals *)

Module Exact.
Local Open Scope R_scope.

Inductive xnum : Type :=
  | XNaN
  | XInf (negative : bool)
  | XFin (r : R).

Definition Rltb (x y : R) : bool := if Rlt_dec x y then true else false.
Definition Rleb (x y : R) : bool := if Rle_dec x y then true else false.
Definition Reqb (x y : R) : bool := if Req_dec_T x y then true else false.

Definition neg (a : xnum) : xnum :=
    match a with
    | XNaN => XNaN
    | XInf s => XInf (negb s)
    | XFin r => XFin (- r)
    end.

Definition add (a b : xnum) : xnum :=
    match a, b with
    | XNaN, _ | _, XNaN => XNaN
    | XInf s1, XInf s2 => if Bool.eqb s1 s2 then XInf s1 else XNaN
    | XInf s, XFin _ | XFin _, XInf s => XInf s
    | XFin x, XFin y => XFin (x + y)
    end.

Definition sub (a b : xnum) : xnum := add a (neg b).

Definition mul (a b : xnum) : xnum :=
    match a, b with
    | XNaN, _ | _, XNaN => XNaN
    | XInf s1, XInf s2 => XInf (xorb s1 s2)
    | XInf s, XFin r | XFin r, XInf s =>
        if Reqb r 0 then XNaN else XInf (xorb s (Rltb r 0))
    | XFin x, XFin y => XFin (x * y)
    end.

Definition div (a b : xnum) : xnum :=
    match a, b with
    | XNaN, _ | _, XNaN => XNaN
    | XInf _, XInf _ => XNaN
    | XInf s, XFin r => XInf (xorb s (Rltb r 0))
    | XFin _, XInf _ => XFin 0
    | XFin x, XFin y =>
        if Reqb y 0 then (if Reqb x 0 then XNaN else XInf (Rltb x 0))
        else XFin (x / y)
    end.

Definition lt (a b : xnum) : bool :=
    match a, b with
    | XNaN, _ | _, XNaN => false
    | XInf s1, XInf s2 => s1 && negb s2
    | XInf s, XFin _ => s
    | XFin _, XInf s => negb s
    | XFin x, XFin y => Rltb x y
    end.

Definition le (a b : xnum) : bool :=
    match a, b with
    | XNaN, _ | _, XNaN => false
    | XInf s1, XInf s2 => s1 || negb s2
    | XInf s, XFin _ => s
    | XFin _, XInf s => negb s
    | XFin x, XFin y => Rleb x y
    end.

Definition strictEq (a b : xnum) : bool :=
    match a, b with
    | XInf s1, XInf s2 => Bool.eqb s1 s2
    | XFin x, XFin y => Reqb x y
    | _, _ => false
    end.

Definition isFinite (a : xnum) : bool :=
    match a with
    | XFin _ => true
    | _ => false
    end.

Definition abs (a : xnum) : xnum :=
    match a with
    | XNaN => XNaN
    | XInf _ => XInf false
    | XFin r => XFin (Rabs r)
    end.

Definition sqrt (a : xnum) : xnum :=
    match a with
    | XNaN => XNaN
    | XInf s => if s then XNaN else XInf false
    | XFin r => if Rltb r 0 then XNaN else XFin (R_sqrt.sqrt r)
    end.

(** The largest integer not above [r]. *)
Definition floor (r : R) : Z := (up r - 1)%Z.

Definition nearest (a : xnum) : option Z :=
    match a with
    | XFin r => Some (floor (r + / 2))
    | _ => None
    end.

#[global] Instance number : JSNumber xnum :=
    Build_JSNumber
      XNaN (XInf false) (fun z => XFin (IZR z)) neg
      add sub mul div lt le strictEq isFinite abs sqrt nearest.

(** [Math.atan2(y, x)] on finite arguments: the angle of the point
    (x, y), in (-PI, PI], and 0 at the origin. *)
Definition atan2R (y x : R) : R :=
    if Rlt_dec 0 x then atan (y / x)
    else if Rlt_dec x 0 then
      (if Rle_dec 0 y then atan (y / x) + PI else atan (y / x) - PI)
    else if Rlt_dec 0 y then PI / 2
    else if Rlt_dec y 0 then - (PI / 2)
    else 0.

Definition atan2 (y x : xnum) : xnum :=
    match y, x with
    | XNaN, _ | _, XNaN => XNaN
    | XFin y, XFin x => XFin (atan2R y x)
    | XFin y, XInf false => XFin 0
    | XFin y, XInf true => if Rle_dec 0 y then XFin PI else XFin (- PI)
    | XInf s, XFin _ => if s then XFin (- (PI / 2)) else XFin (PI / 2)
    | XInf s, XInf false => if s then XFin (- (PI / 4)) else XFin (PI / 4)
    | XInf s, XInf true => if s then XFin (- (3 * PI / 4)) else XFin (3 * PI / 4)
    end.

Definition asin (a : xnum) : xnum :=
    match a with
    | XFin r => if Rle_dec (-1) r then (if Rle_dec r 1 then XFin (Ratan.asin r) else XNaN)
                else XNaN
    | _ => XNaN
    end.

Definition hypot (a b : xnum) : xnum :=
    match a, b with
    | XInf _, _ | _, XInf _ => XInf false
    | XNaN, _ | _, XNaN => XNaN
    | XFin x, XFin y => XFin (R_sqrt.sqrt (x * x + y * y))
    end.

(** [r] with its fraction dropped (towards zero). *)
Definition trunc (r : R) : Z :=
    if Rle_dec 0 r then floor r else (- floor (- r))%Z.

(** [Math.round]: to the nearest integer, halves upwards. *)
Definition round (a : xnum) : xnum :=
    match a with
    | XFin r => XFin (IZR (floor (r + / 2)))
    | _ => a
    end.

(** [a % b]: the remainder with the sign of [a]. *)
Definition rem (a b : xnum) : xnum :=
    match a, b with
    | XFin x, XFin y => if Reqb y 0 then XNaN else XFin (x - y * IZR (trunc (x / y)))
    | XFin x, XInf _ => XFin x
    | _, _ => XNaN
    end.

#[global] Instance math : JSMath xnum :=
    Build_JSMath (XFin PI) asin atan2 hypot round rem.
End Exact.

(* ================================================================= *)
(** ** Sample data *)

(** 1e17, which binary64 holds exactly and next to which it has no room
    for 1e17 - 1 or 1e17 + 1. *)
Definition big : B64.num := ofZ (10 ^ 17).

(** The quaternion (1/2, -1/2, 1/2, 1/2), scalar first: a pitch of 90
    degrees followed by a yaw of 90 degrees.  Its components and their
    products are exact in binary64. *)
Definition gimbal_quat {num : Type} {JN : JSNumber num} : list (value num) :=
  [Num (lit 1 2); Num (lit (-1) 2); Num (lit 1 2); Num (lit 1 2)].

(** An engine whose [Math.asin], [Math.atan2] and [Math.hypot] answer NaN
    whatever they are asked, and so does its [%]; [Math.round] is as the
    language has it. *)
Definition math_nan : JSMath B64.num :=
  B64.math (fun _ => NaN) (fun _ _ => NaN) (fun _ _ => NaN) B64.round (fun _ _ => NaN).

(** [Number] on the cells of the sample files: an optional minus sign and
    decimal digits, the empty cell being 0; anything else is taken for
    NaN here (the language reads more forms than the samples use). *)
Fixpoint digits (acc : Z) (s : string) : option Z :=
  match s with
  | EmptyString => Some acc
  | String c s' =>
      let n := nat_of_ascii c in
      if ((48 <=? n) && (n <=? 57))%nat
      then digits (10 * acc + Z.of_nat (n - 48)) s'
      else None
  end.

Definition Number_sample (cell : string) : B64.num :=
  match trim cell with
  | EmptyString => ofZ 0
  | String c s' =>
      if Ascii.eqb c "-"%char
      then match s', digits 0 s' with
           | String _ _, Some z => neg (ofZ z)
           | _, _ => NaN
           end
      else match digits 0 (String c s') with
           | Some z => ofZ z
           | None => NaN
           end
  end.

(** A delimited-text file of [n] samples with the required columns only:
    a rocket standing on the pad, unrotated. *)
Definition csv_required_only (n : nat) : string :=
  ("t,x,y,z,vx,vy,vz,qw,qx,qy,qz"
   ++ String.concat "" (repeat (String LF "0,0,0,0,0,0,0,1,0,0,0") n))%string.

(** The same file without its four quaternion columns. *)
Definition csv_no_quaternion (n : nat) : string :=
  ("t,x,y,z,vx,vy,vz"
   ++ String.concat "" (repeat (String LF "0,0,0,0,0,0,0") n))%string.

(** A decoded columnar table of [n] samples with the required columns
    only: sample [i] is taken at time [i], at height [i], rising at 1. *)
Definition counting (n : nat) : list (value B64.num) :=
  map (fun i => Num (ofZ (Z.of_nat i))) (List.seq 0 n).

Definition constant (n : nat) (z : Z) : list (value B64.num) :=
  repeat (Num (ofZ z)) n.

Definition table_required_only (n : nat) : Table :=
  [("t", counting n); ("x", constant n 0); ("y", constant n 0); ("z", counting n);
   ("vx", constant n 0); ("vy", constant n 0); ("vz", constant n 1);
   ("qw", constant n 1); ("qx", constant n 0); ("qy", constant n 0);
   ("qz", constant n 0)]%string.

(** The same table without its four quaternion columns. *)
Definition table_no_quaternion (n : nat) : Table :=
  [("t", counting n); ("x", constant n 0); ("y", constant n 0); ("z", counting n);
   ("vx", constant n 0); ("vy", constant n 0); ("vz", constant n 1)]%string.

(** The records the loaders make of the sample files. *)
Definition flight_100 : @Trajectory B64.num :=
  Eval vm_compute in loadParquet (table_required_only 100).

Definition csv_file (n : nat) : @File B64.num :=
  mkFile "flight.csv"%string (Returned (csv_no_quaternion n))
         (Thrown (mkExn "Error" "not a parquet file")).

Definition parquet_file (n : nat) : @File B64.num :=
  mkFile "flight.parquet"%string (Returned "PAR1"%string)
         (Returned (table_no_quaternion n)).

(** The page as it is when the script starts: nothing loaded, nothing
    drawn, three plot containers 220 pixels high, a 3:2 canvas, the speed
    selector at 1. *)
Definition page_at_start : @App B64.num :=
  let node := mkPlotNode (ofZ 220) None None in
  mkApp None false false None [] None 0 0 None "Play" (Some 1%Z)
        node node node [] [] [] (lit 3 2).

(** The page after the 100-sample table has been loaded. *)
Definition page_100 : @App B64.num :=
  Eval vm_compute in
  fst (@setData _ _ math_nan (loadParquet (table_required_only 100)) page_at_start).

(** ... and after a click on Play. *)
Definition page_100_playing : @App B64.num :=
  Eval vm_compute in fst (playPause_click page_100).

(** A record of 46 samples of which only the times are given, in real
    numbers and in binary64, and a page of real arithmetic that shows the
    first, the slider's range set for it. *)
Definition times_46 : @Trajectory Exact.xnum :=
  mkTrajectory (map (fun i => Num (ofZ (Z.of_nat i))) (List.seq 0 46)) [] [] [] [] [] None.

Definition flight_46 : @Trajectory B64.num :=
  mkTrajectory (counting 46) [] [] [] [] [] None.

Definition page_46 : @App Exact.xnum :=
  let node := mkPlotNode (ofZ 220) None None in
  mkApp (Some times_46) false false None [] None 45 0 None "Play" (Some 1%Z)
        node node node [] [] [] (ofZ 1).

(** A delimited-text file of three samples whose last line stops after
    the time: that row has no cell for x or for any column after it. *)
Definition csv_short_last_row : string :=
  ("t,x,y,z,vx,vy,vz,qw,qx,qy,qz"
   ++ String LF "0,0,0,0,0,0,0,1,0,0,0"
   ++ String LF "1,0,0,1,0,0,1,1,0,0,0"
   ++ String LF "2")%string.

(** The page after that file has been picked and loaded. *)
Definition page_short_row : @App B64.num :=
  Eval vm_compute in
  dispatch (JM:=math_nan) page_at_start
    (FileSettled (load Number_sample
                    (mkFile "flight.csv"%string (Returned csv_short_last_row)
                            (Thrown (mkExn "Error" "not a parquet file"))))).

(* ================================================================= *)
(** ** Vocabulary for the properties of the scale and of the loaders *)

(** The state of the loop of [extent]: nothing comparable seen yet, or a
    lower and an upper bound in order. *)
Definition bracket (acc : Exact.xnum * Exact.xnum) : Prop :=
  acc = (Exact.XInf false, Exact.XInf true) \/ le (fst acc) (snd acc) = true.

(** Values that are all [v], or not numbers at all. *)
Definition only (v : R) (u : value Exact.xnum) : Prop :=
  u = Num (Exact.XFin v) \/ toNumber u = Exact.XNaN.

(** ** Rotations in exact arithmetic *)

(** A scalar-first quaternion of real components, as [quatToEuler] and
    [updateNavball] receive it. *)
Definition exact_quat (w x y z : R) : list (value Exact.xnum) :=
  [Num (Exact.XFin w); Num (Exact.XFin x); Num (Exact.XFin y); Num (Exact.XFin z)].

(** The same quaternion as three.js stores it, vector part first. *)
Definition exact_Q4 (w x y z : R) : Q4 Exact.xnum :=
  mkQ4 (Exact.XFin x) (Exact.XFin y) (Exact.XFin z) (Exact.XFin w).

Definition inject (v : V3 R) : V3 Exact.xnum :=
  mkV3 (Exact.XFin (v3x v)) (Exact.XFin (v3y v)) (Exact.XFin (v3z v)).








(** ** plots.js: the horizontal scale *)

Section PlotsScale.
Context {num : Type} {JN : JSNumber num}.

(** [iw = W - margin.l - margin.r] of [drawLines], the margins being
    [{ l: 36, r: 12, t: 8, b: 20 }]. *)
Definition plot_iw (W : num) : num := sub (sub W (ofZ 36)) (ofZ 12).

(** [x = (i) => margin.l + (i / (t.length - 1)) * iw], with which
    [drawLines] places sample [i] and [drawCursor] the cursor line. *)
Definition plot_x (W : num) (t_length : nat) (i : num) : num :=
  add (ofZ 36) (mul (div i (ofZ (Z.of_nat t_length - 1))) (plot_iw W)).
End PlotsScale.

(** ** Vocabulary for the properties of the text loader *)

(** The string has no occurrence of the character [x]. *)
Definition without (x : ascii) (s : string) : Prop :=
  forall c, In c (list_ascii_of_string s) -> c <> x.

(** A piece of text with no line terminator in it. *)
Definition one_line (l : string) : Prop := without LF l /\ without CR l.

(** The two line terminators [split(/\r?\n/)] recognizes. *)
Definition LF_eol : string := String LF EmptyString.
Definition CRLF_eol : string := String CR (String LF EmptyString).

(** The cells of a line of delimited text: at least one, none with a
    comma in it. *)
Definition cells_ok (r : list string) : Prop :=
  r <> [] /\ forall c, In c r -> without ","%char c.

(** A delimited text written out: a header line and data lines, each the
    comma-joined list of its cells, the lines joined by [eol], and
    [trailing] after the last of them. *)
Definition delimited (eol trailing : string) (hs : list string)
           (rows : list (list string)) : string :=
  (String.concat eol (map (String.concat ",") (hs :: rows)) ++ trailing)%string.

(** A cell with no comma and no line terminator in it; a line with at
    least one cell, all of them such. *)
Definition plain_cell (c : string) : bool :=
  forallb (fun a => negb (Ascii.eqb a ",") && negb (Ascii.eqb a LF) && negb (Ascii.eqb a CR))
          (list_ascii_of_string c).

Definition plain_row (r : list string) : bool :=
  match r with
  | [] => false
  | _ :: _ => forallb plain_cell r
  end.

(** The string starts, or ends, with a character that [trim] keeps. *)
Definition starts_solid (s : string) : bool :=
  match s with
  | EmptyString => false
  | String c _ => negb (is_space c)
  end.

Fixpoint ends_solid (s : string) : bool :=
  match s with
  | EmptyString => false
  | String c EmptyString => negb (is_space c)
  | String _ s' => ends_solid s'
  end.

(** The text [delimited eol trailing hs rows] reads back as these lines
    and cells: the lines are joined by LF or CR LF, every line has plain
    cells, the first line starts and the last ends with something other
    than white space, and only white space follows. *)
Definition well_delimited (eol trailing : string) (hs : list string)
           (rows : list (list string)) : bool :=
  (String.eqb eol LF_eol || String.eqb eol CRLF_eol)
  && forallb plain_row (hs :: rows)
  && starts_solid (String.concat "," hs)
  && ends_solid (last (map (String.concat ",") (hs :: rows)) EmptyString)
  && forallb is_space (list_ascii_of_string trailing).

(** ** Vocabulary for the properties of the page as a whole *)

Section MainVocabulary.
Context {num : Type} {JN : JSNumber num} {JM : JSMath num}.
Local Open Scope string_scope.

(** The label of the play button says what a click on it will do. *)
Definition label_shows_state (s : @App num) : Prop :=
  playPause_text s = if playing s then "Pause" else "Play".

(** No index is recorded twice for a snapshot, and every thumbnail has
    its index recorded. *)
Definition snapshots_recorded (s : @App num) : Prop :=
  NoDup (cursorIndices s) /\
  (List.length (snapshots s) <= List.length (cursorIndices s))%nat.

(** Code that keeps a property of the state, thrown or not. *)
Definition respects {A : Type} (P : @App num -> Prop) (m : @M num A) : Prop :=
  forall s, P s -> P (fst (m s)).
End MainVocabulary.

(** The record the 100-sample page shows, and that page with the slider
    moved to the last sample. *)
Definition shown_100 : @Trajectory B64.num :=
  Eval vm_compute in
  match data page_100 with
  | Some d => d
  | None => flight_100
  end.

Definition page_100_end : @App B64.num :=
  Eval vm_compute in dispatch (JM:=math_nan) page_100 (SliderInput 99).

(** ** threeview.js: the pieces of [addSnapshot] and [setupNavball] left so far *)

Section TypedArrays.
Variable A : Type.

(** [a.slice(start, end)] of a typed array, for [start <= end]: the
    elements from [start] up to [end], as far as there are any. *)
Definition slice (a : list A) (start stop : nat) : list A :=
  firstn (stop - start) (skipn start a).

(** [dst.set(src, offset)]: [src] copied over [dst] from [offset] on; a
    RangeError when it does not fit. *)
Definition set_from (dst src : list A) (offset : nat) : outcome (list A) :=
  if (offset + List.length src <=? List.length dst)%nat
  then Returned (firstn offset dst ++ src ++ skipn (offset + List.length src) dst)
  else Thrown (mkExn "RangeError" "offset is out of bounds").

(** The loop of [addSnapshot] that turns the picture read back from the
    render target upside down: [w] by [h] pixels of four bytes,
    [flipped] starting out as [new ImageData(w, h)], all [zero]. *)
Definition flip_row (w h : nat) (data : list A) (flipped : outcome (list A)) (row : nat)
  : outcome (list A) :=
  bind flipped (fun f =>
    let srcStart := ((h - 1 - row) * w * 4)%nat in
    let dstStart := (row * w * 4)%nat in
    set_from f (slice data srcStart (srcStart + w * 4)) dstStart).

Definition flipY (w h : nat) (zero : A) (data : list A) : outcome (list A) :=
  fold_left (flip_row w h data) (List.seq 0 h) (Returned (repeat zero (w * h * 4))).
End TypedArrays.

Section NavballResize.
Context {num : Type} {JN : JSNumber num}.
Local Open Scope num_scope.

(** [Math.max(1, h)]: NaN for NaN, otherwise the greater of the two. *)
Definition max_1 (h : num) : num :=
  if negb (strictEq h h) then NaN
  else if lt (ofZ 1) h then h else ofZ 1.

(** The orthographic frustum [resize] of [setupNavball] gives the camera
    for a canvas of [width] by [height]. *)
Record Frustum : Type := mkFrustum {
  frustum_left : num; frustum_right : num; frustum_top : num; frustum_bottom : num
}.

Definition navball_resize (width height : num) : Frustum :=
  let aspect := width / max_1 height in
  let frustumSize := ofZ 15 in
  mkFrustum (- frustumSize * aspect / ofZ 2) (frustumSize * aspect / ofZ 2)
            (frustumSize / ofZ 2) (- frustumSize / ofZ 2).
End NavballResize.

(** The 3D context of the 100-sample page. *)
Definition scene_100 : @ThreeCtx B64.num :=
  Eval vm_compute in
  match three page_100 with
  | Some c => c
  | None => setupThree (lit 3 2)
  end.

(* ================================================================= *)
(** * Properties *)

(** ** Exact arithmetic: comparisons *)

Module ExactFacts.
Import Exact.
Local Open Scope R_scope.

Lemma Rltb_true (x y : R) : x < y -> Rltb x y = true.
Proof. intros H. unfold Rltb. destruct (Rlt_dec x y); [reflexivity | contradiction]. Qed.

Lemma Rltb_false (x y : R) : y <= x -> Rltb x y = false.
Proof. intros H. unfold Rltb. destruct (Rlt_dec x y); [lra | reflexivity]. Qed.

Lemma Rltb_spec (x y : R) : Rltb x y = true <-> x < y.
Proof. unfold Rltb. destruct (Rlt_dec x y); split; intros; try lra; discriminate. Qed.

Lemma Rleb_true (x y : R) : x <= y -> Rleb x y = true.
Proof. intros H. unfold Rleb. destruct (Rle_dec x y); [reflexivity | contradiction]. Qed.

Lemma Rleb_false (x y : R) : y < x -> Rleb x y = false.
Proof. intros H. unfold Rleb. destruct (Rle_dec x y); [lra | reflexivity]. Qed.

Lemma Rleb_spec (x y : R) : Rleb x y = true <-> x <= y.
Proof. unfold Rleb. destruct (Rle_dec x y); split; intros; try lra; discriminate. Qed.

Lemma Reqb_true (x y : R) : x = y -> Reqb x y = true.
Proof. intros H. unfold Reqb. destruct (Req_dec_T x y); [reflexivity | contradiction]. Qed.

Lemma Reqb_false (x y : R) : x <> y -> Reqb x y = false.
Proof. intros H. unfold Reqb. destruct (Req_dec_T x y); [contradiction | reflexivity]. Qed.

(** Decides the comparisons of reals that occur in a goal, given that
    linear arithmetic settles which way each goes. *)
Ltac decide_R :=
    repeat match goal with
      | |- context [Rltb ?x ?y] =>
          first [ rewrite (@Rltb_true x y) by lra | rewrite (@Rltb_false x y) by lra ]
      | |- context [Rleb ?x ?y] =>
          first [ rewrite (@Rleb_true x y) by lra | rewrite (@Rleb_false x y) by lra ]
      | |- context [Reqb ?x ?y] =>
          first [ rewrite (@Reqb_true x y) by lra | rewrite (@Reqb_false x y) by lra ]
      end.

(** The literal [0.05] is one twentieth. *)
Lemma pad_default_exact : pad_default = XFin (5 / 100).
Proof. unfold pad_default, lit. cbn. decide_R. reflexivity. Qed.

  (** *** The loop of [extent] *)

Lemma extent_step_bracket (acc : xnum * xnum) (v : value xnum) :
    bracket acc -> bracket (extent_step acc v).
Proof.
    unfold bracket. intros [-> | H].
    - destruct v as [| [| [|] | r]]; cbn; auto.
      right. apply Rleb_true. lra.
    - destruct acc as [lo hi]. right. cbn in H.
      destruct v as [| n]; [ destruct lo, hi; cbn in *; auto; discriminate | ].
      destruct n as [| s | r], lo as [| s1 | a], hi as [| s2 | b];
        cbn in *; try discriminate; auto;
        repeat match goal with
          | s : bool |- _ => destruct s
          end; cbn in *; try discriminate; auto.
      + unfold gt. cbn. destruct (Rltb b r) eqn:E; cbn; auto.
      + destruct (Rltb r a) eqn:E; cbn; auto.
      + unfold gt; cbn.
        apply Rleb_spec in H.
        destruct (Rltb r a) eqn:E1, (Rltb b r) eqn:E2; cbn;
          try apply Rltb_spec in E1; try apply Rltb_spec in E2;
          apply Rleb_spec; lra.
Qed.

Lemma fold_bracket (arr : list (value xnum)) (acc : xnum * xnum) :
    bracket acc -> bracket (fold_left extent_step arr acc).
Proof.
    revert acc. induction arr as [| v arr IH]; intros acc H; cbn; auto.
    apply IH, extent_step_bracket, H.
Qed.

Lemma extent_loop_bracket (arr : list (value xnum)) : bracket (extent_loop arr).
Proof. apply fold_bracket. left. reflexivity. Qed.

(** [extent] always returns two real numbers, the first below the second. *)
Lemma extent_ordered (arr : list (value xnum)) :
    exists a b : R, extent arr = (XFin a, XFin b) /\ a < b.
Proof.
    unfold extent. pose proof (extent_loop_bracket arr) as H.
    destruct (extent_loop arr) as [lo hi].
    destruct H as [H | H].
    - inversion H; subst. cbn. exists 0, 1. split; [reflexivity | lra].
    - cbn in H. destruct lo as [| s1 | a], hi as [| s2 | b]; cbn in *;
        try discriminate; try (exists 0, 1; split; [reflexivity | lra]).
      apply Rleb_spec in H.
      destruct (Reqb a b) eqn:E.
      + exists (a + - 1), (b + 1). split; [reflexivity | lra].
      + exists a, b. split; [reflexivity |].
        unfold Reqb in E. destruct (Req_dec_T a b); [discriminate | lra].
Qed.
End ExactFacts.

(** ** plots.js: the vertical scale *)

Section VerticalScale.
Import Exact ExactFacts.
Local Open Scope R_scope.

Lemma pad_exact (a b : R) :
    pad (XFin a, XFin b) pad_default
    = (XFin (a + - (5 / 100 * (b + - a))), XFin (b + 5 / 100 * (b + - a))).
Proof. rewrite pad_default_exact. reflexivity. Qed.

(** With nothing finite in the array a bound of the loop stays infinite. *)
Lemma fold_no_finite (arr : list (value xnum)) (s1 s2 : bool) :
    Forall (fun v => Number_isFinite v = false) arr ->
    exists s1' s2', fold_left extent_step arr (XInf s1, XInf s2) = (XInf s1', XInf s2').
Proof.
    revert s1 s2. induction arr as [| v arr IH]; intros s1 s2 H; cbn.
    - eauto.
    - inversion H as [| ? ? Hv Harr]; subst.
      destruct v as [| [| s | r]]; cbn in Hv; try discriminate; cbn.
      + apply IH, Harr.
      + apply IH, Harr.
      + unfold gt; cbn.
        destruct (s && negb s1), (s2 && negb s); apply IH, Harr.
Qed.

Lemma fold_only_seen (v : R) (arr : list (value xnum)) :
    Forall (only v) arr ->
    fold_left extent_step arr (XFin v, XFin v) = (XFin v, XFin v).
Proof.
    induction arr as [| u arr IH]; intros H; cbn; [reflexivity |].
    inversion H as [| ? ? Hu Harr]; subst.
    destruct Hu as [-> | Hu].
    - cbn. unfold gt; cbn. rewrite !Rltb_false by lra. apply IH, Harr.
    - destruct u as [| n]; cbn in Hu; subst; cbn; apply IH, Harr.
Qed.

Lemma fold_only (v : R) (arr : list (value xnum)) :
    Forall (only v) arr -> In (Num (XFin v)) arr ->
    fold_left extent_step arr (XInf false, XInf true) = (XFin v, XFin v).
Proof.
    induction arr as [| u arr IH]; intros H Hin; [destruct Hin |].
    inversion H as [| ? ? Hu Harr]; subst. cbn [fold_left].
    destruct Hu as [-> | Hu].
    - cbn. apply fold_only_seen, Harr.
    - destruct Hin as [-> | Hin]; [cbn in Hu; discriminate |].
      destruct u as [| n]; cbn in Hu; subst; cbn; apply IH; assumption.
Qed.

Lemma extent_loop_exact (arr : list (value xnum)) :
    extent_loop arr = fold_left extent_step arr (XInf false, XInf true).
Proof. reflexivity. Qed.

(** X25.  In exact arithmetic the vertical range that
    [drawLines] computes, [pad(extent(flat))], is never degenerate: for
    every array, [ymin] and [ymax] are real numbers with [ymin < ymax], so
    the divisor [ymax - ymin] of the pixel mapping is a positive real.
    The extent falls back to [0, 1] when the array holds no finite value
    (in particular when it is empty), and is widened to [v-1, v+1] when
    [v] occurs and every entry is [v] or not a number. *)
Theorem yrange_exact (arr : list (value xnum)) :
    (exists ymin ymax : R,
        yrange arr = (XFin ymin, XFin ymax) /\ ymin < ymax /\
        lt (XFin ymin) (XFin ymax) = true /\
        exists d : R, sub (XFin ymax) (XFin ymin) = XFin d /\ 0 < d) /\
    (Forall (fun v => Number_isFinite v = false) arr ->
     extent arr = (XFin 0, XFin 1)) /\
    (forall v : R, In (Num (XFin v)) arr -> Forall (only v) arr ->
     extent arr = (XFin (v - 1), XFin (v + 1))).
Proof.
    split; [| split].
    - destruct (extent_ordered arr) as (a & b & E & Hab).
      unfold yrange. rewrite E, pad_exact.
      eexists _, _. split; [reflexivity |].
      assert (a + - (5 / 100 * (b + - a)) < b + 5 / 100 * (b + - a)) by lra.
      split; [assumption |]. split; [apply Rltb_true; assumption |].
      eexists. split; [reflexivity | lra].
    - intros H. unfold extent. rewrite extent_loop_exact.
      destruct (fold_no_finite false true H) as (s1 & s2 & ->). reflexivity.
    - intros v Hin H. unfold extent. rewrite extent_loop_exact.
      rewrite (fold_only H Hin). cbn. rewrite Reqb_true by reflexivity.
      reflexivity.
Qed.

(** The theorem at work on [5, undefined, 5]. *)
Lemma yrange_exact_witness :
    extent [Num (XFin 5); Undefined; Num (XFin 5)] = (XFin (5 - 1), XFin (5 + 1)).
Proof.
    apply (proj2 (proj2 (yrange_exact [Num (XFin 5); Undefined; Num (XFin 5)])) 5).
    - left. reflexivity.
    - apply Forall_cons; [left; reflexivity |].
      apply Forall_cons; [right; reflexivity |].
      apply Forall_cons; [left; reflexivity | apply Forall_nil].
Defined.
End VerticalScale.

Section VerticalScaleBinary64.
Local Open Scope Z_scope.

(** C10.  On binary64 a plot whose every value is 1e17 gets a degenerate
    range.  The loop of [extent] ends with [lo = hi = 1e17], the guard
    [lo === hi] is taken and returns [1e17 - 1, 1e17 + 1], but both round
    to 1e17: after padding [ymin = ymax = 1e17], [ymin < ymax] is false,
    the divisor [ymax - ymin] is zero, and the pixel mapping of the value
    itself is 0/0, NaN. *)
Theorem yrange_binary64_degenerate :
    extent [Num big; Num big; Num big] = (big, big) /\
    yrange [Num big; Num big; Num big] = (big, big) /\
    lt big big = false /\
    strictEq (sub big big) (ofZ 0) = true /\
    bind (drawLines (ofZ 220) 1 [[Num big; Num big; Num big]])
         (fun p => Returned (plot_y p big)) = Returned (NaN : B64.num).
Proof. vm_compute. repeat split; reflexivity. Qed.

(** An array that holds an infinity gets the fallback [0, 1] whatever its
    finite values are. *)
Example extent_with_infinity :
    extent [Num (ofZ 5); Num (Infinity : B64.num)] = (ofZ 0, ofZ 1).
Proof. vm_compute. reflexivity. Qed.
End VerticalScaleBinary64.


(** ** main.js: the pitch of [quatToEuler] at the gimbal-lock boundary *)

Section PitchClamp.
Variables (asin : B64.num -> B64.num) (atan2 hypot : B64.num -> B64.num -> B64.num).
Variables (round : B64.num -> B64.num) (rem : B64.num -> B64.num -> B64.num).

#[local] Instance engine : JSMath B64.num := B64.math asin atan2 hypot round rem.

Example half_PI_bits : B64.half_PI = S754_finite false 7074237752028440 (-52).
Proof. reflexivity. Qed.

(** The guarded branch, for any value of the sine. *)
Lemma clamp_sign (s : B64.num) :
  ge (Math_abs s) (ofZ 1) = true ->
  mul (Math_sign s) (div Math_PI (ofZ 2))
  = if lt (ofZ 0) s then B64.half_PI else neg B64.half_PI.
Proof.
  intros H.
  destruct s as [b | b | | b m e]; try (vm_compute in H; discriminate);
    destruct b; reflexivity.
Qed.

(** C3.  On binary64, for every scalar-first quaternion whose pitch sine
    [2 * (w*y - z*x)] has magnitude at least 1, the pitch [quatToEuler]
    returns is exactly [Math.PI / 2] when the sine is positive and exactly
    [-Math.PI / 2] when it is negative, a finite number and so not NaN; this
    holds whatever the engine's [Math.asin] would answer, which is not
    consulted. *)
Theorem quatToEuler_pitch_clamped (q : list (value B64.num)) :
  ge (Math_abs (sinp_of q)) (ofZ 1) = true ->
  pitch_of q = (if lt (ofZ 0) (sinp_of q) then B64.half_PI else neg B64.half_PI) /\
  isFinite (pitch_of q) = true /\
  (lt (ofZ 0) (sinp_of q) = true \/ lt (sinp_of q) (ofZ 0) = true).
Proof.
  intros H.
  assert (E : pitch_of q
              = mul (Math_sign (sinp_of q)) (div Math_PI (ofZ 2))).
  { unfold pitch_of, quatToEuler. cbn [nth]. fold (sinp_of q). rewrite H. reflexivity. }
  rewrite E, (clamp_sign _ H).
  destruct (sinp_of q) as [b | b | | b m e]; try (vm_compute in H; discriminate);
    destruct b; repeat split; auto.
Qed.
End PitchClamp.

(** The theorem at the quaternion (1/2, -1/2, 1/2, 1/2), whose sine is 1. *)
Lemma quatToEuler_pitch_clamped_witness :
  @pitch_of _ _ math_nan gimbal_quat = B64.half_PI.
Proof.
  exact (proj1 (quatToEuler_pitch_clamped
                  (fun _ => NaN) (fun _ _ => NaN) (fun _ _ => NaN)
                  B64.round (fun _ _ => NaN) gimbal_quat eq_refl)).
Defined.

(** ** main.js: the playback controller *)

Section Controller.
Context {num : Type} {JN : JSNumber num} {JM : JSMath num}.
Local Open Scope Z_scope.

(* The predicates of this section, at the section's numbers. *)
Local Abbreviation view_only := (@view_only num _) (only parsing).
Local Abbreviation frames := (@frames num) (only parsing).

Lemma same_controls_refl (s : @App num) : same_controls s s.
Proof. repeat split. Qed.

Lemma same_controls_trans (s1 s2 s3 : @App num) :
  same_controls s1 s2 -> same_controls s2 s3 -> same_controls s1 s3.
Proof. unfold same_controls. intuition congruence. Qed.

Lemma view_only_bind {A B : Type} (m : @M num A) (k : A -> @M num B) :
  view_only m -> (forall a, view_only (k a)) -> view_only (bindM m k).
Proof.
  intros Hm Hk s. unfold bindM. specialize (Hm s).
  destruct (m s) as [s' [a | e]]; cbn in *; [| exact Hm].
  eapply same_controls_trans; [exact Hm | apply Hk].
Qed.

Lemma view_only_modify (f : @App num -> @App num) :
  (forall s, same_controls s (f s)) -> view_only (modify f).
Proof. intros H s. apply H. Qed.

Lemma view_only_const {A : Type} (r : outcome A) : view_only (lift r).
Proof. intros s. apply same_controls_refl. Qed.

Lemma view_only_get : view_only get.
Proof. intros s. apply same_controls_refl. Qed.

Lemma view_only_updateThreePose (p q : option (list (value num))) :
  view_only (call_updateThreePose p q).
Proof.
  intros s. unfold call_updateThreePose.
  destruct (three s) as [ctx |]; [| apply same_controls_refl].
  destruct (updateThreePose ctx p q). repeat split.
Qed.

Lemma view_only_updateNavball (v q : option (list (value num))) :
  view_only (call_updateNavball v q).
Proof.
  intros s. unfold call_updateNavball.
  destruct (navball s), v, q; repeat split.
Qed.

Lemma onTimeChange_view_only : view_only onTimeChange.
Proof.
  unfold onTimeChange.
  apply view_only_bind; [apply view_only_get | intros s].
  destruct (data s) as [d |]; [| apply (view_only_const (Thrown _))].
  destruct (nthZ (t d) (timeSlider_value s)) as [[| tn] |];
    try apply (view_only_const (Thrown _)).
  repeat (apply view_only_bind; [| intros ?]);
    first [ apply view_only_updateThreePose
          | apply view_only_updateNavball
          | apply view_only_const
          | apply view_only_modify; intros ?; repeat split ].
Qed.

(** *** The slider *)

(** Whatever is assigned to it, a slider whose maximum is not negative
    holds a value within its range. *)
Lemma range_value_bounds (m : Z) (v : option Z) : 0 <= m -> 0 <= range_value m v <= m.
Proof.
  intros Hm. unfold range_value. destruct (Z.ltb_spec m 0); [lia |].
  destruct v as [z |]; [lia |].
  split; [apply Z.div_pos; lia |].
  assert ((m + 1) / 2 < m + 1) by (apply Z.div_lt_upper_bound; lia). lia.
Qed.

Lemma range_value_some (m z : Z) :
  0 <= m -> range_value m (Some z) = Z.max 0 (Z.min m z).
Proof. intros Hm. unfold range_value. destruct (Z.ltb_spec m 0); [lia | reflexivity]. Qed.

(** *** Ticks *)

Lemma tick_idle (s : @App num) :
  playing s = false \/ data s = None -> tick s = (s, Returned tt).
Proof.
  intros H. unfold tick, bindM, get. cbn.
  destruct H as [-> | ->]; [reflexivity | destruct (playing s); reflexivity].
Qed.

Arguments onTimeChange : simpl never.
Arguments tick : simpl never.
Arguments animationFrame : simpl never.
Arguments updateThreePose : simpl never.
Arguments range_value : simpl never.

(** The code of [tick] while playing, laid out along its one call. *)
Lemma tick_unfold (s : @App num) (d : @Trajectory num) :
  playing s = true -> data s = Some d ->
  tick s =
  match onTimeChange
          (assign_timeSlider_value
             (Some (Z.min (len (t d) - 1) (timeSlider_value s + speed_of s))) s) with
  | (s2, Returned _) =>
      if timeSlider_value s2 >=? len (t d) - 1
      then (set_playPause_text "Play" (set_playing false s2), Returned tt)
      else (set_rafId true s2, Returned tt)
  | (s2, Thrown e) => (s2, Thrown e)
  end.
Proof.
  intros Hp Hd. unfold tick, bindM at 1, get. cbn. rewrite Hp, Hd.
  unfold bindM at 1, modify at 1. cbn. unfold bindM at 1. fold (speed_of s).
  destruct (onTimeChange _) as [s2 [[] | e]]; [| reflexivity].
  unfold bindM at 1, get. cbn.
  destruct (_ >=? _); reflexivity.
Qed.

(** A tick while playing: the slider is assigned [min(N-1, index + speed)]
    and keeps it within its range; when the views could all be drawn,
    playback stops exactly if the index is then the last one, and another
    frame is requested otherwise. *)
Lemma tick_playing (s : @App num) (d : @Trajectory num) :
  playing s = true -> data s = Some d ->
  let s' := fst (tick s) in
  data s' = data s /\
  timeSlider_value s'
  = range_value (timeSlider_max s)
                (Some (Z.min (len (t d) - 1) (timeSlider_value s + speed_of s))) /\
  timeSlider_max s' = timeSlider_max s /\
  speedEl_value s' = speedEl_value s /\
  (snd (tick s) = Returned tt ->
   playing s' = negb (timeSlider_value s' >=? len (t d) - 1) /\
   rafId s' = if timeSlider_value s' >=? len (t d) - 1 then rafId s else true).
Proof.
  intros Hp Hd. rewrite (tick_unfold s Hp Hd).
  set (s1 := assign_timeSlider_value _ s).
  pose proof (onTimeChange_view_only s1) as H.
  destruct (onTimeChange s1) as [s2 [[] | e]]; cbn in H;
    destruct H as (H1 & H2 & H3 & H4 & H5 & H6 & _); subst s1;
    unfold assign_timeSlider_value in *; cbn in H1, H2, H3, H4, H5, H6.
  - destruct (timeSlider_value s2 >=? _) eqn:E; cbn; rewrite ?E; cbn;
      repeat split; try congruence.
  - cbn. repeat split; congruence.
Qed.

(** *** Drawing a sample that is there *)

Lemma drawable_at (d : @Trajectory num) (i : nat) :
  drawable d i = true ->
  exists tn p x0 v q e ed,
    nth_error (t d) i = Some (Num tn) /\ nth_error (pos d) i = Some p /\
    at_ p 0 = Num x0 /\
    nth_error (vel d) i = Some v /\ nth_error (quat d) i = Some q /\
    euler d = Some e /\ nth_error e i = Some ed.
Proof.
  unfold drawable. intros H.
  destruct (nth_error (t d) i) as [[| tn] |] eqn:Ht; try discriminate.
  destruct (nth_error (pos d) i) as [p |] eqn:Hp; try discriminate.
  destruct (nth_error (vel d) i) as [v |] eqn:Hv; try discriminate.
  destruct (nth_error (quat d) i) as [q |] eqn:Hq; try discriminate.
  destruct (euler d) as [e |] eqn:He; try discriminate.
  destruct (at_ p 0) as [| x0] eqn:Hx; try discriminate.
  destruct (nth_error e i) as [ed |] eqn:Hed; try discriminate.
  exists tn, p, x0, v, q, e, ed. repeat split; assumption.
Qed.

Lemma complete_at (d : @Trajectory num) (i : nat) :
  complete d = true -> (i < List.length (t d))%nat -> drawable d i = true.
Proof.
  intros H Hi. unfold complete in H. rewrite forallb_forall in H.
  apply H. apply in_seq. lia.
Qed.

Lemma nthZ_nat {A : Type} (l : list A) (i : Z) :
  0 <= i -> nthZ l i = nth_error l (Z.to_nat i).
Proof. intros H. unfold nthZ. destruct (Z.ltb_spec i 0); [lia | reflexivity]. Qed.

(** A pose whose position has a number for x is set, followed and drawn. *)
Lemma updateThreePose_returns (ctx : @ThreeCtx num) (p q : list (value num)) (x0 : num) :
  at_ p 0 = Num x0 -> snd (updateThreePose ctx (Some p) (Some q)) = Returned tt.
Proof.
  intros H. unfold updateThreePose, updateCameraFollow, position_set, Vector3_set.
  cbn. rewrite H. reflexivity.
Qed.

(** ... and one whose position has none stops at the camera's [lookAt]. *)
Lemma updateThreePose_throws (ctx : @ThreeCtx num) (p q : list (value num)) :
  at_ p 0 = Undefined -> snd (updateThreePose ctx (Some p) (Some q)) = Thrown undefined_read.
Proof.
  intros H. unfold updateThreePose, updateCameraFollow, position_set, Vector3_set.
  cbn. rewrite H. reflexivity.
Qed.

(** With the index on a sample that can be shown, [onTimeChange] draws
    every view and returns. *)
Lemma onTimeChange_returns (s : @App num) (d : @Trajectory num) :
  data s = Some d -> 0 <= timeSlider_value s ->
  drawable d (Z.to_nat (timeSlider_value s)) = true ->
  snd (onTimeChange s) = Returned tt.
Proof.
  intros Hd Hi Hc.
  destruct (drawable_at _ _ Hc)
    as (tn & p & x0 & v & q & e & ed & Ht & Hp & Hx & Hv & Hq & He & Hed).
  unfold onTimeChange, bindM at 1, get. cbn. rewrite Hd.
  rewrite !nthZ_nat by lia. rewrite Ht, Hp, Hq, Hv.
  unfold updateReadout. rewrite He, !nthZ_nat by lia. rewrite Hp, Hv, Hed.
  unfold bindM, modify, lift, call_updateThreePose, call_updateNavball. cbn.
  destruct (three s) as [ctx |]; cbn.
  - pose proof (@updateThreePose_returns ctx p q x0 Hx) as R.
    destruct (updateThreePose ctx (Some p) (Some q)) as [ctx' r]. cbn in R. subst r.
    cbn. destruct (navball s); reflexivity.
  - destruct (navball s); reflexivity.
Qed.

(** *** The other handlers *)

Lemma timeSlider_input_spec (s : @App num) (v : Z) :
  let s' := fst (timeSlider_input v s) in
  timeSlider_value s' = range_value (timeSlider_max s) (Some v) /\ playing s' = false /\
  data s' = data s /\ speedEl_value s' = speedEl_value s /\
  timeSlider_max s' = timeSlider_max s.
Proof.
  unfold timeSlider_input, bindM, modify. cbn.
  set (s1 := set_playPause_text _ _).
  pose proof (onTimeChange_view_only s1) as H.
  destruct (onTimeChange s1) as [s2 r]; cbn in *.
  destruct H as (H1 & H2 & _ & H4 & H5 & H6 & _). subst s1.
  unfold assign_timeSlider_value in *. cbn in *.
  auto.
Qed.

Lemma handlePlotClick_unfold (s : @App num) (d : @Trajectory num) (x l w : num) :
  data s = Some d ->
  handlePlotClick x l w s
  = onTimeChange (assign_timeSlider_value (nearest (clicked d x l w)) s).
Proof.
  intros Hd. unfold handlePlotClick, bindM at 1, get. cbv beta iota.
  rewrite Hd. reflexivity.
Qed.

Lemma handlePlotClick_spec (s : @App num) (d : @Trajectory num) (x l w : num) :
  data s = Some d ->
  let s' := fst (handlePlotClick x l w s) in
  timeSlider_value s' = range_value (timeSlider_max s) (nearest (clicked d x l w)) /\
  playing s' = playing s /\
  rafId s' = rafId s /\ data s' = data s /\ speedEl_value s' = speedEl_value s /\
  timeSlider_max s' = timeSlider_max s.
Proof.
  intros Hd. rewrite (handlePlotClick_unfold s x l w Hd).
  destruct (onTimeChange_view_only
              (assign_timeSlider_value (nearest (clicked d x l w)) s))
    as (H1 & H2 & H3 & H4 & H5 & H6 & _).
  cbv zeta. rewrite H1, H2, H3, H4, H5, H6. repeat split.
Qed.

Lemma handlePlotClick_no_data (s : @App num) (x l w : num) :
  data s = None -> handlePlotClick x l w s = (s, Returned tt).
Proof. intros Hd. unfold handlePlotClick, bindM, get. cbn. rewrite Hd. reflexivity. Qed.

Lemma playPause_click_spec (s : @App num) :
  let s' := fst (playPause_click s) in
  timeSlider_value s' = timeSlider_value s /\ playing s' = negb (playing s) /\
  data s' = data s /\ speedEl_value s' = speedEl_value s /\
  timeSlider_max s' = timeSlider_max s.
Proof.
  unfold playPause_click, bindM, modify, get, ret. cbn.
  destruct (playing s); cbn; repeat split.
Qed.

Lemma handleSnapshots_spec (s : @App num) :
  let s' := fst (handleSnapshots s) in
  timeSlider_value s' = timeSlider_value s /\ playing s' = playing s /\
  data s' = data s /\ speedEl_value s' = speedEl_value s /\
  timeSlider_max s' = timeSlider_max s.
Proof.
  unfold handleSnapshots, bindM at 1, get. cbn.
  destruct (existsb _ _); [repeat split |].
  unfold bindM at 1, modify at 1. cbn.
  destruct (data s) as [d |] eqn:Hd; [| cbn; auto 6].
  destruct (three s) as [ctx |]; [| cbn; auto 6].
  destruct (addSnapshot _ _ _ _) as [ctx' [snap | e]]; cbn; auto 6.
Qed.

(** *** The index stays within the data *)

Lemma animationFrame_unfold (s : @App num) :
  animationFrame s = if rafId s then tick (set_rafId false s) else (s, Returned tt).
Proof. unfold animationFrame, bindM, get, modify. cbn. destruct (rafId s); reflexivity. Qed.

Lemma dispatch_inv (N : Z) (s : @App num) (e : event) :
  1 <= N -> playback_inv N s -> session_event e ->
  playback_inv N (dispatch s e).
Proof.
  intros HN ((d & Hd & HNd) & Hm & Hi) He.
  assert (B : forall v, 0 <= range_value (timeSlider_max s) v <= N - 1).
  { intros v. rewrite Hm. apply range_value_bounds. lia. }
  unfold playback_inv, loaded, dispatch in *.
  destruct e as [| | v | x l w | v | | r]; cbn [handle session_event] in *.
  - rewrite animationFrame_unfold. destruct (rafId s); [| cbn; eauto].
    destruct (playing s) eqn:Hp.
    + destruct (@tick_playing (set_rafId false s) d Hp Hd) as (H1 & H2 & H3 & _).
      cbn in H1, H2, H3. rewrite H1, H2, H3. split; [eauto |]. split; [assumption | apply B].
    + rewrite tick_idle by (left; exact Hp). cbn. eauto.
  - destruct (playPause_click_spec s) as (H1 & _ & H3 & _ & H5).
    rewrite H1, H3, H5. eauto.
  - destruct (timeSlider_input_spec s v) as (H1 & _ & H3 & _ & H5).
    rewrite H1, H3, H5. split; [eauto |]. split; [assumption | apply B].
  - destruct (@handlePlotClick_spec s d x l w Hd) as (H1 & _ & _ & H3 & _ & H5).
    rewrite H1, H3, H5. split; [eauto |]. split; [assumption | apply B].
  - cbn. eauto.
  - destruct (handleSnapshots_spec s) as (H1 & _ & H3 & _ & H5).
    rewrite H1, H3, H5. eauto.
  - contradiction.
Qed.

Lemma run_inv (N : Z) (es : list event) (s : @App num) :
  1 <= N -> playback_inv N s -> Forall session_event es ->
  playback_inv N (run es s).
Proof.
  intros HN. revert s. induction es as [| e es IH]; intros s Hs Hes; cbn.
  - exact Hs.
  - inversion Hes as [| ? ? He Hes']; subst.
    apply IH; [apply dispatch_inv |]; assumption.
Qed.

(** *** Playing to the end at speed 1 *)

Lemma run_snoc (es : list event) (e : event) (s : @App num) :
  run (es ++ [e]) s = dispatch (run es s) e.
Proof. unfold run. rewrite fold_left_app. reflexivity. Qed.

Lemma frames_succ (k : nat) : frames (S k) = frames k ++ [AnimationFrame].
Proof. unfold frames. cbn [repeat]. apply repeat_cons. Qed.

(** A frame while playing, when the sample it moves to can be shown. *)
Lemma frame_playing (s : @App num) (d : @Trajectory num) :
  data s = Some d -> timeSlider_max s = len (t d) - 1 -> 1 <= len (t d) ->
  playing s = true -> rafId s = true ->
  let s' := dispatch s AnimationFrame in
  let i' := Z.max 0 (Z.min (len (t d) - 1) (timeSlider_value s + speed_of s)) in
  drawable d (Z.to_nat i') = true ->
  data s' = data s /\ speedEl_value s' = speedEl_value s /\
  timeSlider_max s' = timeSlider_max s /\
  timeSlider_value s' = i' /\
  playing s' = negb (i' >=? len (t d) - 1) /\
  rafId s' = negb (i' >=? len (t d) - 1).
Proof.
  intros Hd Hm HN Hp Hr. cbv zeta. intros Hc. unfold dispatch. cbn [handle].
  rewrite animationFrame_unfold, Hr.
  set (s1 := set_rafId false s).
  assert (Hv : range_value (timeSlider_max s)
                 (Some (Z.min (len (t d) - 1) (timeSlider_value s + speed_of s)))
               = Z.max 0 (Z.min (len (t d) - 1)
                                (Z.min (len (t d) - 1) (timeSlider_value s + speed_of s)))).
  { rewrite Hm. apply range_value_some. lia. }
  rewrite Z.min_assoc, Z.min_id in Hv.
  assert (Hret : snd (tick s1) = Returned tt).
  { rewrite (@tick_unfold s1 d Hp Hd).
    set (s2 := assign_timeSlider_value _ s1).
    assert (V2 : timeSlider_value s2
                 = Z.max 0 (Z.min (len (t d) - 1) (timeSlider_value s + speed_of s))).
    { subst s2 s1. unfold assign_timeSlider_value, speed_of in *. cbn. exact Hv. }
    assert (E : snd (onTimeChange s2) = Returned tt).
    { apply (@onTimeChange_returns s2 d Hd); rewrite V2; [lia | exact Hc]. }
    destruct (onTimeChange s2) as [s3 [[] | e]]; cbn in E; [| discriminate].
    destruct (_ >=? _); reflexivity. }
  destruct (@tick_playing s1 d Hp Hd) as (H1 & H2 & H3 & H4 & H5).
  destruct (H5 Hret) as (H6 & H7).
  subst s1. cbn in H1, H2, H3, H4. unfold speed_of in H2. cbn in H2.
  fold (speed_of s) in H2. rewrite Hv in H2.
  rewrite H1, H3, H4, H6, H7, H2. cbn.
  destruct (_ >=? _); repeat split.
Qed.

(** Started at index 0 with speed 1 on [N] samples that can all be shown,
    playback is at index [k] after [k] frames and still playing, for
    every [k] short of the last index. *)
Lemma playing_before_end (s : @App num) (d : @Trajectory num) (k : nat) :
  data s = Some d -> complete d = true -> timeSlider_max s = len (t d) - 1 ->
  playing s = true -> rafId s = true ->
  timeSlider_value s = 0 -> speed_of s = 1 ->
  Z.of_nat k < len (t d) - 1 ->
  let s' := run (frames k) s in
  data s' = Some d /\ speed_of s' = 1 /\ timeSlider_max s' = len (t d) - 1 /\
  timeSlider_value s' = Z.of_nat k /\ playing s' = true /\ rafId s' = true.
Proof.
  intros Hd Hc Hm Hp Hr Hi Hs. induction k as [| k IH]; intros Hk; cbv zeta.
  - cbn. auto 7.
  - rewrite frames_succ, run_snoc.
    destruct IH as (H1 & H2 & H3 & H4 & H5 & H6); [lia |].
    destruct (@frame_playing (run (frames k) s) d H1 H3 ltac:(lia) H5 H6)
      as (G1 & G2 & G3 & G4 & G5 & G6).
    { apply complete_at; [exact Hc |]. unfold len in *. lia. }
    rewrite G1, G3, G4, G5, G6. unfold speed_of in *. rewrite G2, H2, H4.
    replace (Z.max 0 (Z.min (len (t d) - 1) (Z.of_nat k + 1))) with (Z.of_nat (S k)) by lia.
    destruct (Z.geb_spec (Z.of_nat (S k)) (len (t d) - 1)); [lia |].
    auto 7.
Qed.

Lemma frame_not_pending (s : @App num) :
  rafId s = false -> dispatch s AnimationFrame = s.
Proof.
  intros H. unfold dispatch. cbn [handle]. rewrite animationFrame_unfold, H. reflexivity.
Qed.

Lemma frames_not_pending (s : @App num) (k : nat) :
  rafId s = false -> run (frames k) s = s.
Proof.
  intros H. induction k as [| k IH]; [reflexivity |].
  rewrite frames_succ, run_snoc, IH. apply frame_not_pending, H.
Qed.

Lemma frames_add (j k : nat) (s : @App num) :
  run (frames (j + k)) s = run (frames k) (run (frames j) s).
Proof. unfold frames, run. rewrite repeat_app, fold_left_app. reflexivity. Qed.

(** ... and the frame after that reaches the last index and stops there,
    for good. *)
Lemma playing_to_end (s : @App num) (d : @Trajectory num) (k : nat) :
  data s = Some d -> complete d = true -> timeSlider_max s = len (t d) - 1 ->
  playing s = true -> rafId s = true ->
  timeSlider_value s = 0 -> speed_of s = 1 ->
  2 <= len (t d) -> len (t d) - 1 <= Z.of_nat k ->
  let s' := run (frames k) s in
  timeSlider_value s' = len (t d) - 1 /\ playing s' = false /\ rafId s' = false.
Proof.
  intros Hd Hc Hm Hp Hr Hi Hs HN Hk.
  set (n := Z.to_nat (len (t d) - 2)).
  assert (E : run (frames (S n)) s = dispatch (run (frames n) s) AnimationFrame)
    by (rewrite frames_succ; apply run_snoc).
  destruct (@playing_before_end s d n Hd Hc Hm Hp Hr Hi Hs)
    as (H1 & H2 & H3 & H4 & H5 & H6); [lia |].
  destruct (@frame_playing (run (frames n) s) d H1 H3 ltac:(lia) H5 H6)
    as (_ & _ & _ & G4 & G5 & G6).
  { apply complete_at; [exact Hc |]. unfold len in *. lia. }
  rewrite <- E in G4, G5, G6. rewrite H2, H4 in G4, G5, G6.
  replace (Z.max 0 (Z.min (len (t d) - 1) (Z.of_nat n + 1))) with (len (t d) - 1) in * by lia.
  rewrite Z.geb_leb, Z.leb_refl in G5, G6. cbn in G5, G6.
  replace k with (S n + (k - S n))%nat by lia.
  cbv zeta. rewrite frames_add, frames_not_pending by exact G6. auto.
Qed.

(** C2 (as amended).  With [N >= 1] samples loaded and the slider's range
    set for them, over every sequence of frames, play/pause clicks, slider
    moves, plot clicks, snapshot clicks and changes of the speed to any
    whole number of samples, negative ones included, the index stays in
    [0, N-1].  A frame while playing moves the index by the speed and
    keeps it in the range: it is min(N-1, index + speed), or 0 if that is
    negative.  When the sample it moves to can be shown, playback is then
    stopped exactly when that is the last index.  And for N = 100 samples
    that can all be shown, playing from index 0 at speed 1 is at index k
    and playing after k < 99 frames, at index 99 and stopped after 99
    frames, and stays so after more. *)
Theorem playback_stays_in_range (N : Z) (s : @App num) (es : list event) :
  1 <= N -> playback_inv N s -> Forall session_event es ->
  0 <= timeSlider_value (run es s) <= N - 1 /\
  (playing s = true -> rafId s = true ->
   let s' := dispatch s AnimationFrame in
   timeSlider_value s' = Z.max 0 (Z.min (N - 1) (timeSlider_value s + speed_of s)) /\
   (forall d, data s = Some d -> drawable d (Z.to_nat (timeSlider_value s')) = true ->
    playing s' = negb (timeSlider_value s' =? N - 1))) /\
  (N = 100 -> complete_data s -> playing s = true -> rafId s = true ->
   timeSlider_value s = 0 -> speed_of s = 1 ->
   forall k : nat,
     let s' := run (frames k) s in
     timeSlider_value s' = Z.min 99 (Z.of_nat k) /\
     playing s' = (Z.of_nat k <? 99)).
Proof.
  intros HN Hinv Hes. split; [| split].
  - apply (run_inv HN Hinv Hes).
  - intros Hp Hr. destruct Hinv as ((d & Hd & HNd) & Hm & Hi). subst N.
    cbv zeta.
    assert (V : timeSlider_value (dispatch s AnimationFrame)
                = Z.max 0 (Z.min (len (t d) - 1) (timeSlider_value s + speed_of s))).
    { unfold dispatch. cbn [handle]. rewrite animationFrame_unfold, Hr.
      destruct (@tick_playing (set_rafId false s) d Hp Hd) as (_ & H2 & _).
      rewrite H2. cbn. rewrite Hm, range_value_some by lia.
      unfold speed_of. cbn. lia. }
    split; [exact V |].
    intros d' Hd' Hc. rewrite Hd in Hd'. inversion Hd'; subst d'.
    rewrite V in Hc.
    destruct (@frame_playing s d Hd Hm HN Hp Hr Hc) as (_ & _ & _ & G4 & G5 & _).
    rewrite G5, G4. f_equal.
    destruct (Z.geb_spec (Z.max 0 (Z.min (len (t d) - 1) (timeSlider_value s + speed_of s)))
                         (len (t d) - 1));
      destruct (Z.eqb_spec (Z.max 0 (Z.min (len (t d) - 1) (timeSlider_value s + speed_of s)))
                           (len (t d) - 1)); try reflexivity; lia.
  - intros -> (d & Hd & Hc) Hp Hr Hi Hs k. cbv zeta.
    destruct Hinv as ((d' & Hd' & HNd) & Hm & _). rewrite Hd in Hd'. inversion Hd'; subst d'.
    rewrite <- HNd in Hm.
    destruct (Z.ltb_spec (Z.of_nat k) 99) as [Hk | Hk].
    + destruct (@playing_before_end s d k Hd Hc Hm Hp Hr Hi Hs) as (_ & _ & _ & H3 & H4 & _);
        [lia |].
      rewrite H3, H4. split; [lia | reflexivity].
    + destruct (@playing_to_end s d k Hd Hc Hm Hp Hr Hi Hs) as (H3 & H4 & _); try lia.
      rewrite H3, H4. split; [lia | reflexivity].
Qed.
End Controller.

(** The theorem on the 100-sample page, playing from the start: through a
    frame, a slider move, a plot click, a speed of seven samples backwards
    and more frames the index stays in range, and 99 frames in a row at
    speed 1 end at index 99, stopped. *)
Lemma playback_stays_in_range_witness :
  (0 <= timeSlider_value
          (run (JM:=math_nan)
             [AnimationFrame; SliderInput 50; PlotClick (ofZ 330) (ofZ 300) (ofZ 100);
              PlayPauseClick; AnimationFrame; SpeedSelect (Some (-7)%Z); AnimationFrame]
             page_100_playing) <= 100 - 1)%Z /\
  timeSlider_value (run (JM:=math_nan) (frames 99) page_100_playing)
  = Z.min 99 (Z.of_nat 99) /\
  playing (run (JM:=math_nan) (frames 99) page_100_playing) = (Z.of_nat 99 <? 99)%Z.
Proof.
  assert (Hinv : playback_inv 100 page_100_playing).
  { split; [| split].
    - eexists. split; [reflexivity | vm_compute; reflexivity].
    - vm_compute. reflexivity.
    - vm_compute. split; discriminate. }
  assert (Hc : complete_data page_100_playing).
  { eexists. split; [reflexivity | vm_compute; reflexivity]. }
  pose proof (@playback_stays_in_range _ _ math_nan 100 page_100_playing
                [AnimationFrame; SliderInput 50; PlotClick (ofZ 330) (ofZ 300) (ofZ 100);
                 PlayPauseClick; AnimationFrame; SpeedSelect (Some (-7)%Z); AnimationFrame]
                ltac:(lia) Hinv) as H.
  destruct H as (H1 & _ & H3).
  { repeat constructor. }
  split; [exact H1 |].
  apply (H3 eq_refl Hc eq_refl eq_refl eq_refl eq_refl 99%nat).
Defined.

(** C2 (as stated) fails on a record whose last sample cannot be shown.
    The sample file of three rows, the last of them holding a time and
    nothing else, loads without complaint.  Played from the start at
    speed 1, the first frame shows sample 1 and asks for another frame;
    the second sets the index to 2, the last, and throws in the 3D update
    (the position has no x for the camera to look at) before [tick] gets
    to stop the controller: the index is the last one, the controller is
    still playing, the button still says Pause, and no frame is pending. *)
Lemma last_sample_not_shown :
  alerts page_short_row = [] /\
  option_map (fun d => len (t d)) (data page_short_row) = Some 3%Z /\
  timeSlider_max page_short_row = 2%Z /\ timeSlider_value page_short_row = 0%Z /\
  speed_of page_short_row = 1%Z /\
  (let s1 := dispatch (JM:=math_nan) page_short_row PlayPauseClick in
   let s2 := dispatch (JM:=math_nan) s1 AnimationFrame in
   let s3 := dispatch (JM:=math_nan) s2 AnimationFrame in
   playing s1 = true /\
   timeSlider_value s2 = 1%Z /\ playing s2 = true /\ rafId s2 = true /\
   timeSlider_value s3 = 2%Z /\ playing s3 = true /\ rafId s3 = false /\
   playPause_text s3 = "Pause"%string /\
   snd (animationFrame (JM:=math_nan) s2) = Thrown undefined_read).
Proof. vm_compute. repeat split. Qed.


(** ** main.js: scrubbing *)

Section Scrub.
Context {num : Type} {JN : JSNumber num} {JM : JSMath num}.
Local Open Scope Z_scope.

(** Moving the slider sets the index and stops playback, from either state. *)
Lemma slider_input_stops (s : @App num) (v : Z) :
  let s' := dispatch s (SliderInput v) in
  timeSlider_value s' = range_value (timeSlider_max s) (Some v) /\ playing s' = false.
Proof.
  destruct (timeSlider_input_spec s v) as (H1 & H2 & _). split; assumption.
Qed.

(** A click on a plot sets the index and leaves [playing] as it was. *)
Lemma plot_click_keeps_state (s : @App num) (d : @Trajectory num) (x l w : num) :
  data s = Some d ->
  let s' := dispatch s (PlotClick x l w) in
  timeSlider_value s' = range_value (timeSlider_max s) (nearest (clicked d x l w)) /\
  playing s' = playing s /\ rafId s' = rafId s.
Proof.
  intros Hd. destruct (@handlePlotClick_spec _ _ _ s d x l w Hd) as (H1 & H2 & H3 & _).
  repeat split; assumption.
Qed.
End Scrub.

(** C9, at its failing input.  On the 100-sample page, playing at index 0,
    a click in the middle of a plot 100 pixels wide (at [clientX] 50, the
    plot's left edge being at 0) sets the index to 50 and leaves the
    controller playing with its frame request pending; the next frame
    carries on from there to 51.  (Moving the slider to 50 instead stops
    playback.) *)
Lemma plot_click_while_playing :
  playing page_100_playing = true /\
  (let s' := dispatch (JM:=math_nan) page_100_playing
               (PlotClick (ofZ 50) (ofZ 0) (ofZ 100)) in
   timeSlider_value s' = 50%Z /\ playing s' = true /\ rafId s' = true /\
   timeSlider_value (dispatch (JM:=math_nan) s' AnimationFrame) = 51%Z) /\
  (let s' := dispatch (JM:=math_nan) page_100_playing (SliderInput 50) in
   timeSlider_value s' = 50%Z /\ playing s' = false).
Proof. vm_compute. repeat split. Qed.

(** ** main.js: a load that fails *)

Section FailedLoad.
Context {num : Type} {JN : JSNumber num} {JM : JSMath num}.

(** C6.  When the parser throws, the file handler adds its message to the
    alerts and changes nothing else: the trajectory with its Euler angles,
    the playing flag, the pending frame, the slider, the scene, the navball,
    the plots, the readout, the snapshots are what they were. *)
Theorem failed_load_leaves_state (s : @App num) (e : exn) :
  let s' := dispatch s (FileSettled (Thrown e)) in
  s' = set_alerts (alerts s ++ ["Failed to load file: " ++ exn_message e]%string) s /\
  data s' = data s /\ playing s' = playing s /\ rafId s' = rafId s /\
  timeSlider_value s' = timeSlider_value s /\ timeSlider_max s' = timeSlider_max s /\
  speedEl_value s' = speedEl_value s /\ three s' = three s /\
  navball s' = navball s /\ cursorIndices s' = cursorIndices s /\
  snapshots s' = snapshots s /\ tVal s' = tVal s /\ readout s' = readout s /\
  posPlot s' = posPlot s /\ velPlot s' = velPlot s /\ eulerPlot s' = eulerPlot s.
Proof. cbv zeta. repeat split. Qed.

(** The same for a file whose reader fails, whichever loader its name
    selects. *)
Lemma load_failure_propagates (Number : string -> num) (name : string) (e : exn) :
  load Number (mkFile name (Thrown e) (Thrown e)) = Thrown e.
Proof. unfold load. cbn. destruct (_ =? _)%string; reflexivity. Qed.
End FailedLoad.

(** ** threeview.js: taking a snapshot *)

Section SnapshotCapture.
Context {num : Type} {JN : JSNumber num} {JM : JSMath num}.

End SnapshotCapture.


(** On the 100-sample page: seek to 25, capture, seek to 10 leaves the
    scene exactly as seek to 25, seek to 10 does. *)
Example snapshot_leaves_no_trace :
  three (run (JM:=math_nan) [SliderInput 25; SnapshotClick; SliderInput 10] page_100)
  = three (run (JM:=math_nan) [SliderInput 25; SliderInput 10] page_100).
Proof. vm_compute. reflexivity. Qed.


(** ** main.js: installing a record *)

Section Install.
Context {num : Type} {JN : JSNumber num} {JM : JSMath num}.

(* The predicates of this section, at the section's numbers. *)
Local Abbreviation succeeds := (@succeeds num _) (only parsing).
Local Abbreviation keeps := (@keeps num _ _) (only parsing).

Lemma succeeds_bind {A B : Type} (m : @M num A) (k : A -> @M num B) :
  succeeds m -> (forall a, succeeds (k a)) -> succeeds (bindM m k).
Proof.
  intros Hm Hk s. unfold bindM. destruct (Hm s) as (a & Ha).
  destruct (m s) as [s' r]. cbn in Ha. subst r. apply Hk.
Qed.

Lemma succeeds_modify (f : @App num -> @App num) : succeeds (modify f).
Proof. intros s. exists tt. reflexivity. Qed.

Lemma succeeds_get : succeeds (@get num).
Proof. intros s. exists s. reflexivity. Qed.

Lemma keeps_bind {A B X : Type} (f : @App num -> X) (m : @M num A) (k : A -> @M num B) :
  keeps f m -> (forall a, keeps f (k a)) -> keeps f (bindM m k).
Proof.
  intros Hm Hk s. unfold bindM. specialize (Hm s).
  destruct (m s) as [s' [a | e]]; cbn in *; [| exact Hm].
  rewrite <- Hm. apply Hk.
Qed.

Lemma keeps_modify {X : Type} (f : @App num -> X) (g : @App num -> @App num) :
  (forall s, f (g s) = f s) -> keeps f (modify g).
Proof. intros H s. apply H. Qed.

Lemma keeps_lift {A X : Type} (f : @App num -> X) (r : outcome A) : keeps f (lift r).
Proof. intros s. reflexivity. Qed.

Lemma keeps_get {X : Type} (f : @App num -> X) : keeps f get.
Proof. intros s. reflexivity. Qed.

(** What follows code that throws is not run; what follows code that
    returns runs on the state it left. *)
Lemma bind_thrown {A B : Type} (m : @M num A) (k : A -> @M num B) (s : @App num) (e : exn) :
  snd (m s) = Thrown e -> snd (bindM m k s) = Thrown e.
Proof. intros H. unfold bindM. destruct (m s) as [s' [a | e']]; cbn in *; congruence. Qed.

Lemma bind_unit {B : Type} (m : @M num unit) (k : unit -> @M num B) (s : @App num) :
  succeeds m -> bindM m k s = k tt (fst (m s)).
Proof.
  intros H. unfold bindM. destruct (H s) as ([] & Ha).
  destruct (m s) as [s' r]. cbn in *. subst r. reflexivity.
Qed.

(** *** The pieces of [setData] *)

Lemma flat_component_returns (series3 : list (list (value num))) (k a n : nat) :
  (forall i, (i < a + n)%nat -> nth_error series3 i <> None) ->
  exists l,
    fold_right
      (fun i rest =>
         match nth_error series3 i with
         | None => Thrown (TypeError "Cannot read properties of undefined")
         | Some s => bind rest (fun r => Returned (at_ s k :: r))
         end)
      (Returned []) (List.seq a n) = Returned l.
Proof.
  revert a. induction n as [| n IH]; intros a H; cbn; [eauto |].
  destruct (IH (S a)) as (l & ->); [intros i Hi; apply H; lia |].
  destruct (nth_error series3 a) eqn:E;
    [cbn; eauto | exfalso; apply (H a); [lia | exact E]].
Qed.

Lemma drawLines_returns (H : num) (n : nat) (series3 : list (list (value num))) :
  (n <= List.length series3)%nat -> exists p, drawLines H n series3 = Returned p.
Proof.
  intros Hn.
  assert (Hall : forall i, (i < 0 + n)%nat -> nth_error series3 i <> None).
  { intros i Hi. apply nth_error_Some. lia. }
  unfold drawLines, flat, flat_component.
  destruct (@flat_component_returns series3 0 0 n Hall) as (c0 & ->).
  destruct (@flat_component_returns series3 1 0 n Hall) as (c1 & ->).
  destruct (@flat_component_returns series3 2 0 n Hall) as (c2 & ->).
  cbn. destruct (yrange _). eauto.
Qed.

Lemma call_drawLines_succeeds (getp : @App num -> PlotNode)
      (setp : PlotNode -> @App num -> @App num) (n : nat)
      (series3 : list (list (value num))) :
  (n <= List.length series3)%nat -> succeeds (call_drawLines getp setp n series3).
Proof.
  intros Hn s. unfold call_drawLines, bindM, get, lift, modify. cbn.
  destruct (@drawLines_returns (clientHeight (getp s)) n series3 Hn) as (p & ->).
  exists tt. reflexivity.
Qed.

Lemma call_updateThreePose_succeeds (p q : list (value num)) (x0 : num) :
  at_ p 0 = Num x0 -> succeeds (call_updateThreePose (Some p) (Some q)).
Proof.
  intros Hx s. unfold call_updateThreePose.
  destruct (three s) as [ctx |]; [| exists tt; reflexivity].
  pose proof (updateThreePose_returns ctx p q Hx) as R.
  destruct (updateThreePose ctx (Some p) (Some q)) as [ctx' r]. cbn in *.
  exists tt. exact R.
Qed.

Lemma call_updateNavball_succeeds (v q : option (list (value num))) :
  succeeds (call_updateNavball v q).
Proof.
  intros s. unfold call_updateNavball. destruct (navball s), v, q; exists tt; reflexivity.
Qed.

Lemma complete_covers (d : @Trajectory num) : complete d = true -> covers d.
Proof.
  intros Hc.
  assert (H : forall {A} (l : list A),
             (forall i, (i < List.length (t d))%nat -> nth_error l i <> None) ->
             (List.length (t d) <= List.length l)%nat).
  { intros A l Hl. destruct (Nat.le_gt_cases (List.length (t d)) (List.length l)) as [| Hlt];
      [assumption |].
    exfalso. apply (Hl (List.length l) Hlt). apply nth_error_None. lia. }
  repeat split; apply H; intros i Hi;
    destruct (drawable_at _ _ (complete_at _ Hc Hi))
      as (tn & p & x0 & v & q & e & ed & Ht & Hp & Hx & Hv & Hq & _);
    congruence.
Qed.

Lemma complete_first_shown (d : @Trajectory num) :
  complete d = true -> (0 < List.length (t d))%nat -> first_shown d = true.
Proof.
  intros Hc Hn.
  destruct (drawable_at _ _ (complete_at _ Hc Hn))
    as (tn & p & x0 & v & q & e & ed & Ht & Hp & Hx & _).
  unfold first_shown. rewrite Ht, Hp, Hx. reflexivity.
Qed.

Lemma first_shown_at (r : @Trajectory num) :
  first_shown r = true ->
  exists t0 p x0, nth_error (t r) 0 = Some (Num t0) /\ nth_error (pos r) 0 = Some p /\
                  at_ p 0 = Num x0.
Proof.
  unfold first_shown. intros H.
  destruct (nth_error (t r) 0) as [[| t0] |]; try discriminate.
  destruct (nth_error (pos r) 0) as [p |]; try discriminate.
  destruct (at_ p 0) as [| x0] eqn:Hx; try discriminate.
  exists t0, p, x0. repeat split; assumption.
Qed.

Lemma covered_entry {A : Type} (l : list A) (n : nat) :
  (0 < n)%nat -> (n <= List.length l)%nat -> exists a, nth_error l 0 = Some a.
Proof. intros H0 Hn. destruct l as [| a l]; cbn in *; [lia | eauto]. Qed.

(** [setData] runs to its end on a record whose channels cover its times
    and whose first sample can be shown. *)
Lemma setData_succeeds (parsed : @Trajectory num) :
  covers parsed -> first_shown parsed = true -> succeeds (setData parsed).
Proof.
  intros (Lp & Lv & Lq) Hf.
  destruct (first_shown_at _ Hf) as (t0 & p & x0 & Ht & Hp & Hx).
  assert (Hn : (0 < List.length (t parsed))%nat).
  { destruct (t parsed); [discriminate | cbn; lia]. }
  destruct (covered_entry _ Hn Lq) as (q & Hq).
  unfold setData. cbv zeta. cbn [t pos vel quat with_euler]. rewrite Ht, Hp, Hq.
  repeat first
    [ apply (@call_updateThreePose_succeeds p q x0 Hx)
    | apply call_updateNavball_succeeds
    | apply call_drawLines_succeeds;
      rewrite ?length_map; unfold computeEulerAll; rewrite ?length_map; assumption
    | apply succeeds_modify
    | apply succeeds_bind; [| intros ?] ].
Qed.

(** With a 3D context in place, or set up for the occasion, a first
    position without x ends the call. *)
Lemma pose_without_x_throws {B : Type} (p q : list (value num)) (k : @M num B)
      (s : @App num) :
  at_ p 0 = Undefined ->
  snd (bindM (modify (fun a => match three a with
                               | None => set_three (Some (setupThree (threeCanvas_aspect a))) a
                               | Some _ => a
                               end))
             (fun _ => bindM (call_updateThreePose (Some p) (Some q)) (fun _ => k)) s)
  = Thrown undefined_read.
Proof.
  intros Hx. rewrite bind_unit by apply succeeds_modify. cbn [fst modify].
  apply bind_thrown.
  assert (T : exists ctx,
             three (match three s with
                    | None => set_three (Some (setupThree (threeCanvas_aspect s))) s
                    | Some _ => s
                    end) = Some ctx).
  { destruct (three s) eqn:E; eexists; cbn; first [eassumption | reflexivity]. }
  destruct T as (ctx & T). unfold call_updateThreePose. rewrite T.
  pose proof (updateThreePose_throws ctx p q Hx) as R.
  destruct (updateThreePose ctx (Some p) (Some q)) as [ctx' r]. exact R.
Qed.

(** ... and on a record whose channels cover its times it stops short
    when the first sample cannot be shown. *)
Lemma setData_throws (parsed : @Trajectory num) (s : @App num) :
  covers parsed -> first_shown parsed = false ->
  snd (setData parsed s) = Thrown undefined_read.
Proof.
  intros (Lp & Lv & Lq) Hf.
  unfold setData. cbv zeta. cbn [t pos vel quat with_euler].
  rewrite !bind_unit by apply succeeds_modify. cbn [fst modify].
  unfold first_shown in Hf.
  destruct (nth_error (t parsed) 0) as [[| t0] |] eqn:Ht;
    try (apply bind_thrown; reflexivity).
  assert (Hn : (0 < List.length (t parsed))%nat).
  { destruct (t parsed); [discriminate | cbn; lia]. }
  destruct (covered_entry _ Hn Lp) as (p & Hp).
  destruct (covered_entry _ Hn Lq) as (q & Hq).
  rewrite Hp in Hf. rewrite Hp, Hq.
  destruct (at_ p 0) as [| x0] eqn:Hx; [| discriminate].
  rewrite bind_unit by apply succeeds_modify.
  rewrite !bind_unit
    by (apply call_drawLines_succeeds;
        rewrite ?length_map; unfold computeEulerAll; rewrite ?length_map; assumption).
  apply pose_without_x_throws. exact Hx.
Qed.

Lemma keeps_call_drawLines {X : Type} (f : @App num -> X)
      (getp : @App num -> PlotNode) (setp : PlotNode -> @App num -> @App num)
      (n : nat) (series3 : list (list (value num))) :
  (forall p s, f (setp p s) = f s) -> keeps f (call_drawLines getp setp n series3).
Proof.
  intros H s. unfold call_drawLines, bindM, get, lift, modify. cbn.
  destruct (drawLines _ _ _); [apply H | reflexivity].
Qed.

Lemma keeps_call_updateThreePose {X : Type} (f : @App num -> X)
      (p q : option (list (value num))) :
  (forall c s, f (set_three c s) = f s) -> keeps f (call_updateThreePose p q).
Proof.
  intros H s. unfold call_updateThreePose. destruct (three s); [| reflexivity].
  destruct (updateThreePose _ _ _). apply H.
Qed.

Lemma keeps_call_updateNavball {X : Type} (f : @App num -> X)
      (v q : option (list (value num))) :
  (forall c s, f (set_navball c s) = f s) -> keeps f (call_updateNavball v q).
Proof.
  intros H s. unfold call_updateNavball.
  destruct (navball s), v, q; first [apply H | reflexivity].
Qed.

(** Whatever record settles is the one installed, before anything that
    may throw: [data = parsed] is the first statement of [setData]. *)
Lemma setData_installs (parsed : @Trajectory num) (s : @App num) :
  data (fst (setData parsed s))
  = Some (with_euler parsed (computeEulerAll (quat parsed))).
Proof.
  unfold setData. cbv zeta.
  match goal with
  | |- data (fst (bindM (modify ?g) ?k s)) = _ =>
      change (data (fst (k tt (g s))) = data (g s))
  end.
  match goal with
  | |- data (fst (?m ?s1)) = _ => enough (K : keeps data m) by apply K
  end.
  destruct (nth_error _ 0) as [[| t0] |];
  repeat first
    [ apply keeps_call_drawLines; reflexivity
    | apply keeps_call_updateThreePose; reflexivity
    | apply keeps_call_updateNavball; reflexivity
    | apply (keeps_lift data (Thrown _))
    | apply keeps_modify; let a := fresh "a" in
      intros a; try destruct (three a); try destruct (navball a); reflexivity
    | apply keeps_bind; [| intros ?] ].
Qed.

(** The alerts are none of [setData]'s business, thrown or not. *)
Lemma setData_keeps_alerts (parsed : @Trajectory num) : keeps alerts (setData parsed).
Proof.
  unfold setData. cbv zeta.
  destruct (nth_error _ 0) as [[| t0] |];
  repeat first
    [ apply keeps_call_drawLines; reflexivity
    | apply keeps_call_updateThreePose; reflexivity
    | apply keeps_call_updateNavball; reflexivity
    | apply (keeps_lift alerts (Thrown _))
    | apply keeps_modify; let a := fresh "a" in
      intros a; try destruct (three a); try destruct (navball a); reflexivity
    | apply keeps_bind; [| intros ?] ].
Qed.

(** The slider is at 0 once [setData] has been called, and its maximum is
    the last index of the record. *)
Lemma setData_resets (parsed : @Trajectory num) (s : @App num) :
  timeSlider_value (fst (setData parsed s)) = 0%Z /\
  timeSlider_max (fst (setData parsed s)) = (len (t parsed) - 1)%Z /\
  alerts (fst (setData parsed s)) = alerts s.
Proof.
  split; [| split; [| apply setData_keeps_alerts]].
  - unfold setData. cbv zeta.
    match goal with
    | |- timeSlider_value (fst (bindM (modify ?g1)
           (fun _ => bindM (modify ?g2) (fun _ => bindM (modify ?g3) ?k)) s)) = _ =>
        change (timeSlider_value (fst (k tt (g3 (g2 (g1 s))))) = 0%Z);
        transitivity (timeSlider_value (g3 (g2 (g1 s))));
        [| unfold assign_timeSlider_value, assign_timeSlider_max, range_value; cbn;
           destruct (Z.ltb_spec (len (t parsed) - 1) 0); [reflexivity | lia] ]
    end.
    match goal with
    | |- timeSlider_value (fst (?m ?s1)) = _ =>
        enough (K : keeps timeSlider_value m) by apply K
    end.
    destruct (nth_error _ 0) as [[| t0] |];
    repeat first
      [ apply keeps_call_drawLines; reflexivity
      | apply keeps_call_updateThreePose; reflexivity
      | apply keeps_call_updateNavball; reflexivity
      | apply (keeps_lift timeSlider_value (Thrown _))
      | apply keeps_modify; let a := fresh "a" in
        intros a; try destruct (three a); try destruct (navball a); reflexivity
      | apply keeps_bind; [| intros ?] ].
  - unfold setData. cbv zeta.
    match goal with
    | |- timeSlider_max (fst (bindM (modify ?g1)
           (fun _ => bindM (modify ?g2) (fun _ => bindM (modify ?g3) ?k)) s)) = _ =>
        change (timeSlider_max (fst (k tt (g3 (g2 (g1 s))))) = (len (t parsed) - 1)%Z);
        transitivity (timeSlider_max (g3 (g2 (g1 s)))); [| reflexivity ]
    end.
    match goal with
    | |- timeSlider_max (fst (?m ?s1)) = _ =>
        enough (K : keeps timeSlider_max m) by apply K
    end.
    destruct (nth_error _ 0) as [[| t0] |];
    repeat first
      [ apply keeps_call_drawLines; reflexivity
      | apply keeps_call_updateThreePose; reflexivity
      | apply keeps_call_updateNavball; reflexivity
      | apply (keeps_lift timeSlider_max (Thrown _))
      | apply keeps_modify; let a := fresh "a" in
        intros a; try destruct (three a); try destruct (navball a); reflexivity
      | apply keeps_bind; [| intros ?] ].
Qed.
End Install.

(** ** parsers.js: what the loaders return *)

Section LoaderFacts.
Context {num : Type} {JN : JSNumber num}.
Variable Number : string -> num.
Local Open Scope string_scope.

Lemma lookup_from_absent (i : nat) (headers : list string) (name : string) :
  ~ In name headers -> lookup_from i headers name = None.
Proof.
  revert i. induction headers as [| h hs IH]; intros i H; cbn; [reflexivity |].
  rewrite IH by (intros Hin; apply H; right; exact Hin).
  destruct (String.eqb_spec h name) as [-> | _]; [| reflexivity].
  exfalso. apply H. left. reflexivity.
Qed.

Lemma fromEntries_absent (headers : list string) (name : string) :
  ~ In name headers -> fromEntries headers name = None.
Proof. apply lookup_from_absent. Qed.

Lemma lookup_from_present (i : nat) (headers : list string) (name : string) :
  In name headers ->
  exists j, lookup_from i headers name = Some j /\ (i <= j < i + List.length headers)%nat /\
            nth_error headers (j - i) = Some name.
Proof.
  revert i. induction headers as [| h hs IH]; intros i H; [destruct H |]. cbn.
  destruct (in_dec string_dec name hs) as [Hin | Hout].
  - destruct (IH (S i) Hin) as (j & -> & Hj & Hn). exists j.
    split; [reflexivity |]. split; [lia |].
    replace (j - i)%nat with (S (j - S i)) by lia. exact Hn.
  - rewrite (@lookup_from_absent (S i) hs name Hout).
    destruct H as [-> | H]; [| contradiction].
    rewrite String.eqb_refl. exists i. split; [reflexivity |]. split; [lia |].
    rewrite Nat.sub_diag. reflexivity.
Qed.

(** [t.map((_, i) => f(rows[i]))], with [t] as long as [rows], is a map
    over the rows. *)
Lemma each_row {A B : Type} (f : list A -> B) (rows : list (list A)) :
  map (fun i => f (nth i rows [])) (List.seq 0 (List.length rows)) = map f rows.
Proof.
  rewrite <- (map_map (fun i => nth i rows []) f). f_equal.
  induction rows as [| r rows IH]; [reflexivity |].
  cbn [List.length List.seq map nth]. f_equal.
  rewrite <- seq_shift, map_map. exact IH.
Qed.

(** The record [loadCSV] returns, row by row. *)
Lemma loadCSV_rows (text : string) :
  let idx := fromEntries (csv_headers text) in
  let rows := csv_rows Number text in
  loadCSV Number text =
  {| t := map (fun r => cell r (idx "t")) rows;
     pos := map (fun r => [cell r (idx "x"); cell r (idx "y"); cell r (idx "z")]) rows;
     vel := map (fun r => [cell r (idx "vx"); cell r (idx "vy"); cell r (idx "vz")]) rows;
     quat := map (fun r => [cell r (idx "qw"); cell r (idx "qx");
                            cell r (idx "qy"); cell r (idx "qz")]) rows;
     omega := map (fun r => [cell r (idx "omx"); cell r (idx "omy"); cell r (idx "omz")]) rows;
     fuel := match idx "fuel" with
             | Some _ => map (fun r => cell r (idx "fuel")) rows
             | None => repeat (Num NaN) (List.length rows)
             end;
     euler := None |}.
Proof.
  unfold loadCSV. cbv beta zeta. rewrite !length_map.
  f_equal;
    match goal with
    | |- _ = map ?f ?rows => exact (each_row f rows)
    end.
Qed.

Lemma component_map {A : Type} (f : A -> list (value num)) (l : list A) (k i : nat) (d : A) :
  (i < List.length l)%nat -> component (map f l) k i = Some (at_ (f (nth i l d)) k).
Proof.
  intros H. unfold component. rewrite nth_error_map.
  rewrite (nth_error_nth' l d H). reflexivity.
Qed.

Lemma nth_error_map_nth {A B : Type} (f : A -> B) (l : list A) (i : nat) (d : A) :
  (i < List.length l)%nat -> nth_error (map f l) i = Some (f (nth i l d)).
Proof. intros H. rewrite nth_error_map, (nth_error_nth' l d H). reflexivity. Qed.

(** Every logical column of the record [loadCSV] returns holds, at every
    row, the file's cell for it; except [fuel] when the header has none,
    which holds NaN. *)
Lemma loadCSV_channel (text name : string) (i : nat) :
  known_column name -> (i < List.length (csv_rows Number text))%nat ->
  channel (loadCSV Number text) name i =
  Some (if (name =? "fuel") && negb (has_header text name)
        then Num NaN else csv_cell Number text name i).
Proof.
  intros Hk Hi. rewrite loadCSV_rows. cbv zeta. unfold csv_cell, has_header.
  assert (Hfuel : existsb (String.eqb "fuel") (csv_headers text) = false ->
                  fromEntries (csv_headers text) "fuel" = None).
  { intros E. apply fromEntries_absent. intros Hin.
    assert (existsb (String.eqb "fuel") (csv_headers text) = true); [| congruence].
    apply existsb_exists. exists "fuel". split; [exact Hin | apply String.eqb_refl]. }
  assert (Hfuel' : existsb (String.eqb "fuel") (csv_headers text) = true ->
                   exists j, fromEntries (csv_headers text) "fuel" = Some j).
  { intros E. apply existsb_exists in E. destruct E as (h & Hin & Eh).
    apply String.eqb_eq in Eh. subst h.
    destruct (@lookup_from_present 0 _ _ Hin) as (j & Hj & _). exists j. exact Hj. }
  assert (Hcases : In name (required_columns ++ ["omx"; "omy"; "omz"]) \/ name = "fuel").
  { destruct Hk as [Hk | Hk]; [left; apply in_or_app; left; exact Hk |].
    cbn in Hk. cbn. intuition auto 20. }
  destruct Hcases as [Hin | ->].
  - cbn in Hin.
    repeat (destruct Hin as [<- | Hin];
            [ unfold channel; cbn [String.eqb Ascii.eqb Bool.eqb andb negb];
              cbn [t pos vel quat omega fuel];
              first [ rewrite (@component_map _ _ _ _ _ [] Hi); reflexivity
                    | rewrite (@nth_error_map_nth _ _ _ _ _ [] Hi); reflexivity ]
            | ]).
    contradiction.
  - unfold channel; cbn [String.eqb Ascii.eqb Bool.eqb andb negb].
    cbn [fuel].
    destruct (existsb _ _) eqn:E; cbn [negb].
    + destruct (Hfuel' eq_refl) as (j & ->).
      rewrite (@nth_error_map_nth _ _ _ _ _ [] Hi). reflexivity.
    + rewrite (Hfuel eq_refl). rewrite nth_error_repeat by exact Hi. reflexivity.
Qed.

Lemma has_header_false (text name : string) :
  has_header text name = false -> fromEntries (csv_headers text) name = None.
Proof.
  intros E. apply fromEntries_absent. intros Hin.
  assert (has_header text name = true); [| congruence].
  apply existsb_exists. exists name. split; [exact Hin | apply String.eqb_refl].
Qed.

Lemma has_field_false (table : @Table num) (name : string) :
  has_field table name = false -> getCol table name = [].
Proof.
  unfold has_field, getCol. induction table as [| f fs IH]; cbn; [reflexivity |].
  destruct (fst f =? name); cbn; [discriminate | exact IH].
Qed.

Lemma at_nth_error (l : list (value num)) (i : nat) :
  (i < List.length l)%nat -> nth_error l i = Some (at_ l i).
Proof.
  intros H. unfold at_. destruct (nth_error l i) eqn:E; [reflexivity |].
  apply nth_error_None in E. lia.
Qed.

Lemma component_seq (f : nat -> list (value num)) (n k i : nat) :
  (i < n)%nat -> component (map f (List.seq 0 n)) k i = Some (at_ (f i) k).
Proof.
  intros H. unfold component. rewrite nth_error_map, nth_error_seq.
  destruct (Nat.ltb_spec i n); [reflexivity | lia].
Qed.

(** Every logical column of the record [loadParquet] returns holds, at
    every row below the length of the time column, the table's cell for
    it; [fuel] with NaN in place of a missing cell. *)
Lemma loadParquet_channel (table : @Table num) (name : string) (i : nat) :
  known_column name -> (i < List.length (getCol table "t"))%nat ->
  channel (loadParquet table) name i =
  Some (if name =? "fuel" then orNaN (table_cell table name i)
        else table_cell table name i).
Proof.
  intros Hk Hi. unfold table_cell.
  assert (Hcases : In name (required_columns ++ optional_columns)).
  { apply in_or_app. exact Hk. }
  cbn in Hcases.
  repeat (destruct Hcases as [<- | Hcases];
          [ unfold channel, loadParquet; cbn [String.eqb Ascii.eqb Bool.eqb];
            cbn [t pos vel quat omega fuel];
            first [ apply at_nth_error; exact Hi
                  | rewrite (@component_seq _ _ _ _ Hi); reflexivity
                  | rewrite nth_error_map, nth_error_seq;
                    destruct (Nat.ltb_spec i (List.length (getCol table "t")));
                    [reflexivity | lia] ]
          | ]).
  contradiction.
Qed.

Lemma loadCSV_aligned (text : string) :
  aligned (loadCSV Number text) (List.length (csv_rows Number text)).
Proof.
  rewrite loadCSV_rows. cbv zeta. unfold aligned. cbn [t pos vel quat omega fuel].
  rewrite !length_map. repeat split.
  destruct (fromEntries _ _); [apply length_map | apply repeat_length].
Qed.

Lemma loadParquet_aligned (table : @Table num) :
  aligned (loadParquet table) (List.length (getCol table "t")).
Proof.
  unfold aligned, loadParquet. cbn [t pos vel quat omega fuel].
  rewrite !length_map, !length_seq. repeat split.
Qed.

(** A column the header does not name reads [undefined] in every row. *)
Lemma csv_cell_absent (text name : string) (i : nat) :
  has_header text name = false -> csv_cell Number text name i = Undefined.
Proof. intros H. unfold csv_cell. rewrite (has_header_false _ _ H). reflexivity. Qed.

(** A column the header names reads as a number in every row long enough
    to have a cell for it. *)
Lemma csv_cell_present (text name : string) (i j : nat) :
  fromEntries (csv_headers text) name = Some j ->
  (j < List.length (nth i (csv_rows Number text) []))%nat ->
  exists n, csv_cell Number text name i = Num n.
Proof.
  intros Hj Hlen. unfold csv_cell. rewrite Hj. cbn.
  destruct (nth_error _ j) as [n |] eqn:E; [eauto |].
  apply nth_error_None in E. lia.
Qed.

Lemma table_cell_absent (table : @Table num) (name : string) (i : nat) :
  has_field table name = false -> table_cell table name i = Undefined.
Proof.
  intros H. unfold table_cell. rewrite (has_field_false _ _ H).
  unfold at_. destruct i; reflexivity.
Qed.
End LoaderFacts.

(** ** main.js: [quatToEuler] and the rotation it stands for *)

Section Polar.
Local Open Scope R_scope.

Lemma sqrt_one_plus_sq (y x r : R) :
  0 < r -> x <> 0 -> x * x + y * y = r * r -> sqrt (1 + (y / x)²) = r / Rabs x.
Proof.
  intros Hr Hx E.
  assert (Hax : 0 < Rabs x) by (apply Rabs_pos_lt; exact Hx).
  apply sqrt_lem_1.
  - unfold Rsqr. nra.
  - apply Rlt_le, Rdiv_lt_0_compat; assumption.
  - unfold Rsqr.
    assert (Rabs x * Rabs x = x * x).
    { unfold Rabs. destruct (Rcase_abs x); ring. }
    field_simplify_eq; [| split; lra]. nra.
Qed.

(** [Math.atan2(y, x)] is the polar angle of the point (x, y). *)
Lemma atan2R_polar (y x r : R) :
  0 < r -> x * x + y * y = r * r ->
  cos (Exact.atan2R y x) = x / r /\ sin (Exact.atan2R y x) = y / r.
Proof.
  intros Hr E. unfold Exact.atan2R.
  destruct (Rlt_dec 0 x) as [Hx | Hx].
  - rewrite cos_atan, sin_atan, (@sqrt_one_plus_sq y x r) by lra.
    rewrite Rabs_right by lra. split; field; lra.
  - destruct (Rlt_dec x 0) as [Hx' | Hx'].
    + assert (S : sqrt (1 + (y / x)²) = r / Rabs x) by (apply sqrt_one_plus_sq; lra).
      rewrite Rabs_left in S by lra.
      destruct (Rle_dec 0 y).
      * rewrite neg_cos, neg_sin, cos_atan, sin_atan, S. split; field; lra.
      * unfold Rminus.
        replace (atan (y / x) + - PI) with (- (- atan (y / x) + PI)) by ring.
        rewrite cos_neg, sin_neg, neg_cos, neg_sin, cos_neg, sin_neg, cos_atan, sin_atan, S.
        split; field; lra.
    + assert (x = 0) by lra. subst x.
      assert (Hy : y * y = r * r) by lra.
      destruct (Rlt_dec 0 y).
      * rewrite cos_PI2, sin_PI2. assert (y = r) by nra. subst. split; field; lra.
      * destruct (Rlt_dec y 0).
        -- rewrite cos_neg, sin_neg, cos_PI2, sin_PI2. assert (y = - r) by nra.
           subst. split; field; lra.
        -- assert (y = 0) by lra. subst. nra.
Qed.
End Polar.

Section RoundTrip.
Import ExactFacts.
Local Open Scope R_scope.

Variables w x y z : R.
Hypothesis unit_norm : w * w + x * x + y * y + z * z = 1.

(** The entries of the rotation matrix that [quatToEuler] reads. *)
Let a := 1 + - (2 * (y * y + z * z)).
Let b := 2 * (w * z + x * y).
Let c := 2 * (w * x + y * z).
Let e := 1 + - (2 * (x * x + y * y)).
Let s := 2 * (w * y + - (z * x)).







Hypothesis inside : Rabs s < 1.






End RoundTrip.

(** *** At gimbal lock *)

Section Lock.
Import ExactFacts.
Local Open Scope R_scope.

Variables w x y z : R.
Hypothesis unit_norm : w * w + x * x + y * y + z * z = 1.




End Lock.

Section GimbalLock.
Import ExactFacts.
Local Open Scope R_scope.




End GimbalLock.





(** ** threeview.js: the heading of [updateNavball] *)

Section Heading.
Import ExactFacts.
Local Open Scope R_scope.

Lemma floor_spec (r : R) : IZR (Exact.floor r) <= r < IZR (Exact.floor r) + 1.
Proof.
  unfold Exact.floor. rewrite minus_IZR.
  destruct (archimed r) as [H1 H2]. lra.
Qed.

Lemma floor_IZR (n : Z) (r : R) : IZR n <= r < IZR n + 1 -> Exact.floor r = n.
Proof.
  intros H. unfold Exact.floor.
  assert (E : (n + 1)%Z = up r).
  { apply tech_up; rewrite plus_IZR; lra. }
  rewrite <- E. lia.
Qed.

Lemma trunc_nonneg (r : R) : 0 <= r -> Exact.trunc r = Exact.floor r.
Proof.
  intros H. unfold Exact.trunc. destruct (Rle_dec 0 r); [reflexivity | contradiction].
Qed.

Lemma atan_nonpos (r : R) : r <= 0 -> atan r <= 0.
Proof.
  intros [H | ->].
  - apply Rlt_le. rewrite <- atan_0. apply atan_increasing. exact H.
  - rewrite atan_0. lra.
Qed.

Lemma atan_pos (r : R) : 0 < r -> 0 < atan r.
Proof. intros H. rewrite <- atan_0. apply atan_increasing. exact H. Qed.

(** [Math.atan2] answers in (-PI, PI]. *)
Lemma atan2R_range (y x : R) : - PI < Exact.atan2R y x <= PI.
Proof.
  pose proof PI_RGT_0 as HP. unfold Exact.atan2R.
  destruct (Rlt_dec 0 x) as [Hx | Hx].
  - pose proof (atan_bound (y / x)). lra.
  - destruct (Rlt_dec x 0) as [Hx' | Hx'].
    + pose proof (atan_bound (y / x)) as B.
      destruct (Rle_dec 0 y) as [Hy | Hy].
      * assert (atan (y / x) <= 0).
        { apply atan_nonpos. unfold Rdiv.
          assert (/ x < 0) by (apply Rinv_lt_0_compat; exact Hx'). nra. }
        lra.
      * assert (0 < atan (y / x)).
        { apply atan_pos. unfold Rdiv.
          assert (/ x < 0) by (apply Rinv_lt_0_compat; exact Hx'). nra. }
        lra.
    + destruct (Rlt_dec 0 y); [lra |]. destruct (Rlt_dec y 0); lra.
Qed.

(** [(a * 180 / Math.PI + 360) % 360] for an angle in (-PI, PI]: the same
    direction, in degrees, in [0, 360). *)
Lemma degrees_normalized (a : R) :
  - PI < a <= PI ->
  let d := a * 180 / PI + 360 in
  let h := d - 360 * IZR (Exact.trunc (d / 360)) in
  0 <= h < 360 /\ sin (h * PI / 180) = sin a /\ cos (h * PI / 180) = cos a.
Proof.
  intros Ha d h. pose proof PI_RGT_0 as HP.
  assert (Hd : 180 < d <= 540).
  { subst d. set (u := a / PI).
    assert (Hu : a = u * PI) by (subst u; field; lra).
    replace (a * 180 / PI) with (u * 180) by (subst u; field; lra).
    assert (-1 < u <= 1) by nra. lra. }
  assert (Ht : Exact.trunc (d / 360) = Exact.floor (d / 360)) by (apply trunc_nonneg; lra).
  subst h. rewrite Ht.
  pose proof (floor_spec (d / 360)) as F.
  set (k := Exact.floor (d / 360)) in *.
  split; [lra |].
  assert (Hk : (k = 0 \/ k = 1)%Z).
  { assert (L : -1 < IZR k) by lra. assert (U : IZR k < 2) by lra.
    apply lt_IZR in L, U. lia. }
  destruct Hk as [-> | ->].
  - replace ((d - 360 * 0) * PI / 180) with (a + 2 * PI) by (subst d; field; lra).
    rewrite sin_plus, cos_plus, sin_2PI, cos_2PI. split; ring.
  - replace ((d - 360 * 1) * PI / 180) with a by (subst d; field; lra).
    split; reflexivity.
Qed.

(** [normalize] leaves a unit quaternion of real components as it is. *)
Lemma vehicleQ_unit (w x y z : R) :
  w * w + x * x + y * y + z * z = 1 ->
  vehicleQ (exact_quat w x y z) = exact_Q4 w x y z.
Proof.
  intros Hu. unfold vehicleQ, normalize, quat_length, exact_quat, exact_Q4. cbn.
  rewrite Rltb_false by nra.
  replace (x * x + y * y + z * z + w * w) with 1 by lra.
  rewrite sqrt_1. cbn. rewrite Reqb_false by lra. cbn.
  f_equal; f_equal; field.
Qed.

(** The rocket's axis (0, 0, 1) turned by a unit quaternion: the third
    column of its rotation matrix. *)
Lemma forwardWorld_unit (w x y z : R) :
  w * w + x * x + y * y + z * z = 1 ->
  forwardWorld (exact_quat w x y z)
  = inject (mkV3 (2 * (x * z + w * y)) (2 * (y * z - w * x)) (1 - 2 * (x * x + y * y))).
Proof.
  intros Hu. unfold forwardWorld. rewrite (vehicleQ_unit Hu).
  unfold applyQuaternion, exact_Q4, inject. cbn. f_equal; f_equal; ring.
Qed.

(** The heading shown for a forward axis of real components. *)
Lemma heading_of_axis (q : list (value Exact.xnum)) (fx fy fz : R) :
  forwardWorld q = inject (mkV3 fx fy fz) ->
  (sqrt (fx * fx + fz * fz) <= 1 / 100 -> heading q = None) /\
  (1 / 100 < sqrt (fx * fx + fz * fz) ->
   exists h : R,
     0 <= h < 360 /\
     fx = sqrt (fx * fx + fz * fz) * sin (h * PI / 180) /\
     fz = sqrt (fx * fx + fz * fz) * cos (h * PI / 180) /\
     heading q = Some (Math_round (Exact.XFin h))).
Proof.
  intros F.
  unfold heading, heading_proj, heading_deg. rewrite F.
  unfold inject, gt, lit. cbn.
  rewrite (@ExactFacts.Reqb_false 100 0) by lra. cbn.
  split.
  - intros H. rewrite ExactFacts.Rltb_false by lra. reflexivity.
  - intros H. rewrite ExactFacts.Rltb_true by lra.
    pose proof PI_RGT_0 as HP.
    rewrite (@ExactFacts.Reqb_false PI 0) by lra. cbn.
    rewrite (@ExactFacts.Reqb_false 360 0) by lra.
    set (r := sqrt (fx * fx + fz * fz)) in *.
    assert (Hr : (0 < r)%R) by lra.
    assert (E : (fz * fz + fx * fx = r * r)%R).
    { subst r. rewrite sqrt_sqrt; [ring | nra]. }
    destruct (@atan2R_polar fx fz r Hr E) as [C S].
    destruct (@degrees_normalized _ (atan2R_range fx fz)) as (R1 & R2 & R3).
    eexists. split; [exact R1 |]. rewrite R2, R3, C, S.
    split; [field; lra |]. split; [field; lra |]. reflexivity.
Qed.

(** The rocket as it stands on the pad, the identity orientation: its
    forward axis is (0, 0, 1), straight up in the scene, and the heading
    shown is 0. *)
Lemma forward_upright : forwardWorld (exact_quat 1 0 0 0) = inject (mkV3 0 0 1).
Proof.
  rewrite forwardWorld_unit by lra. unfold inject. cbn. f_equal; f_equal; lra.
Qed.

Lemma heading_upright : heading (exact_quat 1 0 0 0) = Some (Exact.XFin 0).
Proof.
  unfold heading, heading_proj, heading_deg. rewrite forward_upright.
  unfold inject, gt, lit. cbn.
  rewrite (@ExactFacts.Reqb_false 100 0) by lra. cbn.
  replace (0 * 0 + 1 * 1)%R with 1%R by ring. rewrite sqrt_1.
  rewrite ExactFacts.Rltb_true by lra.
  pose proof PI_RGT_0 as HP.
  rewrite (@ExactFacts.Reqb_false PI 0) by lra. cbn.
  rewrite (@ExactFacts.Reqb_false 360 0) by lra.
  assert (A : Exact.atan2R 0 1 = 0%R).
  { unfold Exact.atan2R. destruct (Rlt_dec 0 1); [| lra].
    replace (0 / 1)%R with 0%R by field. apply atan_0. }
  rewrite A.
  replace (0 * 180 / PI + 360)%R with 360%R by (field; lra).
  replace (360 / 360)%R with 1%R by field.
  rewrite trunc_nonneg by lra.
  rewrite (@floor_IZR 1 1) by lra.
  unfold Exact.round.
  replace (360 - 360 * 1 + / 2)%R with (/ 2)%R by ring.
  rewrite (@floor_IZR 0 (/ 2)) by lra. reflexivity.
Qed.

(** A quarter turn about x (given unnormalized, as (1, 1, 0, 0)) lays the
    forward axis along -Y, level with the ground: nothing of it is left in
    the XZ plane and no heading is shown. *)
Lemma forward_along_y : forwardWorld (exact_quat 1 1 0 0) = inject (mkV3 0 (-1) 0).
Proof.
  assert (S2 : (sqrt 2 * sqrt 2 = 2)%R) by (apply sqrt_sqrt; lra).
  assert (S0 : sqrt 2 <> 0%R) by nra.
  unfold forwardWorld, vehicleQ, normalize, quat_length, exact_quat. cbn.
  rewrite ExactFacts.Rltb_false by lra.
  replace (1 * 1 + 0 * 0 + 0 * 0 + 1 * 1)%R with 2%R by ring.
  cbn. rewrite ExactFacts.Reqb_false by exact S0. cbn.
  unfold applyQuaternion, inject. cbn.
  f_equal; f_equal.
  - field. exact S0.
  - field_simplify_eq; [nra | exact S0].
  - field_simplify_eq; [nra | exact S0].
Qed.

Lemma heading_along_y : heading (exact_quat 1 1 0 0) = None.
Proof.
  unfold heading, heading_proj. rewrite forward_along_y.
  unfold inject, gt, lit. cbn.
  rewrite (@ExactFacts.Reqb_false 100 0) by lra. cbn.
  replace (0 * 0 + 0 * 0)%R with 0%R by ring. rewrite sqrt_0.
  rewrite ExactFacts.Rltb_false by lra. reflexivity.
Qed.
End Heading.

(** C8.  The heading at two orientations, in the scene's frame, which
    has z up and the xy plane as the ground.  For the identity quaternion
    the rocket stands upright: its forward axis is (0, 0, 1), vertical, and
    the heading shown is the number 0 ('HDG 000') instead of 'HDG ---'.
    For a quarter turn about x the forward axis is (0, -1, 0), level with
    the ground, and no heading is shown.  The projection [updateNavball]
    takes is onto the XZ plane, which contains the vertical. *)
Theorem heading_of_upright_rocket :
  forwardWorld (exact_quat 1 0 0 0) = inject (mkV3 0 0 1)%R /\
  heading (exact_quat 1 0 0 0) = Some (Exact.XFin 0) /\
  forwardWorld (exact_quat 1 1 0 0) = inject (mkV3 0 (-1) 0)%R /\
  heading (exact_quat 1 1 0 0) = None.
Proof.
  split; [exact forward_upright |].
  split; [exact heading_upright |].
  split; [exact forward_along_y | exact heading_along_y].
Qed.

(** X24.  In exact arithmetic, for every unit quaternion (w, x, y, z), let
    (fx, fy, fz) be the rocket's axis (0, 0, 1) turned by it, the third
    column of its rotation matrix, and p = sqrt (fx^2 + fz^2) the length
    of that axis's projection onto the world XZ plane.  If p <= 1/100 no
    heading is shown ('HDG ---').  If p > 1/100 the heading is the angle
    h, in degrees and in [0, 360), of that projection measured from the
    +Z axis towards +X (fx = p sin h, fz = p cos h), and the text shows h
    rounded to a whole degree. *)
Theorem heading_in_the_xz_plane (w x y z : R) :
  (w * w + x * x + y * y + z * z = 1)%R ->
  let fx := (2 * (x * z + w * y))%R in
  let fy := (2 * (y * z - w * x))%R in
  let fz := (1 - 2 * (x * x + y * y))%R in
  let p := sqrt (fx * fx + fz * fz) in
  forwardWorld (exact_quat w x y z) = inject (mkV3 fx fy fz) /\
  (p <= 1 / 100 -> heading (exact_quat w x y z) = None)%R /\
  (1 / 100 < p ->
   exists h : R,
     0 <= h < 360 /\ fx = p * sin (h * PI / 180) /\ fz = p * cos (h * PI / 180) /\
     heading (exact_quat w x y z) = Some (Math_round (Exact.XFin h)))%R.
Proof.
  intros Hu fx fy fz p.
  pose proof (forwardWorld_unit Hu) as F. fold fx fy fz in F.
  split; [exact F |]. exact (heading_of_axis F).
Qed.

(** The theorem at the third of a turn about the diagonal (1, 1, 1),
    (1/2, 1/2, 1/2, 1/2): the forward axis comes to lie along +X and a
    heading is shown. *)
Lemma heading_in_the_xz_plane_witness :
  forwardWorld (exact_quat (1 / 2) (1 / 2) (1 / 2) (1 / 2))
  = inject (mkV3 (2 * (1 / 2 * (1 / 2) + 1 / 2 * (1 / 2)))
                 (2 * (1 / 2 * (1 / 2) - 1 / 2 * (1 / 2)))
                 (1 - 2 * (1 / 2 * (1 / 2) + 1 / 2 * (1 / 2))))%R /\
  exists h : R,
    (0 <= h < 360)%R /\
    heading (exact_quat (1 / 2) (1 / 2) (1 / 2) (1 / 2)) = Some (Math_round (Exact.XFin h)).
Proof.
  assert (Hu : (1 / 2 * (1 / 2) + 1 / 2 * (1 / 2) + 1 / 2 * (1 / 2) + 1 / 2 * (1 / 2) = 1)%R)
    by lra.
  destruct (@heading_in_the_xz_plane (1 / 2) (1 / 2) (1 / 2) (1 / 2) Hu) as (F & _ & H).
  split; [exact F |].
  destruct H as (h & Hh & _ & _ & E).
  - match goal with
    | |- (_ < sqrt ?a)%R => replace a with 1%R by lra
    end.
    rewrite sqrt_1. lra.
  - exists h. split; [exact Hh | exact E].
Defined.

(* ================================================================= *)
(** * Further properties *)

(** ** plots.js: the extent, the two scales, and a short series *)

Section ExtentBounds.
Import Exact ExactFacts.
Local Open Scope R_scope.

Lemma fold_extent_seen (arr : list (value xnum)) (lo hi : R) :
  (forall s, ~ In (Num (XInf s)) arr) -> lo <= hi ->
  exists lo' hi' : R,
    fold_left extent_step arr (XFin lo, XFin hi) = (XFin lo', XFin hi') /\
    lo' <= lo /\ hi <= hi' /\
    (lo' = lo \/ In (Num (XFin lo')) arr) /\
    (hi' = hi \/ In (Num (XFin hi')) arr) /\
    forall v, In (Num (XFin v)) arr -> lo' <= v <= hi'.
Proof.
  revert lo hi. induction arr as [| u arr IH]; intros lo hi Hinf Hle.
  - exists lo, hi. cbn. repeat split; auto; try lra; intros v [].
  - assert (Hinf' : forall s, ~ In (Num (XInf s)) arr).
    { intros s H. apply (Hinf s). right. exact H. }
    destruct u as [| [| s | r]].
    + destruct (IH lo hi Hinf' Hle) as (lo' & hi' & E & H1 & H2 & H3 & H4 & H5).
      exists lo', hi'. cbn. split; [exact E |]. repeat split; auto.
      * destruct H3; [left | right; right]; assumption.
      * destruct H4; [left | right; right]; assumption.
      * destruct H as [H | H]; [discriminate | apply H5, H].
      * destruct H as [H | H]; [discriminate | apply H5, H].
    + destruct (IH lo hi Hinf' Hle) as (lo' & hi' & E & H1 & H2 & H3 & H4 & H5).
      exists lo', hi'. cbn. split; [exact E |]. repeat split; auto.
      * destruct H3; [left | right; right]; assumption.
      * destruct H4; [left | right; right]; assumption.
      * destruct H as [H | H]; [discriminate | apply H5, H].
      * destruct H as [H | H]; [discriminate | apply H5, H].
    + exfalso. apply (Hinf s). left. reflexivity.
    + cbn [fold_left]. unfold extent_step at 2. cbn. unfold gt. cbn.
      destruct (Rlt_dec r lo) as [Hlo | Hlo];
        [rewrite (@Rltb_true r lo) by lra | rewrite (@Rltb_false r lo) by lra];
        (destruct (Rlt_dec hi r) as [Hhi | Hhi];
         [rewrite (@Rltb_true hi r) by lra | rewrite (@Rltb_false hi r) by lra]).
      * lra.
      * destruct (IH r hi Hinf' ltac:(lra)) as (lo' & hi' & E & H1 & H2 & H3 & H4 & H5).
        exists lo', hi'. split; [exact E |]. repeat split; try lra.
        -- destruct H3 as [-> | H3]; right; [left; reflexivity | right; exact H3].
        -- destruct H4; [left | right; right]; assumption.
        -- destruct H as [H | H]; [inversion H; subst; lra | apply H5, H].
        -- destruct H as [H | H]; [inversion H; subst; lra | apply H5, H].
      * destruct (IH lo r Hinf' ltac:(lra)) as (lo' & hi' & E & H1 & H2 & H3 & H4 & H5).
        exists lo', hi'. split; [exact E |]. repeat split; try lra.
        -- destruct H3; [left | right; right]; assumption.
        -- destruct H4 as [-> | H4]; right; [left; reflexivity | right; exact H4].
        -- destruct H as [H | H]; [inversion H; subst; lra | apply H5, H].
        -- destruct H as [H | H]; [inversion H; subst; lra | apply H5, H].
      * destruct (IH lo hi Hinf' Hle) as (lo' & hi' & E & H1 & H2 & H3 & H4 & H5).
        exists lo', hi'. split; [exact E |]. repeat split; try lra.
        -- destruct H3; [left | right; right]; assumption.
        -- destruct H4; [left | right; right]; assumption.
        -- destruct H as [H | H]; [inversion H; subst; lra | apply H5, H].
        -- destruct H as [H | H]; [inversion H; subst; lra | apply H5, H].
Qed.

Lemma fold_extent_fresh (arr : list (value xnum)) (v0 : R) :
  (forall s, ~ In (Num (XInf s)) arr) -> In (Num (XFin v0)) arr ->
  exists lo hi : R,
    fold_left extent_step arr (XInf false, XInf true) = (XFin lo, XFin hi) /\
    In (Num (XFin lo)) arr /\ In (Num (XFin hi)) arr /\
    forall v, In (Num (XFin v)) arr -> lo <= v <= hi.
Proof.
  induction arr as [| u arr IH]; intros Hinf Hin; [destruct Hin |].
  assert (Hinf' : forall s, ~ In (Num (XInf s)) arr).
  { intros s H. apply (Hinf s). right. exact H. }
  destruct u as [| [| s | r]].
  - destruct Hin as [H | Hin]; [discriminate |].
    destruct (IH Hinf' Hin) as (lo & hi & E & H1 & H2 & H3).
    exists lo, hi. cbn. split; [exact E |]. repeat split; try (right; assumption).
    + destruct H as [H | H]; [discriminate | apply H3, H].
    + destruct H as [H | H]; [discriminate | apply H3, H].
  - destruct Hin as [H | Hin]; [discriminate |].
    destruct (IH Hinf' Hin) as (lo & hi & E & H1 & H2 & H3).
    exists lo, hi. cbn. split; [exact E |]. repeat split; try (right; assumption).
    + destruct H as [H | H]; [discriminate | apply H3, H].
    + destruct H as [H | H]; [discriminate | apply H3, H].
  - exfalso. apply (Hinf s). left. reflexivity.
  - cbn [fold_left].
    destruct (@fold_extent_seen arr r r Hinf' ltac:(lra))
      as (lo & hi & E & H1 & H2 & H3 & H4 & H5).
    exists lo, hi. split; [exact E |]. repeat split.
    + destruct H3 as [-> | H3]; [left; reflexivity | right; exact H3].
    + destruct H4 as [-> | H4]; [left; reflexivity | right; exact H4].
    + destruct H as [H | H]; [inversion H; subst; lra | apply H5, H].
    + destruct H as [H | H]; [inversion H; subst; lra | apply H5, H].
Qed.

(** What [extent] returns for an array that holds a number and no
    infinity. *)
Lemma extent_found (arr : list (value xnum)) (v0 : R) :
  (forall s, ~ In (Num (XInf s)) arr) -> In (Num (XFin v0)) arr ->
  exists lo hi : R,
    In (Num (XFin lo)) arr /\ In (Num (XFin hi)) arr /\
    (forall v, In (Num (XFin v)) arr -> lo <= v <= hi) /\
    extent arr = (if Reqb lo hi then (XFin (lo - 1), XFin (hi + 1))
                  else (XFin lo, XFin hi)).
Proof.
  intros Hinf Hin.
  destruct (@fold_extent_fresh arr v0 Hinf Hin) as (lo & hi & E & H1 & H2 & H3).
  exists lo, hi. repeat split; auto; try apply H3; auto.
  unfold extent. rewrite extent_loop_exact, E. cbn.
  destruct (Reqb lo hi); reflexivity.
Qed.

(** X1.  In exact arithmetic, for an array that holds at least one number
    and no infinity (entries that are [undefined] or NaN are skipped by
    the comparisons), [extent] finds the least and the greatest number of
    the array: both occur in it and every number of it lies between them.
    It returns them as they are, or one below and one above when they
    coincide. *)
Theorem extent_is_min_max (arr : list (value xnum)) (v0 : R) :
  (forall s, ~ In (Num (XInf s)) arr) -> In (Num (XFin v0)) arr ->
  exists lo hi : R,
    In (Num (XFin lo)) arr /\ In (Num (XFin hi)) arr /\
    (forall v, In (Num (XFin v)) arr -> lo <= v <= hi) /\
    extent arr = (if Reqb lo hi then (XFin (lo - 1), XFin (hi + 1))
                  else (XFin lo, XFin hi)).
Proof. apply extent_found. Qed.

Lemma extent_is_min_max_witness :
  exists lo hi : R,
    In (Num (XFin lo)) [Num (XFin 3); Undefined; Num (XFin 1)] /\
    In (Num (XFin hi)) [Num (XFin 3); Undefined; Num (XFin 1)] /\
    (forall v, In (Num (XFin v)) [Num (XFin 3); Undefined; Num (XFin 1)] -> lo <= v <= hi) /\
    extent [Num (XFin 3); Undefined; Num (XFin 1)]
    = (if Reqb lo hi then (XFin (lo - 1), XFin (hi + 1)) else (XFin lo, XFin hi)).
Proof.
  apply (@extent_is_min_max [Num (XFin 3); Undefined; Num (XFin 1)] 3).
  - intros s [H | [H | [H | []]]]; discriminate.
  - left. reflexivity.
Defined.
End ExtentBounds.

Section PlotBox.
Import Exact ExactFacts.
Local Open Scope R_scope.

Lemma plot_y_exact (ymin ymax ih v : R) (n : nat) :
  ymin < ymax ->
  plot_y (mkPlot (XFin ymin) (XFin ymax) (XFin 8) (XFin ih) n) (XFin v)
  = XFin (8 + ih + - ((v + - ymin) / (ymax + - ymin) * ih)).
Proof.
  intros H. unfold plot_y. cbn. rewrite Reqb_false by lra. reflexivity.
Qed.

(** [el.clientHeight || 220] is the height when that is not 0. *)
Lemma or_else_exact (H : R) (d : xnum) : H <> 0 -> or_else (XFin H) d = XFin H.
Proof.
  intros HH. unfold or_else, isNaN. cbn.
  rewrite Reqb_false by exact HH. rewrite Reqb_true by reflexivity. reflexivity.
Qed.

Lemma drawLines_exact (H : R) (n : nat) (series3 : list (list (value xnum)))
      (f : list (value xnum)) :
  H <> 0 ->
  flat n series3 = Returned f ->
  exists ymin ymax : R,
    yrange f = (XFin ymin, XFin ymax) /\ ymin < ymax /\
    drawLines (XFin H) n series3
    = Returned (mkPlot (XFin ymin) (XFin ymax) (XFin 8) (XFin (H + - 8 + - 20)) n).
Proof.
  intros HH Hf.
  destruct (extent_ordered f) as (a & b & E & Hab).
  exists (a + - (5 / 100 * (b + - a))), (b + 5 / 100 * (b + - a)).
  assert (Y : yrange f = (XFin (a + - (5 / 100 * (b + - a))), XFin (b + 5 / 100 * (b + - a)))).
  { unfold yrange. rewrite E. rewrite pad_default_exact. reflexivity. }
  split; [exact Y |]. split; [lra |].
  unfold drawLines. rewrite Hf. cbn [bind]. rewrite Y, or_else_exact by exact HH.
  reflexivity.
Qed.

(** X2.  In exact arithmetic, on a container at least 28 pixels high
    (the two vertical margins), [drawLines] yields a vertical mapping [y]
    that turns greater values into smaller ordinates (they are drawn
    higher), and that keeps every number of the drawn channels between the
    top margin, 8, and the bottom axis, [H - 20], provided no drawn value
    is infinite. *)
Theorem drawLines_within_box (H : R) (n : nat) (series3 : list (list (value xnum)))
        (f : list (value xnum)) :
  28 <= H ->
  flat n series3 = Returned f ->
  exists p,
    drawLines (XFin H) n series3 = Returned p /\
    (forall v1 v2 : R, v1 <= v2 ->
       exists y1 y2 : R,
         plot_y p (XFin v1) = XFin y1 /\ plot_y p (XFin v2) = XFin y2 /\ y2 <= y1) /\
    ((forall s, ~ In (Num (XInf s)) f) ->
     forall v : R, In (Num (XFin v)) f ->
       exists y : R, plot_y p (XFin v) = XFin y /\ 8 <= y <= H - 20).
Proof.
  intros HH Hf.
  destruct (@drawLines_exact H n series3 f ltac:(lra) Hf) as (ymin & ymax & Y & Hlt & D).
  eexists. split; [exact D |]. split.
  - intros v1 v2 Hv.
    rewrite !plot_y_exact by exact Hlt.
    eexists _, _. split; [reflexivity |]. split; [reflexivity |].
    assert (K : 0 < / (ymax + - ymin)) by (apply Rinv_0_lt_compat; lra).
    set (k := / (ymax + - ymin)) in *.
    assert (P : 0 <= k * (H + - 8 + - 20)) by (apply Rmult_le_pos; lra).
    unfold Rdiv. fold k.
    assert (Q : 0 <= (v2 - v1) * (k * (H + - 8 + - 20))) by (apply Rmult_le_pos; lra).
    lra.
  - intros Hinf v Hin.
    rewrite plot_y_exact by exact Hlt.
    eexists. split; [reflexivity |].
    destruct (@extent_found f v Hinf Hin) as (lo & hi & _ & _ & B & E).
    specialize (B v Hin).
    unfold yrange in Y. rewrite E in Y.
    assert (Hy : ymin <= v <= ymax).
    { destruct (Reqb lo hi) eqn:Q; rewrite pad_default_exact in Y; cbn in Y;
        inversion Y; subst; clear Y.
      - lra.
      - assert (lo <> hi).
        { intros ->. rewrite Reqb_true in Q by reflexivity. discriminate. }
        lra. }
    set (d := ymax + - ymin) in *.
    assert (Hd : 0 < d) by (subst d; lra).
    assert (T : 0 <= (v + - ymin) / d <= 1).
    { split.
      - apply Rmult_le_pos; [lra | apply Rlt_le, Rinv_0_lt_compat; exact Hd].
      - apply (Rmult_le_reg_r d); [exact Hd |].
        unfold Rdiv. rewrite Rmult_assoc, Rinv_l by lra. subst d. lra. }
    nra.
Qed.

Lemma drawLines_within_box_witness :
  exists p,
    drawLines (XFin 220) 2 [[Num (XFin 1); Num (XFin 2); Num (XFin 3)];
                            [Num (XFin 4); Num (XFin 5); Num (XFin 6)]]
    = Returned p /\
    (forall v1 v2 : R, v1 <= v2 ->
       exists y1 y2 : R,
         plot_y p (XFin v1) = XFin y1 /\ plot_y p (XFin v2) = XFin y2 /\ y2 <= y1) /\
    ((forall s, ~ In (Num (XInf s))
                     [Num (XFin 1); Num (XFin 4); Num (XFin 2);
                      Num (XFin 5); Num (XFin 3); Num (XFin 6)]) ->
     forall v : R, In (Num (XFin v))
                      [Num (XFin 1); Num (XFin 4); Num (XFin 2);
                       Num (XFin 5); Num (XFin 3); Num (XFin 6)] ->
       exists y : R, plot_y p (XFin v) = XFin y /\ 8 <= y <= 220 - 20).
Proof.
  apply (@drawLines_within_box 220 2
           [[Num (XFin 1); Num (XFin 2); Num (XFin 3)];
            [Num (XFin 4); Num (XFin 5); Num (XFin 6)]]
           [Num (XFin 1); Num (XFin 4); Num (XFin 2);
            Num (XFin 5); Num (XFin 3); Num (XFin 6)]).
  - lra.
  - reflexivity.
Defined.
End PlotBox.

Section HorizontalScale.
Import ExactFacts.
Local Open Scope R_scope.

Lemma plot_x_exact (W i : R) (n : nat) :
  (2 <= n)%nat ->
  plot_x (Exact.XFin W) n (Exact.XFin i)
  = Exact.XFin (36 + i / IZR (Z.of_nat n - 1) * (W + - 36 + - 12)).
Proof.
  intros Hn. unfold plot_x, plot_iw. cbn.
  assert (1 <= IZR (Z.of_nat n - 1)) by (apply IZR_le; lia).
  rewrite Reqb_false by lra. reflexivity.
Qed.

(** X3.  In exact arithmetic, with at least two samples on a container at
    least 48 pixels wide (the two horizontal margins), the horizontal
    mapping [x] of [drawLines] and [drawCursor] puts the first sample on
    the left axis, 36, and the last at [W - 12]; positions in between keep
    their order and lie between the two, and distinct positions get
    distinct abscissas once the container is wider than its margins. *)
Theorem plot_x_spans_the_axis (W : R) (n : nat) :
  (2 <= n)%nat -> 48 <= W ->
  plot_x (Exact.XFin W) n (Exact.XFin 0) = Exact.XFin 36 /\
  plot_x (Exact.XFin W) n (Exact.XFin (IZR (Z.of_nat n - 1))) = Exact.XFin (W - 12) /\
  forall i j : R, 0 <= i -> i <= j -> j <= IZR (Z.of_nat n - 1) ->
    exists xi xj : R,
      plot_x (Exact.XFin W) n (Exact.XFin i) = Exact.XFin xi /\
      plot_x (Exact.XFin W) n (Exact.XFin j) = Exact.XFin xj /\
      36 <= xi /\ xi <= xj /\ xj <= W - 12 /\ (48 < W -> i < j -> xi < xj).
Proof.
  intros Hn HW.
  assert (Hm : 1 <= IZR (Z.of_nat n - 1)) by (apply IZR_le; lia).
  set (m := IZR (Z.of_nat n - 1)) in *.
  repeat split.
  - rewrite plot_x_exact by exact Hn. fold m. f_equal. field. lra.
  - rewrite plot_x_exact by exact Hn. fold m. f_equal. field. lra.
  - intros i j Hi Hij Hj.
    rewrite !plot_x_exact by exact Hn. fold m.
    eexists _, _. split; [reflexivity |]. split; [reflexivity |].
    assert (K : 0 < / m) by (apply Rinv_0_lt_compat; lra).
    unfold Rdiv. set (k := / m) in *.
    assert (Km : k * m = 1) by (subst k; apply Rinv_l; lra).
    set (iw := W + - 36 + - 12) in *.
    assert (Hiw : 0 <= iw) by (subst iw; lra).
    assert (P1 : 0 <= i * k) by (apply Rmult_le_pos; lra).
    assert (P2 : i * k <= j * k) by (apply Rmult_le_compat_r; lra).
    assert (P3 : j * k <= 1).
    { rewrite <- Km. rewrite (Rmult_comm k m). apply Rmult_le_compat_r; lra. }
    repeat split.
    + assert (0 <= i * k * iw) by (apply Rmult_le_pos; lra). lra.
    + assert (i * k * iw <= j * k * iw) by (apply Rmult_le_compat_r; lra). lra.
    + assert (j * k * iw <= 1 * iw) by (apply Rmult_le_compat_r; lra). subst iw. lra.
    + intros HW' Hlt.
      assert (i * k < j * k) by (apply Rmult_lt_compat_r; lra).
      assert (i * k * iw < j * k * iw) by (apply Rmult_lt_compat_r; subst iw; lra). lra.
Qed.

Lemma plot_x_spans_the_axis_witness :
  plot_x (Exact.XFin 600) 101 (Exact.XFin 0) = Exact.XFin 36 /\
  plot_x (Exact.XFin 600) 101 (Exact.XFin (IZR (Z.of_nat 101 - 1))) = Exact.XFin (600 - 12) /\
  forall i j : R, 0 <= i -> i <= j -> j <= IZR (Z.of_nat 101 - 1) ->
    exists xi xj : R,
      plot_x (Exact.XFin 600) 101 (Exact.XFin i) = Exact.XFin xi /\
      plot_x (Exact.XFin 600) 101 (Exact.XFin j) = Exact.XFin xj /\
      36 <= xi /\ xi <= xj /\ xj <= 600 - 12 /\ (48 < 600 -> i < j -> xi < xj).
Proof.
  apply (@plot_x_spans_the_axis 600 101).
  - lia.
  - lra.
Defined.

(** X4.  On binary64, with a single sample [t.length - 1] is 0 and the
    abscissa of that sample is 0/0: whatever the width of the container,
    [x(0)] is NaN, for the one point of each curve and for the cursor. *)
Theorem plot_x_single_sample (W : B64.num) :
  plot_x W 1 (ofZ 0) = (NaN : B64.num).
Proof.
  unfold plot_x. cbn.
  replace (SFdiv B64.prec B64.emax (B64.ofZ 0) (B64.ofZ 0)) with S754_nan
    by (vm_compute; reflexivity).
  reflexivity.
Qed.
End HorizontalScale.

Section DrawLinesThrows.
Context {num : Type} {JN : JSNumber num}.

Lemma flat_component_spec (series3 : list (list (value num))) (k n a : nat) :
  fold_right
      (fun i rest =>
         match nth_error series3 i with
         | None => Thrown (TypeError "Cannot read properties of undefined")
         | Some s => bind rest (fun r => Returned (at_ s k :: r))
         end)
      (Returned []) (List.seq a n)
  = if (a + n <=? List.length series3)%nat || (n =? 0)%nat
    then Returned (map (fun i => at_ (nth i series3 []) k) (List.seq a n))
    else Thrown (TypeError "Cannot read properties of undefined").
Proof.
  revert a. induction n as [| n IH]; intros a.
  - cbn. rewrite orb_true_r. reflexivity.
  - cbn [List.seq fold_right map]. rewrite IH.
    destruct (nth_error series3 a) as [s |] eqn:E.
    + assert (Ha : (a < List.length series3)%nat) by (apply nth_error_Some; congruence).
      rewrite (nth_error_nth _ _ [] E).
      assert (C : ((S a + n <=? List.length series3)%nat || (n =? 0)%nat)
                  = ((a + S n <=? List.length series3)%nat || (S n =? 0)%nat)).
      { cbn [Nat.eqb]. rewrite orb_false_r. destruct n as [| n'].
        - cbn [Nat.eqb]. rewrite orb_true_r. symmetry. apply Nat.leb_le. lia.
        - cbn [Nat.eqb]. rewrite orb_false_r.
          replace (a + S (S n'))%nat with (S a + S n')%nat by lia. reflexivity. }
      rewrite C.
      destruct ((a + S n <=? List.length series3)%nat || (S n =? 0)%nat); reflexivity.
    + apply nth_error_None in E.
      replace (a + S n <=? List.length series3)%nat with false
        by (symmetry; apply Nat.leb_gt; lia).
      reflexivity.
Qed.

(** X5.  [drawLines] reads [series3[i]] for every [i < t.length] and no
    further: it returns a plot (of [t.length] samples) when the series has
    at least that many entries, and throws a TypeError, reading a component
    of [undefined], when the series is shorter than [t]. *)
Theorem drawLines_needs_every_sample (H : num) (n : nat)
        (series3 : list (list (value num))) :
  ((n <= List.length series3)%nat ->
   exists p, drawLines H n series3 = Returned p /\ plot_len p = n) /\
  ((List.length series3 < n)%nat ->
   drawLines H n series3 = Thrown (TypeError "Cannot read properties of undefined")).
Proof.
  unfold drawLines, flat, flat_component. rewrite !flat_component_spec.
  cbn [Nat.add].
  split; intros Hn.
  - replace (n <=? List.length series3)%nat with true
      by (symmetry; apply Nat.leb_le; lia).
    cbn [orb bind].
    destruct (yrange _) as [ymin ymax]. eexists. split; reflexivity.
  - replace (n <=? List.length series3)%nat with false
      by (symmetry; apply Nat.leb_gt; lia).
    replace (n =? 0)%nat with false by (symmetry; apply Nat.eqb_neq; lia).
    reflexivity.
Qed.
End DrawLinesThrows.

(** ** parsers.js: lines, cells and columns of a delimited text *)

Section TextFacts.
Local Open Scope string_scope.

Lemma append_assoc (a b c : string) : (a ++ b) ++ c = a ++ (b ++ c).
Proof. induction a as [| x a IH]; cbn; [reflexivity | rewrite IH; reflexivity]. Qed.

Lemma append_nil_r (a : string) : a ++ "" = a.
Proof. induction a as [| x a IH]; cbn; [reflexivity | rewrite IH; reflexivity]. Qed.

Lemma trimStart_solid (c : ascii) (s : string) :
  is_space c = false -> trimStart (String c s) = String c s.
Proof. intros H. cbn. rewrite H. reflexivity. Qed.

Lemma trimEnd_keep (a b : string) :
  trimEnd b = b -> b <> "" -> trimEnd (a ++ b) = a ++ b.
Proof.
  intros Hb Hne. induction a as [| c a IH]; cbn; [exact Hb |].
  rewrite IH. destruct (a ++ b) eqn:E; [| reflexivity].
  destruct a; cbn in E; [contradiction | discriminate].
Qed.

Lemma trimEnd_solid (s : string) (c : ascii) :
  is_space c = false -> trimEnd (s ++ String c "") = s ++ String c "".
Proof.
  intros H. apply trimEnd_keep; [cbn; rewrite H; reflexivity | discriminate].
Qed.

Lemma trimEnd_spaces (ws : string) :
  (forall c, In c (list_ascii_of_string ws) -> is_space c = true) -> trimEnd ws = "".
Proof.
  induction ws as [| c ws IH]; intros H; cbn; [reflexivity |].
  rewrite IH by (intros c' Hc; apply H; right; exact Hc).
  rewrite (H c) by (left; reflexivity). reflexivity.
Qed.

Lemma trimEnd_app_spaces (s ws : string) :
  (forall c, In c (list_ascii_of_string ws) -> is_space c = true) ->
  trimEnd (s ++ ws) = trimEnd s.
Proof.
  intros H. induction s as [| c s IH]; cbn; [apply trimEnd_spaces, H |].
  rewrite IH. reflexivity.
Qed.

Lemma without_tail (x c : ascii) (s : string) : without x (String c s) -> without x s.
Proof. intros H c' Hc. apply H. right. exact Hc. Qed.

Lemma without_head (x c : ascii) (s : string) :
  without x (String c s) -> Ascii.eqb c x = false.
Proof. intros H. apply Ascii.eqb_neq, H. left. reflexivity. Qed.

Lemma plain_tail (c : ascii) (l : string) : one_line (String c l) -> one_line l.
Proof. intros [H1 H2]. split; eapply without_tail; eassumption. Qed.

Lemma plain_head (c : ascii) (l : string) :
  one_line (String c l) -> Ascii.eqb c LF = false /\ Ascii.eqb c CR = false.
Proof. intros [H1 H2]. split; eapply without_head; eassumption. Qed.

Lemma split_lines_plain (l : string) : one_line l -> split_lines l = [l].
Proof.
  induction l as [| c l IH]; intros H; [reflexivity |].
  destruct (plain_head H) as [H1 H2]. cbn [split_lines]. rewrite H1.
  destruct l as [| c' l']; [reflexivity |].
  rewrite H2. cbn [andb]. rewrite (IH (plain_tail H)). reflexivity.
Qed.

Lemma split_lines_LF (l rest : string) :
  one_line l -> split_lines (l ++ String LF rest) = l :: split_lines rest.
Proof.
  induction l as [| c l IH]; intros H.
  - cbn. reflexivity.
  - destruct (plain_head H) as [H1 H2].
    change ((String c l ++ String LF rest)) with (String c (l ++ String LF rest)).
    cbn [split_lines]. rewrite H1.
    rewrite (IH (plain_tail H)).
    destruct l as [| c' l']; cbn [append]; rewrite H2; reflexivity.
Qed.

Lemma split_lines_CRLF (l rest : string) :
  one_line l -> split_lines (l ++ String CR (String LF rest)) = l :: split_lines rest.
Proof.
  induction l as [| c l IH]; intros H.
  - cbn. reflexivity.
  - destruct (plain_head H) as [H1 H2].
    change ((String c l ++ String CR (String LF rest)))
      with (String c (l ++ String CR (String LF rest))).
    cbn [split_lines]. rewrite H1.
    rewrite (IH (plain_tail H)).
    destruct l as [| c' l']; cbn [append]; rewrite H2; reflexivity.
Qed.

Lemma split_lines_concat (eol : string) (first : string) (rest : list string) :
  eol = LF_eol \/ eol = CRLF_eol ->
  (forall l, In l (first :: rest) -> one_line l) ->
  split_lines (concat eol (first :: rest)) = first :: rest.
Proof.
  intros He. revert first. induction rest as [| l2 rest IH]; intros first H.
  - cbn. apply split_lines_plain, H. left. reflexivity.
  - change (concat eol (first :: l2 :: rest))
      with (first ++ eol ++ concat eol (l2 :: rest)).
    assert (Hf : one_line first) by (apply H; left; reflexivity).
    assert (Hr : forall l, In l (l2 :: rest) -> one_line l)
      by (intros l Hl; apply H; right; exact Hl).
    destruct He as [-> | ->]; cbn [LF_eol CRLF_eol append].
    + rewrite (split_lines_LF _ Hf), (IH l2 Hr). reflexivity.
    + rewrite (split_lines_CRLF _ Hf), (IH l2 Hr). reflexivity.
Qed.

Lemma concat_ends (eol first : string) (rest : list string) :
  exists pre, concat eol (first :: rest) = pre ++ last (first :: rest) "".
Proof.
  revert first. induction rest as [| l2 rest IH]; intros first.
  - exists "". reflexivity.
  - destruct (IH l2) as (pre & E).
    exists (first ++ eol ++ pre).
    change (concat eol (first :: l2 :: rest))
      with (first ++ eol ++ concat eol (l2 :: rest)).
    rewrite E. change (last (first :: l2 :: rest) "") with (last (l2 :: rest) "").
    rewrite !append_assoc. reflexivity.
Qed.

Lemma concat_starts (eol : string) (c : ascii) (s : string) (rest : list string) :
  exists tail, concat eol (String c s :: rest) = String c tail.
Proof.
  destruct rest as [| l2 rest].
  - exists s. reflexivity.
  - eexists. cbn. reflexivity.
Qed.

Lemma csv_lines_joined (eol trailing first : string) (rest : list string) :
  eol = LF_eol \/ eol = CRLF_eol ->
  (forall l, In l (first :: rest) -> one_line l) ->
  (exists c s, first = String c s /\ is_space c = false) ->
  (exists s c, last (first :: rest) "" = s ++ String c "" /\ is_space c = false) ->
  (forall c, In c (list_ascii_of_string trailing) -> is_space c = true) ->
  csv_lines (concat eol (first :: rest) ++ trailing) = first :: rest.
Proof.
  intros He Hp (c & s & -> & Hc) (s' & c' & El & Hc') Hws.
  unfold csv_lines, trim.
  destruct (concat_starts eol c s rest) as (tail & Et).
  assert (T1 : trimStart (concat eol (String c s :: rest) ++ trailing)
               = concat eol (String c s :: rest) ++ trailing).
  { rewrite Et. cbn [append]. apply trimStart_solid, Hc. }
  rewrite T1, (@trimEnd_app_spaces _ _ Hws).
  destruct (concat_ends eol (String c s) rest) as (pre & Ee).
  assert (T2 : trimEnd (concat eol (String c s :: rest)) = concat eol (String c s :: rest)).
  { rewrite Ee, El, <- append_assoc. apply trimEnd_solid, Hc'. }
  rewrite T2. apply split_lines_concat; assumption.
Qed.
End TextFacts.

Section CsvFacts.
Context {num : Type} {JN : JSNumber num}.
Variable Number : string -> num.
Local Open Scope string_scope.

Lemma loadCSV_lines (text text' : string) :
  csv_lines text = csv_lines text' -> loadCSV Number text = loadCSV Number text'.
Proof.
  intros E. unfold loadCSV, csv_headers, csv_rows. rewrite E. reflexivity.
Qed.

(** X6.  [loadCSV] reads a text of one or more lines, none with a line
    terminator inside, the first starting and the last ending with
    something other than white space, as exactly those lines, whether they
    are joined by LF or by CR LF and whatever white space (a final
    newline, blank lines) follows the last one; the record it returns is
    the one it returns for the same lines joined by LF alone. *)
Theorem loadCSV_line_endings (eol trailing first : string) (rest : list string) :
  eol = LF_eol \/ eol = CRLF_eol ->
  (forall l, In l (first :: rest) -> one_line l) ->
  (exists c s, first = String c s /\ is_space c = false) ->
  (exists s c, last (first :: rest) "" = s ++ String c "" /\ is_space c = false) ->
  (forall c, In c (list_ascii_of_string trailing) -> is_space c = true) ->
  csv_lines (concat eol (first :: rest) ++ trailing) = first :: rest /\
  loadCSV Number (concat eol (first :: rest) ++ trailing)
  = loadCSV Number (concat LF_eol (first :: rest)).
Proof.
  intros He Hp Hf Hl Hws.
  assert (E1 := @csv_lines_joined eol trailing first rest He Hp Hf Hl Hws).
  split; [exact E1 |].
  apply loadCSV_lines. rewrite E1.
  assert (E2 := @csv_lines_joined LF_eol "" first rest (or_introl eq_refl) Hp Hf Hl
                  ltac:(intros c [])).
  rewrite append_nil_r in E2. rewrite E2. reflexivity.
Qed.

(* cells *)
Lemma split_plain (s : string) : without "," s -> split "," s = [s].
Proof.
  induction s as [| c s IH]; intros H; [reflexivity |].
  cbn [split].
  rewrite (without_head H), IH by exact (without_tail H). reflexivity.
Qed.

Lemma split_app (s rest : string) :
  without "," s -> split "," (s ++ String "," rest) = s :: split "," rest.
Proof.
  induction s as [| c s IH]; intros H.
  - cbn. reflexivity.
  - cbn [append split].
    rewrite (without_head H), IH by exact (without_tail H). reflexivity.
Qed.

Lemma split_concat (c0 : string) (cells : list string) :
  (forall c, In c (c0 :: cells) -> without "," c) ->
  split "," (concat "," (c0 :: cells)) = c0 :: cells.
Proof.
  revert c0. induction cells as [| c1 cells IH]; intros c0 H.
  - cbn. apply split_plain, H. left. reflexivity.
  - change (concat "," (c0 :: c1 :: cells)) with (c0 ++ String "," (concat "," (c1 :: cells))).
    rewrite split_app by (apply H; left; reflexivity).
    rewrite IH by (intros c Hc; apply H; right; exact Hc). reflexivity.
Qed.

Lemma split_row (r : list string) : cells_ok r -> split "," (concat "," r) = r.
Proof.
  intros [Hne H]. destruct r as [| c0 cells]; [contradiction |].
  apply split_concat, H.
Qed.

(** What [loadCSV] makes of a header line and data lines given by their
    cells. *)
Lemma loadCSV_cells (text : string) (hs : list string) (rows : list (list string)) :
  csv_lines text = concat "," hs :: map (concat ",") rows ->
  cells_ok hs -> (forall r, In r rows -> cells_ok r) ->
  csv_headers text = map trim hs /\
  csv_rows Number text = map (map Number) rows /\
  aligned (loadCSV Number text) (List.length rows) /\
  forall (name : string) (i j : nat) (r : list string) (c : string),
    known_column name ->
    fromEntries (map trim hs) name = Some j ->
    nth_error rows i = Some r -> nth_error r j = Some c ->
    channel (loadCSV Number text) name i = Some (Num (Number c)).
Proof.
  intros E Hh Hr.
  assert (EH : csv_headers text = map trim hs).
  { unfold csv_headers. rewrite E. cbn [hd]. rewrite split_row by exact Hh. reflexivity. }
  assert (ER : csv_rows Number text = map (map Number) rows).
  { unfold csv_rows. rewrite E. cbn [tl]. rewrite map_map.
    apply map_ext_in. intros r Hin. rewrite split_row by (apply Hr, Hin). reflexivity. }
  split; [exact EH |]. split; [exact ER |]. split.
  - pose proof (loadCSV_aligned Number text) as A. rewrite ER in A.
    rewrite length_map in A. exact A.
  - intros name i j r c Hk Hj Hi Hc.
    assert (Hlt : (i < List.length (csv_rows Number text))%nat).
    { rewrite ER, length_map. apply nth_error_Some. congruence. }
    rewrite (loadCSV_channel Number text Hk Hlt).
    assert (Hh' : has_header text name = true).
    { unfold has_header. rewrite EH.
      destruct (existsb (String.eqb name) (map trim hs)) eqn:X; [reflexivity |].
      exfalso.
      assert (N : ~ In name (map trim hs)).
      { intros Hin. rewrite <- Bool.not_true_iff_false in X. apply X.
        apply existsb_exists. exists name. split; [exact Hin | apply String.eqb_refl]. }
      rewrite (fromEntries_absent _ _ N) in Hj. discriminate. }
    rewrite Hh'. cbn [negb]. rewrite Bool.andb_false_r.
    unfold csv_cell. rewrite EH, Hj, ER.
    rewrite (nth_error_nth _ _ [] (map_nth_error (map Number) _ _ Hi)).
    cbn [cell]. rewrite (map_nth_error Number _ _ Hc). reflexivity.
Qed.

(** X7.  When the lines of the text are a header line and data lines, each
    the comma-joined list of its cells (no cell holding a comma),
    [loadCSV] finds the header names trimmed and every row as the
    [Number] of its cells, returns one sample per data line, and gives
    each of the fifteen logical columns, in each sample, the [Number] of
    the cell that stands in that row under the last header of that
    name. *)
Theorem loadCSV_reads_cells (text : string) (hs : list string) (rows : list (list string)) :
  csv_lines text = concat "," hs :: map (concat ",") rows ->
  cells_ok hs -> (forall r, In r rows -> cells_ok r) ->
  csv_headers text = map trim hs /\
  csv_rows Number text = map (map Number) rows /\
  aligned (loadCSV Number text) (List.length rows) /\
  forall (name : string) (i j : nat) (r : list string) (c : string),
    known_column name ->
    fromEntries (map trim hs) name = Some j ->
    nth_error rows i = Some r -> nth_error r j = Some c ->
    channel (loadCSV Number text) name i = Some (Num (Number c)).
Proof. apply loadCSV_cells. Qed.
End CsvFacts.

Section Duplicates.
Context {num : Type} {JN : JSNumber num}.
Local Open Scope string_scope.

Lemma lookup_from_last (i : nat) (hs1 hs2 : list string) (name : string) :
  ~ In name hs2 ->
  lookup_from i (hs1 ++ name :: hs2)%list name = Some (i + List.length hs1)%nat.
Proof.
  intros H. revert i. induction hs1 as [| h hs1 IH]; intros i.
  - cbn. rewrite lookup_from_absent by exact H. rewrite String.eqb_refl.
    f_equal. lia.
  - cbn [app lookup_from]. rewrite IH. f_equal. cbn. lia.
Qed.

Lemma fromEntries_last (hs1 hs2 : list string) (name : string) :
  ~ In name hs2 -> fromEntries (hs1 ++ name :: hs2)%list name = Some (List.length hs1).
Proof.
  intros H. unfold fromEntries. rewrite lookup_from_last by exact H. reflexivity.
Qed.

Lemma getCol_first (t1 t2 : @Table num) (name : string) (col : list (value num)) :
  (forall f, In f t1 -> fst f <> name) ->
  getCol (t1 ++ (name, col) :: t2)%list name = col.
Proof.
  intros H. unfold getCol.
  induction t1 as [| f t1 IH]; cbn.
  - rewrite String.eqb_refl. reflexivity.
  - assert (Hf : (fst f =? name) = false)
      by (apply String.eqb_neq, H; left; reflexivity).
    rewrite Hf. apply IH. intros g Hg. apply H. right. exact Hg.
Qed.

(** X8.  A column name that occurs more than once is resolved differently
    by the two loaders: the index object of [loadCSV]
    ([Object.fromEntries]) keeps the position of the last header of that
    name, while [getCol] of [loadParquet] stops at the first field of that
    name. *)
Theorem duplicate_columns (name : string) :
  (forall hs1 hs2 : list string,
     ~ In name hs2 ->
     fromEntries (hs1 ++ name :: hs2)%list name = Some (List.length hs1)) /\
  (forall (t1 t2 : @Table num) (col : list (value num)),
     (forall f, In f t1 -> fst f <> name) ->
     getCol (t1 ++ (name, col) :: t2)%list name = col).
Proof.
  split.
  - intros hs1 hs2 H. apply fromEntries_last, H.
  - intros t1 t2 col H. apply getCol_first, H.
Qed.
End Duplicates.

(** *** A delimited text and what the loader reads from it *)

Section DelimitedText.
Local Open Scope string_scope.

Lemma without_app (x : ascii) (a b : string) : without x a -> without x b -> without x (a ++ b).
Proof.
  intros Ha Hb. induction a as [| c a IH]; [exact Hb |].
  intros c' [<- | Hc].
  - apply Ha. left. reflexivity.
  - apply (IH (without_tail Ha)). exact Hc.
Qed.

Lemma plain_cell_spec (c : string) :
  plain_cell c = true -> without "," c /\ one_line c.
Proof.
  unfold plain_cell, one_line, without. intros H.
  rewrite forallb_forall in H.
  repeat split; intros a Ha E; subst a; specialize (H _ Ha); cbn in H; discriminate.
Qed.

Lemma one_line_concat (r : list string) :
  (forall c, In c r -> one_line c) -> one_line (concat "," r).
Proof.
  assert (Hsep : one_line ",").
  { split; intros c [<- | []]; discriminate. }
  induction r as [| a [| b r] IH]; intros H.
  - split; intros c [].
  - apply H. left. reflexivity.
  - change (concat "," (a :: b :: r)) with (a ++ "," ++ concat "," (b :: r)).
    assert (Ha : one_line a) by (apply H; left; reflexivity).
    assert (Hr : one_line (concat "," (b :: r)))
      by (apply IH; intros c Hc; apply H; right; exact Hc).
    destruct Ha, Hsep, Hr. split; repeat apply without_app; assumption.
Qed.

Lemma plain_row_spec (r : list string) :
  plain_row r = true -> cells_ok r /\ one_line (concat "," r).
Proof.
  intros H.
  assert (Hne : r <> []) by (destruct r; [discriminate | discriminate]).
  assert (Hall : forallb plain_cell r = true) by (destruct r; [discriminate | exact H]).
  rewrite forallb_forall in Hall.
  split; [split; [exact Hne |] |].
  - intros c Hc. apply plain_cell_spec, Hall, Hc.
  - apply one_line_concat. intros c Hc. apply plain_cell_spec, Hall, Hc.
Qed.

Lemma starts_solid_spec (s : string) :
  starts_solid s = true -> exists c s', s = String c s' /\ is_space c = false.
Proof.
  destruct s as [| c s']; [discriminate |]. cbn. intros H.
  exists c, s'. split; [reflexivity |]. destruct (is_space c); [discriminate | reflexivity].
Qed.

Lemma ends_solid_spec (s : string) :
  ends_solid s = true -> exists s' c, s = s' ++ String c "" /\ is_space c = false.
Proof.
  induction s as [| a s IH]; [discriminate |].
  destruct s as [| b s].
  - cbn. intros H. exists "", a. split; [reflexivity |].
    destruct (is_space a); [discriminate | reflexivity].
  - intros H. destruct (IH H) as (s' & c & E & Hc).
    exists (String a s'), c. split; [cbn; rewrite <- E; reflexivity | exact Hc].
Qed.

(** A well-formed delimited text is read back as the lines and cells it
    was written from. *)
Lemma well_delimited_lines (eol trailing : string) (hs : list string)
      (rows : list (list string)) :
  well_delimited eol trailing hs rows = true ->
  csv_lines (delimited eol trailing hs rows) = concat "," hs :: map (concat ",") rows /\
  cells_ok hs /\ (forall r, In r rows -> cells_ok r).
Proof.
  unfold well_delimited. rewrite !Bool.andb_true_iff.
  intros ((((He & Hrows) & Hs) & Hl) & Hws).
  rewrite forallb_forall in Hrows, Hws.
  split; [| split].
  - unfold delimited. cbn [map]. apply csv_lines_joined.
    + apply Bool.orb_true_iff in He.
      destruct He as [He | He]; apply String.eqb_eq in He; [left | right]; exact He.
    + intros l Hl'. change (In l (map (concat ",") (hs :: rows))) in Hl'.
      apply in_map_iff in Hl'. destruct Hl' as (r & <- & Hr).
      apply plain_row_spec, Hrows, Hr.
    + apply starts_solid_spec, Hs.
    + apply ends_solid_spec. exact Hl.
    + exact Hws.
  - apply plain_row_spec, Hrows. left. reflexivity.
  - intros r Hr. apply plain_row_spec, Hrows. right. exact Hr.
Qed.
End DelimitedText.

(** *** A required column that is absent *)

Section MissingRequired.
Context {num : Type} {JN : JSNumber num} {JM : JSMath num}.
Variable Number : string -> num.
Local Open Scope string_scope.

Lemma required_is_known (name : string) : In name required_columns -> known_column name.
Proof. intros H. left. exact H. Qed.

Lemma required_not_fuel (name : string) : In name required_columns -> (name =? "fuel") = false.
Proof.
  intros H. cbn in H.
  repeat (destruct H as [<- | H]; [reflexivity |]). contradiction.
Qed.

(** A record that settles is handed to [setData]; when that runs to its
    end the handler has done just what [setData] did. *)
Lemma fileInput_change_installs (parsed : @Trajectory num) (s : @App num) :
  succeeds (setData parsed) ->
  fst (fileInput_change (Returned parsed) s) = fst (setData parsed s).
Proof.
  intros H. unfold fileInput_change, try_catch, bindM, lift.
  destruct (H s) as (a & Ha). destruct (setData parsed s) as [s' r].
  cbn in Ha. subst r. reflexivity.
Qed.

(** When [setData] throws, the handler's [catch] adds one alert to the
    state [setData] left. *)
Lemma fileInput_change_reports (parsed : @Trajectory num) (s : @App num) (e : exn) :
  snd (setData parsed s) = Thrown e ->
  fst (fileInput_change (Returned parsed) s)
  = set_alerts (alerts (fst (setData parsed s)) ++ [("Failed to load file: " ++ exn_message e)%string])%list
               (fst (setData parsed s)).
Proof.
  intros H. unfold fileInput_change, try_catch, bindM, lift, modify.
  destruct (setData parsed s) as [s' r]. cbn in H. subst r. reflexivity.
Qed.

Lemma fileInput_change_data (parsed : @Trajectory num) (s : @App num) :
  data (fst (fileInput_change (Returned parsed) s))
  = Some (with_euler parsed (computeEulerAll (quat parsed))).
Proof.
  pose proof (setData_installs parsed s) as H.
  unfold fileInput_change, try_catch, bindM, lift.
  destruct (setData parsed s) as [s' [a | e]]; exact H.
Qed.

(** What the handler reports for a record whose channels cover its
    times: nothing when the first sample can be shown, one failure
    otherwise. *)
Lemma fileInput_change_alerts (parsed : @Trajectory num) (s : @App num) :
  covers parsed ->
  alerts (fst (fileInput_change (Returned parsed) s))
  = if first_shown parsed then alerts s
    else (alerts s ++ [("Failed to load file: " ++ exn_message undefined_read)%string])%list.
Proof.
  intros Hc. destruct (first_shown parsed) eqn:Hf.
  - rewrite fileInput_change_installs by (apply setData_succeeds; assumption).
    apply setData_keeps_alerts.
  - rewrite (fileInput_change_reports _ _ (setData_throws s Hc Hf)).
    cbn [alerts set_alerts]. rewrite (setData_keeps_alerts parsed s). reflexivity.
Qed.

Lemma aligned_covers (r : @Trajectory num) (N : nat) : aligned r N -> covers r.
Proof. unfold aligned, covers. intros (-> & -> & -> & -> & _). repeat split; lia. Qed.

(** A record whose time or x entries are all [undefined] has no first
    sample to show. *)
Lemma first_shown_needs (r : @Trajectory num) (N : nat) (name : string) :
  aligned r N -> name = "t" \/ name = "x" ->
  (forall i, (i < N)%nat -> channel r name i = Some Undefined) ->
  first_shown r = false.
Proof.
  intros A Hname H. unfold first_shown.
  destruct N as [| N].
  - destruct A as (Lt & _). destruct (t r); [reflexivity | discriminate].
  - specialize (H 0%nat ltac:(lia)).
    destruct Hname as [-> | ->]; unfold channel in H;
      cbn [String.eqb Ascii.eqb Bool.eqb] in H.
    + rewrite H. reflexivity.
    + unfold component in H.
      destruct (nth_error (t r) 0) as [[| t0] |]; try reflexivity.
      destruct (nth_error (pos r) 0) as [p |]; [| reflexivity].
      injection H as ->. reflexivity.
Qed.

(** C1 (as amended).  A file that lacks one of the required columns is
    loaded all the same: no loader raises MissingRequiredChannel (nor any
    error of its own).  From delimited text the record has one sample per
    data row, and from a columnar table as many as the time column has
    entries (none if that is the absent column), all channels the same
    length, and in every sample the absent column reads [undefined]; the
    name is indeed none of the text's header cells, and the data rows and
    the time column are those the file is written with.  The
    handler installs the record the loader returned, and reports nothing
    when the record's first sample has a time and an x that are numbers;
    otherwise, as when the absent column is the time or x, it reports one
    failure, that of reading a property of [undefined], and the record
    stays installed.  A load of valid data (every sample with numbers for
    time and x and entries in all channels, at least one sample) that
    follows succeeds whatever was loaded before: its record is installed,
    the index is 0 and no failure is reported. *)
Theorem missing_required_column_loads
        (text : string) (table : @Table num) (name : string)
        (s : @App num) (good : @Trajectory num) :
  In name required_columns ->
  has_header text name = false -> has_field table name = false ->
  complete (with_euler good (computeEulerAll (quat good))) = true ->
  (0 < List.length (t good))%nat ->
  let bad := loadCSV Number text in
  let bad' := loadParquet table in
  aligned bad (List.length (csv_rows Number text)) /\
  (forall i, (i < List.length (csv_rows Number text))%nat ->
             channel bad name i = Some Undefined) /\
  aligned bad' (List.length (getCol table "t")) /\
  (forall i, (i < List.length (getCol table "t"))%nat ->
             channel bad' name i = Some Undefined) /\
  (name = "t" -> List.length (getCol table "t") = 0%nat) /\
  (forall (eol trailing : string) (hs : list string) (rows : list (list string)),
     well_delimited eol trailing hs rows = true ->
     text = delimited eol trailing hs rows ->
     ~ In name (map trim hs) /\
     List.length (csv_rows Number text) = List.length rows) /\
  (forall (t1 : @Table num) (tcol : list (value num)) (t2 : @Table num),
     table = (t1 ++ ("t", tcol) :: t2)%list -> (forall f, In f t1 -> fst f <> "t") ->
     List.length (getCol table "t") = List.length tcol) /\
  (forall name', load Number (mkFile name' (Returned text) (Returned table))
                 = Returned (if extension name' =? "csv" then bad else bad')) /\
  (forall r, In r [bad; bad'] ->
     let s1 := dispatch s (FileSettled (Returned r)) in
     let s2 := dispatch s1 (FileSettled (Returned good)) in
     data s1 = Some (with_euler r (computeEulerAll (quat r))) /\
     alerts s1 = (if first_shown r then alerts s
                  else (alerts s ++ [("Failed to load file: " ++ exn_message undefined_read)%string])%list) /\
     (name = "t" \/ name = "x" -> first_shown r = false) /\
     data s2 = Some (with_euler good (computeEulerAll (quat good))) /\
     timeSlider_value s2 = 0%Z /\ alerts s2 = alerts s1).
Proof.
  intros Hreq Hh Hf Hc Hn. cbv zeta.
  pose proof (required_is_known Hreq) as Hk.
  pose proof (required_not_fuel Hreq) as Hnf.
  assert (C1 : forall i, (i < List.length (csv_rows Number text))%nat ->
                         channel (loadCSV Number text) name i = Some Undefined).
  { intros i Hi. rewrite loadCSV_channel by assumption.
    rewrite Hnf. cbn [andb]. rewrite csv_cell_absent by assumption. reflexivity. }
  assert (C2 : forall i, (i < List.length (getCol table "t"))%nat ->
                         channel (loadParquet table) name i = Some Undefined).
  { intros i Hi. rewrite loadParquet_channel by assumption.
    rewrite Hnf, table_cell_absent by assumption. reflexivity. }
  split; [apply loadCSV_aligned |].
  split; [exact C1 |].
  split; [apply loadParquet_aligned |].
  split; [exact C2 |].
  split.
  { intros ->. rewrite has_field_false by assumption. reflexivity. }
  split.
  { intros eol trailing hs rows Hwd ->.
    destruct (well_delimited_lines _ _ _ _ Hwd) as (El & Hhs & Hrows).
    destruct (@loadCSV_cells _ _ Number _ _ _ El Hhs Hrows) as (EH & ER & _).
    split; [| rewrite ER; apply length_map].
    intros Hin. unfold has_header in Hh. rewrite EH in Hh.
    rewrite <- Bool.not_true_iff_false in Hh. apply Hh.
    apply existsb_exists. exists name. split; [exact Hin | apply String.eqb_refl]. }
  split.
  { intros t1 tcol t2 -> Ht1. rewrite getCol_first by exact Ht1. reflexivity. }
  split.
  { intros name'. unfold load. cbn [file_name file_text file_table bind].
    destruct (extension name' =? "csv"); reflexivity. }
  intros r Hr. unfold dispatch. cbn [handle].
  assert (A : exists N, aligned r N /\
                        forall i, (i < N)%nat -> channel r name i = Some Undefined).
  { destruct Hr as [<- | [<- | []]].
    - eexists. split; [apply loadCSV_aligned | exact C1].
    - eexists. split; [apply loadParquet_aligned | exact C2]. }
  destruct A as (N & A & HU).
  split; [apply fileInput_change_data |].
  split; [apply fileInput_change_alerts, (aligned_covers A) |].
  split; [intros Hname; exact (first_shown_needs A Hname HU) |].
  split; [apply fileInput_change_data |].
  rewrite fileInput_change_installs
    by (apply setData_succeeds;
        [exact (complete_covers _ Hc) | exact (complete_first_shown _ Hc Hn)]).
  destruct (setData_resets good (fst (fileInput_change (Returned r) s))) as (R1 & _ & R3).
  split; assumption.
Qed.
End MissingRequired.


(** The theorem on the sample files without quaternion columns, three
    samples each, followed by the 100-sample table: nothing is reported,
    and the 100 samples replace the three. *)
Lemma missing_required_column_loads_witness :
  channel (loadCSV Number_sample (csv_no_quaternion 3)) "qw" 0 = Some Undefined /\
  channel (loadParquet (table_no_quaternion 3)) "qw" 0 = Some Undefined /\
  alerts (dispatch (JM:=math_nan) page_at_start
            (FileSettled (Returned (loadCSV Number_sample (csv_no_quaternion 3))))) = [] /\
  data (dispatch (JM:=math_nan)
          (dispatch (JM:=math_nan) page_at_start
             (FileSettled (Returned (loadCSV Number_sample (csv_no_quaternion 3)))))
          (FileSettled (Returned flight_100)))
  = Some (with_euler flight_100 (@computeEulerAll _ _ math_nan (quat flight_100))).
Proof.
  assert (Hreq : In "qw"%string (@required_columns)).
  { cbn. do 7 right. left. reflexivity. }
  assert (Hc : complete (with_euler flight_100
                           (@computeEulerAll _ _ math_nan (quat flight_100))) = true)
    by (vm_compute; reflexivity).
  assert (Hn : (0 < List.length (t flight_100))%nat) by (vm_compute; lia).
  pose proof (@missing_required_column_loads B64.num _ math_nan Number_sample
                (csv_no_quaternion 3) (table_no_quaternion 3) "qw"
                page_at_start flight_100 Hreq eq_refl eq_refl Hc Hn) as H.
  cbv zeta in H. destruct H as (_ & H1 & _ & H2 & _ & _ & _ & _ & H3).
  destruct (H3 _ (or_introl eq_refl)) as (_ & Ha & _ & Hd & _).
  split; [apply H1; vm_compute; lia |].
  split; [apply H2; vm_compute; lia |].
  split; [| exact Hd].
  rewrite Ha.
  replace (first_shown (loadCSV Number_sample (csv_no_quaternion 3))) with true
    by (vm_compute; reflexivity).
  reflexivity.
Defined.

(** C1 (as stated) fails.  Neither sample file has quaternion columns.
    Each loader returns a record for it, the handler reports nothing and
    installs the record: three samples whose quaternion entries are all
    [undefined]. *)
Lemma load_without_quaternion_succeeds :
  has_header (csv_no_quaternion 3) "qw" = false /\
  has_field (table_no_quaternion 3 : @Table B64.num) "qw" = false /\
  load Number_sample (csv_file 3)
  = Returned (loadCSV Number_sample (csv_no_quaternion 3)) /\
  load Number_sample (parquet_file 3)
  = Returned (loadParquet (table_no_quaternion 3)) /\
  (let s' := dispatch (JM:=math_nan) page_at_start
               (FileSettled (load Number_sample (csv_file 3))) in
   alerts s' = [] /\
   option_map (@quat _) (data s')
   = Some (repeat [Undefined; Undefined; Undefined; Undefined] 3) /\
   option_map (fun d => List.length (t d)) (data s') = Some 3%nat) /\
  (let s' := dispatch (JM:=math_nan) page_at_start
               (FileSettled (load Number_sample (parquet_file 3))) in
   alerts s' = [] /\
   option_map (@quat _) (data s')
   = Some (repeat [Undefined; Undefined; Undefined; Undefined] 3) /\
   option_map (fun d => List.length (t d)) (data s') = Some 3%nat).
Proof. vm_compute. repeat split. Qed.


(** *** An optional column that is absent *)

Section MissingOptional.
Variable Number : string -> B64.num.
Local Open Scope string_scope.

Lemma optional_is_known (name : string) : In name optional_columns -> known_column name.
Proof. intros H. right. exact H. Qed.

Lemma absent_header (hs : list string) (text name : string) :
  csv_headers text = map trim hs -> ~ In name (map trim hs) -> has_header text name = false.
Proof.
  intros E H. unfold has_header. rewrite E.
  destruct (existsb (String.eqb name) (map trim hs)) eqn:X; [| reflexivity].
  exfalso. apply H. apply existsb_exists in X. destruct X as (h & Hin & Eh).
  apply String.eqb_eq in Eh. subst h. exact Hin.
Qed.

(** C5 (as amended).  A file without one of the optional columns loads,
    from either format, into a record whose six channels all have N
    entries: N the number of data lines of the text, or the length of the
    table's time column.  In each of the N samples an absent fuel column
    holds NaN, which the loader puts there, and an absent angular rate holds
    [undefined], for which the loader substitutes nothing; the readout
    prints either as a dash.  Every required column holds, sample for
    sample, what the file has for it: the [Number] of the text's cell
    under the last header of that name, and the entry of the table's
    first column of that name. *)
Theorem optional_column_absent
        (eol trailing : string) (hs : list string) (rows : list (list string))
        (table : @Table B64.num) (name : string) :
  In name optional_columns ->
  well_delimited eol trailing hs rows = true ->
  ~ In name (map trim hs) ->
  has_field table name = false ->
  let absent : value B64.num := if name =? "fuel" then Num NaN else Undefined in
  let r := loadCSV Number (delimited eol trailing hs rows) in
  let r' := loadParquet table in
  aligned r (List.length rows) /\
  (forall i, (i < List.length rows)%nat -> channel r name i = Some absent) /\
  (forall (req : string) (h1 : list string) (h : string) (h2 : list string)
          (i : nat) (row : list string) (c : string),
     In req required_columns ->
     hs = (h1 ++ h :: h2)%list -> trim h = req -> ~ In req (map trim h2) ->
     nth_error rows i = Some row -> nth_error row (List.length h1) = Some c ->
     channel r req i = Some (Num (Number c))) /\
  (forall (t1 : @Table B64.num) (tcol : list (value B64.num)) (t2 : @Table B64.num),
     table = (t1 ++ ("t", tcol) :: t2)%list -> (forall f, In f t1 -> fst f <> "t") ->
     aligned r' (List.length tcol) /\
     (forall i, (i < List.length tcol)%nat -> channel r' name i = Some absent) /\
     (forall (req : string) (f1 : @Table B64.num) (col : list (value B64.num))
             (f2 : @Table B64.num) (i : nat),
        In req required_columns -> (i < List.length tcol)%nat ->
        table = (f1 ++ (req, col) :: f2)%list -> (forall f, In f f1 -> fst f <> req) ->
        channel r' req i = Some (at_ col i))) /\
  fmt absent = Dash.
Proof.
  intros Hopt Hwd Hh Hf. cbv zeta.
  pose proof (optional_is_known Hopt) as Hk.
  destruct (well_delimited_lines _ _ _ _ Hwd) as (El & Hhs & Hrows).
  destruct (@loadCSV_cells _ _ Number _ _ _ El Hhs Hrows) as (EH & ER & A & Hcells).
  assert (EN : List.length (csv_rows Number (delimited eol trailing hs rows))
               = List.length rows) by (rewrite ER; apply length_map).
  split; [exact A |].
  split.
  { intros i Hi. rewrite loadCSV_channel by (try assumption; rewrite EN; exact Hi).
    rewrite (@absent_header _ _ _ EH Hh). cbn [negb]. rewrite Bool.andb_true_r.
    destruct (name =? "fuel"); [reflexivity |].
    rewrite csv_cell_absent by exact (@absent_header _ _ _ EH Hh). reflexivity. }
  split.
  { intros req h1 h h2 i row c Hreq -> Eh Hlast Hi Hc.
    apply (Hcells req i (List.length h1) row c); try assumption.
    - left. exact Hreq.
    - rewrite map_app. cbn [map]. rewrite Eh.
      rewrite fromEntries_last by exact Hlast. rewrite length_map. reflexivity. }
  split.
  { intros t1 tcol t2 Et Ht1.
    assert (EN' : List.length (getCol table "t") = List.length tcol)
      by (rewrite Et, getCol_first by exact Ht1; reflexivity).
    split; [rewrite <- EN'; apply loadParquet_aligned |].
    split.
    - intros i Hi. rewrite loadParquet_channel by (try assumption; rewrite EN'; exact Hi).
      rewrite table_cell_absent by assumption.
      destruct (name =? "fuel"); reflexivity.
    - intros req f1 col f2 i Hreq Hi Ef Hf1.
      rewrite loadParquet_channel
        by (try (left; assumption); rewrite EN'; exact Hi).
      rewrite (required_not_fuel Hreq). unfold table_cell.
      rewrite Ef, getCol_first by exact Hf1. reflexivity. }
  destruct (name =? "fuel"); reflexivity.
Qed.
End MissingOptional.

(** The theorem on the sample files of 500 samples with no optional
    column.  All six channels have 500 entries; [fuel] reads NaN in every
    one of them, and a required column reads the file's number in the
    last sample: the quaternion's scalar part 1 in the text, the height
    499 in the table. *)
Lemma optional_column_absent_witness :
  aligned (loadCSV Number_sample (csv_required_only 500)) 500 /\
  aligned (loadParquet (table_required_only 500)) 500 /\
  (forall i, (i < 500)%nat ->
     channel (loadCSV Number_sample (csv_required_only 500)) "fuel" i = Some (Num NaN) /\
     channel (loadParquet (table_required_only 500)) "fuel" i = Some (Num NaN)) /\
  channel (loadCSV Number_sample (csv_required_only 500)) "qw" 499 = Some (Num (ofZ 1)) /\
  channel (loadParquet (table_required_only 500)) "z" 499 = Some (Num (ofZ 499)).
Proof.
  pose (hs := ["t"; "x"; "y"; "z"; "vx"; "vy"; "vz"; "qw"; "qx"; "qy"; "qz"]%string).
  pose (row := ["0"; "0"; "0"; "0"; "0"; "0"; "0"; "1"; "0"; "0"; "0"]%string).
  assert (Hopt : In "fuel"%string optional_columns) by (cbn; auto).
  assert (Hwd : well_delimited LF_eol "" hs (repeat row 500) = true)
    by (vm_compute; reflexivity).
  assert (Hh : ~ In "fuel"%string (map trim hs)).
  { intros Hin. vm_compute in Hin. decompose [or] Hin; try discriminate; contradiction. }
  assert (Hf : has_field (table_required_only 500) "fuel" = false)
    by (vm_compute; reflexivity).
  pose proof (@optional_column_absent Number_sample LF_eol "" hs (repeat row 500)
                (table_required_only 500) "fuel" Hopt Hwd Hh Hf) as H.
  cbv zeta in H.
  replace (delimited LF_eol "" hs (repeat row 500)) with (csv_required_only 500) in H
    by (vm_compute; reflexivity).
  rewrite repeat_length in H.
  destruct H as (H1 & H2 & H3 & H4 & _).
  destruct (H4 [] (counting 500) (tl (table_required_only 500)) eq_refl
               ltac:(intros f [])) as (H5 & H6 & H7).
  replace (List.length (counting 500)) with 500%nat in H5, H6, H7
    by (vm_compute; reflexivity).
  split; [exact H1 |]. split; [exact H5 |].
  split; [intros i Hi; split; [apply (H2 i Hi) | apply (H6 i Hi)] |].
  split.
  - apply (H3 "qw"%string ["t"; "x"; "y"; "z"; "vx"; "vy"; "vz"]%string "qw"%string
              ["qx"; "qy"; "qz"]%string 499%nat row "1"%string).
    + cbn. do 7 right. left. reflexivity.
    + reflexivity.
    + reflexivity.
    + intros Hin. vm_compute in Hin. decompose [or] Hin; try discriminate; contradiction.
    + vm_compute. reflexivity.
    + reflexivity.
  - apply (H7 "z"%string (firstn 3 (table_required_only 500)) (counting 500)
              (skipn 4 (table_required_only 500)) 499%nat).
    + cbn. auto.
    + lia.
    + reflexivity.
    + intros f Hf'.
      assert (X : forallb (fun g : string * list (value B64.num) => negb (fst g =? "z")%string)
                          (firstn 3 (table_required_only 500)) = true)
        by (vm_compute; reflexivity).
      rewrite forallb_forall in X. specialize (X f Hf'). intros E.
      rewrite E, String.eqb_refl in X. discriminate.
Defined.

(** C5 (as stated) fails for the angular rates.  The sample files of
    three samples have no optional column.  Either loader puts NaN in the
    fuel channel, but in the angular-rate channel it puts nothing in place
    of the missing cells: every entry is [undefined], the very value the
    quaternion entries have when a file lacks its quaternion columns. *)
Lemma angular_rate_not_substituted :
  let r := loadCSV Number_sample (csv_required_only 3) in
  let r' := loadParquet (table_required_only 3) in
  fuel r = repeat (Num NaN) 3 /\ fuel r' = repeat (Num NaN) 3 /\
  omega r = repeat [Undefined; Undefined; Undefined] 3 /\
  omega r' = repeat [Undefined; Undefined; Undefined] 3 /\
  channel r "omx" 0 = Some Undefined /\
  channel r "omx" 0 = channel (loadCSV Number_sample (csv_no_quaternion 3)) "qw" 0 /\
  channel r' "omx" 0 = channel (loadParquet (table_no_quaternion 3)) "qw" 0.
Proof. vm_compute. repeat split. Qed.


Section Extension.
Local Open Scope string_scope.

Lemma lower_dot (c : ascii) : (lower c =? ".")%char = (c =? ".")%char.
Proof.
  destruct c as [[] [] [] [] [] [] [] []]; vm_compute; reflexivity.
Qed.

Lemma split_dot_plain (s : string) : without "." s -> split "." (toLowerCase s) = [toLowerCase s].
Proof.
  induction s as [| c s IH]; intros H; [reflexivity |].
  cbn [toLowerCase split]. rewrite lower_dot.
  rewrite (without_head H), IH by exact (without_tail H). reflexivity.
Qed.

Lemma last_cons_first (c : ascii) (l : list string) :
  (2 <= List.length l)%nat -> last (cons_first c l) "" = last l "".
Proof.
  destruct l as [| a [| b l]]; cbn [List.length]; try lia. intros _. reflexivity.
Qed.

Lemma split_length (sep : ascii) (s : string) : (1 <= List.length (split sep s))%nat.
Proof.
  induction s as [| c s IH]; cbn; [lia |].
  destruct (Ascii.eqb c sep); cbn; [lia |].
  destruct (split sep s); cbn in *; lia.
Qed.

Lemma extension_after_dot (base e : string) :
  without "." e -> extension (base ++ String "." e) = toLowerCase e.
Proof.
  intros H. unfold extension.
  induction base as [| c base IH].
  - cbn [append toLowerCase split]. rewrite lower_dot. cbn [Ascii.eqb].
    replace (Ascii.eqb "." ".") with true by reflexivity.
    rewrite split_dot_plain by exact H. reflexivity.
  - cbn [append toLowerCase split].
    destruct (Ascii.eqb (lower c) ".").
    + pose proof (split_length "." (toLowerCase (base ++ String "." e))) as L.
      destruct (split "." (toLowerCase (base ++ String "." e))) as [| a l] eqn:E;
        [cbn in L; lia |].
      cbn [last]. cbn [last] in IH. exact IH.
    + assert (L : (2 <= List.length (split "." (toLowerCase (base ++ String "." e))))%nat).
      { clear IH. induction base as [| d base IHb].
        - cbn [append toLowerCase split]. rewrite lower_dot.
          replace (Ascii.eqb "." ".") with true by reflexivity.
          pose proof (split_length "." (toLowerCase e)). cbn [List.length]. lia.
        - cbn [append toLowerCase split].
          destruct (Ascii.eqb (lower d) "."); [cbn [List.length]; lia |].
          destruct (split "." (toLowerCase (base ++ String "." e))) as [| a [| b l]];
            cbn in *; lia. }
      rewrite last_cons_first by exact L. exact IH.
Qed.

Lemma extension_no_dot (name : string) : without "." name -> extension name = toLowerCase name.
Proof. intros H. unfold extension. rewrite split_dot_plain by exact H. reflexivity. Qed.
End Extension.

Section LoadByExtension.
Context {num : Type} {JN : JSNumber num}.
Variable Number : string -> num.
Local Open Scope string_scope.

(** X9.  The file handler chooses the loader by what follows the last dot
    of the file name, letter case ignored: a name ending in a dot and [e]
    (no dot in [e]) is loaded as the name [e] alone would be, by
    [loadCSV] when [e] lower-cased is [csv] and by [loadParquet]
    otherwise (so a file called just [csv] goes to [loadCSV] too). *)
Theorem load_by_extension (base e : string) (text : outcome string)
        (table : outcome (@Table num)) :
  without "." e ->
  load Number (mkFile (base ++ String "." e) text table)
  = load Number (mkFile e text table) /\
  load Number (mkFile e text table)
  = if toLowerCase e =? "csv"
    then bind text (fun s => Returned (loadCSV Number s))
    else bind table (fun tb => Returned (loadParquet tb)).
Proof.
  intros H. unfold load. cbn [file_name file_text file_table].
  rewrite extension_after_dot, extension_no_dot by exact H.
  split; reflexivity.
Qed.
End LoadByExtension.

Section TextWitnesses.
Local Open Scope string_scope.

Ltac split_in H := cbn in H; decompose [or] H; clear H; try contradiction; subst.
Ltac differ := let E := fresh "E" in intro E; vm_compute in E; discriminate E.

Lemma loadCSV_line_endings_witness :
  csv_lines (concat CRLF_eol ["t,x"; "0,1"; "1,2"] ++ CRLF_eol) = ["t,x"; "0,1"; "1,2"] /\
  loadCSV Number_sample (concat CRLF_eol ["t,x"; "0,1"; "1,2"] ++ CRLF_eol)
  = loadCSV Number_sample (concat LF_eol ["t,x"; "0,1"; "1,2"]).
Proof.
  apply (@loadCSV_line_endings _ _ Number_sample CRLF_eol CRLF_eol "t,x" ["0,1"; "1,2"]).
  - right. reflexivity.
  - intros l Hl. split_in Hl; split; intros c Hc; split_in Hc; differ.
  - exists "t"%char, ",x". split; reflexivity.
  - exists "1,", "2"%char. split; reflexivity.
  - intros c Hc. split_in Hc; vm_compute; reflexivity.
Defined.

Lemma loadCSV_reads_cells_witness :
  csv_headers (concat LF_eol ["t, x"; "0,1"; "1,2"]) = map trim ["t"; " x"] /\
  csv_rows Number_sample (concat LF_eol ["t, x"; "0,1"; "1,2"]) = map (map Number_sample) [["0"; "1"]; ["1"; "2"]] /\
  aligned (loadCSV Number_sample (concat LF_eol ["t, x"; "0,1"; "1,2"])) (List.length [["0"; "1"]; ["1"; "2"]]) /\
  forall (name : string) (i j : nat) (r : list string) (c : string),
    known_column name ->
    fromEntries (map trim ["t"; " x"]) name = Some j ->
    nth_error [["0"; "1"]; ["1"; "2"]] i = Some r -> nth_error r j = Some c ->
    channel (loadCSV Number_sample (concat LF_eol ["t, x"; "0,1"; "1,2"])) name i = Some (Num (Number_sample c)).
Proof.
  apply (@loadCSV_reads_cells _ _ Number_sample).
  - vm_compute. reflexivity.
  - split; [discriminate |]. intros c Hc c' Hc'. split_in Hc; split_in Hc'; differ.
  - intros r Hr. split_in Hr; (split; [discriminate |]);
      intros c Hc c' Hc'; split_in Hc; split_in Hc'; differ.
Defined.

Lemma load_by_extension_witness :
  load Number_sample (mkFile ("flight.2024" ++ String "." "CSV")
                             (Returned "t") (Returned (table_required_only 1)))
  = load Number_sample (mkFile "CSV" (Returned "t") (Returned (table_required_only 1))) /\
  load Number_sample (mkFile "CSV" (Returned "t") (Returned (table_required_only 1)))
  = if toLowerCase "CSV" =? "csv"
    then bind (Returned "t") (fun s => Returned (loadCSV Number_sample s))
    else bind (Returned (table_required_only 1)) (fun tb => Returned (loadParquet tb)).
Proof.
  apply (@load_by_extension _ _ Number_sample).
  intros c Hc. split_in Hc; differ.
Defined.
End TextWitnesses.

(** ** main.js: what the page keeps true *)

Section Respect.
Context {num : Type} {JN : JSNumber num} {JM : JSMath num}.
Variable P : @App num -> Prop.
Local Abbreviation respects := (@respects num _ P) (only parsing).

Lemma respects_bind {A B : Type} (m : @M num A) (k : A -> @M num B) :
  respects m -> (forall a, respects (k a)) -> respects (bindM m k).
Proof.
  intros Hm Hk s Hs. unfold bindM. specialize (Hm s Hs).
  destruct (m s) as [s' [a | e]]; cbn in *; [apply Hk, Hm | exact Hm].
Qed.

Lemma respects_modify (f : @App num -> @App num) :
  (forall s, P s -> P (f s)) -> respects (modify f).
Proof. intros H s Hs. apply H, Hs. Qed.

Lemma respects_modify2 (f g : @App num -> @App num) :
  (forall s, P s -> P (g (f s))) -> respects (bindM (modify f) (fun _ => modify g)).
Proof. intros H s Hs. apply H, Hs. Qed.

Lemma respects_modify2_then {B : Type} (f g : @App num -> @App num) (k : @M num B) :
  (forall s, P s -> P (g (f s))) -> respects k ->
  respects (bindM (modify f) (fun _ => bindM (modify g) (fun _ => k))).
Proof. intros H Hk s Hs. apply (Hk (g (f s))), H, Hs. Qed.

Lemma respects_lift {A : Type} (r : outcome A) : respects (lift r).
Proof. intros s Hs. exact Hs. Qed.

Lemma respects_ret {A : Type} (a : A) : respects (ret a).
Proof. intros s Hs. exact Hs. Qed.

Lemma respects_throw {A : Type} (e : exn) : respects (throw (A:=A) e).
Proof. intros s Hs. exact Hs. Qed.

Lemma respects_get : respects get.
Proof. intros s Hs. exact Hs. Qed.

Lemma respects_try_catch {A : Type} (m : @M num A) (h : exn -> @M num A) :
  respects m -> (forall e, respects (h e)) -> respects (try_catch m h).
Proof.
  intros Hm Hh s Hs. unfold try_catch. specialize (Hm s Hs).
  destruct (m s) as [s' [a | e]]; cbn in *; [exact Hm | apply Hh, Hm].
Qed.

Lemma respects_call_drawLines (getp : @App num -> PlotNode)
      (setp : PlotNode -> @App num -> @App num) (n : nat)
      (series3 : list (list (value num))) :
  (forall p s, P s -> P (setp p s)) -> respects (call_drawLines getp setp n series3).
Proof.
  intros H s Hs. unfold call_drawLines, bindM, get, lift, modify. cbn.
  destruct (drawLines _ _ _); [apply H, Hs | exact Hs].
Qed.

Lemma respects_call_updateThreePose (p q : option (list (value num))) :
  (forall c s, P s -> P (set_three c s)) -> respects (call_updateThreePose p q).
Proof.
  intros H s Hs. unfold call_updateThreePose. destruct (three s); [| exact Hs].
  destruct (updateThreePose _ _ _). apply H, Hs.
Qed.

Lemma respects_call_updateNavball (v q : option (list (value num))) :
  (forall c s, P s -> P (set_navball c s)) -> respects (call_updateNavball v q).
Proof.
  intros H s Hs. unfold call_updateNavball.
  destruct (navball s), v, q; first [apply H, Hs | exact Hs].
Qed.
End Respect.

(** Decomposes a goal [respects P m] along the structure of [m]; [close]
    proves that one assignment, or two in a row, keep [P]. *)
Ltac respects_step close :=
  lazymatch goal with
  | |- respects _ get => apply respects_get
  | |- respects _ (lift _) => apply respects_lift
  | |- respects _ (ret _) => apply respects_ret
  | |- respects _ (throw _) => apply respects_throw
  | |- respects _ (call_drawLines _ _ _ _) => apply respects_call_drawLines; solve [close]
  | |- respects _ (call_updateThreePose _ _) =>
      apply respects_call_updateThreePose; solve [close]
  | |- respects _ (call_updateNavball _ _) =>
      apply respects_call_updateNavball; solve [close]
  | |- respects _ (modify _) => apply respects_modify; solve [close]
  | |- respects _ (bindM (modify _) (fun _ => modify _)) =>
      first [ apply respects_bind; [apply respects_modify; solve [close] | intros ?]
            | apply respects_modify2; solve [close] ]
  | |- respects _ (bindM (modify _) (fun _ => bindM (modify _) (fun _ => _))) =>
      first [ apply respects_bind; [apply respects_modify; solve [close] | intros ?]
            | apply respects_modify2_then; [solve [close] |] ]
  | |- respects _ (try_catch _ _) => apply respects_try_catch; [| intros ?]
  | |- respects _ (bindM _ _) => apply respects_bind; [| intros ?]
  | |- respects _ (match ?x with _ => _ end) => destruct x eqn:?
  end.

Ltac unfold_handlers :=
  unfold animationFrame, tick, playPause_click, timeSlider_input, handlePlotClick,
    handleSnapshots, fileInput_change, setData, onTimeChange.

Section LabelInvariant.
Context {num : Type} {JN : JSNumber num} {JM : JSMath num}.
Local Open Scope string_scope.

Ltac label_close :=
  intros; unfold label_shows_state in *; cbn in *;
  repeat match goal with
         | |- context [match three ?a with _ => _ end] => destruct (three a)
         | |- context [match navball ?a with _ => _ end] => destruct (navball a)
         end;
  cbn in *; first [assumption | reflexivity].

Lemma handle_respects_label (e : @event num) :
  respects label_shows_state (handle e).
Proof.
  destruct e; cbn [handle]; unfold_handlers; repeat respects_step label_close.
Qed.
End LabelInvariant.

Section RunInvariant.
Context {num : Type} {JN : JSNumber num} {JM : JSMath num}.

Lemma run_respects (P : @App num -> Prop) :
  (forall e, respects P (handle e)) ->
  forall es s, P s -> P (run es s).
Proof.
  intros H es. induction es as [| e es IH]; intros s Hs; [exact Hs |].
  cbn [run fold_left]. apply IH. apply (H e s Hs).
Qed.

(** X10.  Whatever happens on the page (frames, clicks on the play
    button, on the plots and on the snapshot button, slider moves, speed
    changes, files that load or fail), the label of the play button keeps
    saying what the controller does: "Pause" while it is playing, "Play"
    while it is not. *)
Theorem label_always_shows_state (es : list (@event num)) (s : @App num) :
  label_shows_state s -> label_shows_state (run es s).
Proof. apply run_respects, handle_respects_label. Qed.
End RunInvariant.

Section SnapshotInvariant.
Context {num : Type} {JN : JSNumber num} {JM : JSMath num}.
Local Open Scope Z_scope.

Lemma not_recorded (i : Z) (l : list Z) : existsb (Z.eqb i) l = false -> ~ In i l.
Proof.
  intros E Hin. rewrite <- Bool.not_true_iff_false in E. apply E.
  apply existsb_exists. exists i. split; [exact Hin | apply Z.eqb_refl].
Qed.

Lemma NoDup_snoc (i : Z) (l : list Z) : NoDup l -> ~ In i l -> NoDup (l ++ [i]).
Proof.
  intros Hl Hi. apply NoDup_app; [exact Hl | repeat constructor; intros [] | ].
  intros x Hx [<- | []]. exact (Hi Hx).
Qed.

Lemma handleSnapshots_cases (s : @App num) :
  let i := timeSlider_value s in
  exists s' r,
    handleSnapshots s = (s', r) /\
    ((existsb (Z.eqb i) (cursorIndices s) = true /\ s' = s) \/
     (existsb (Z.eqb i) (cursorIndices s) = false /\
      timeSlider_value s' = i /\
      cursorIndices s' = cursorIndices s ++ [i] /\
      (snapshots s' = snapshots s \/ exists snap, snapshots s' = snapshots s ++ [snap]))).
Proof.
  cbv zeta. unfold handleSnapshots, bindM at 1, get. cbv beta iota.
  destruct (existsb (Z.eqb (timeSlider_value s)) (cursorIndices s)) eqn:E.
  { eexists _, _. split; [reflexivity |]. left. split; reflexivity. }
  unfold bindM at 1, modify at 1. cbv beta iota.
  destruct (data s) as [d |];
    [| eexists _, _; split; [reflexivity |]; right; cbn; auto].
  destruct (three s) as [ctx |];
    [| eexists _, _; split; [reflexivity |]; right; cbn; auto].
  destruct (addSnapshot _ _ _ _) as [ctx' [snap | e]];
    (eexists _, _; split; [reflexivity |]; right; cbn; eauto 6).
Qed.

Lemma handleSnapshots_respects : respects snapshots_recorded (handleSnapshots (num:=num)).
Proof.
  intros s [Hnd Hlen].
  destruct (handleSnapshots_cases s) as (s' & r & -> & [[_ ->] | (E & _ & Hc & Hs)]);
    cbn [fst]; [split; assumption |].
  split.
  - rewrite Hc. apply NoDup_snoc; [exact Hnd | apply not_recorded, E].
  - rewrite Hc, length_app. cbn [List.length].
    destruct Hs as [-> | [snap ->]]; rewrite ?length_app; cbn [List.length]; lia.
Qed.

Ltac snap_close :=
  intros; unfold snapshots_recorded in *; cbn in *;
  repeat match goal with
         | |- context [match three ?a with _ => _ end] => destruct (three a)
         | |- context [match navball ?a with _ => _ end] => destruct (navball a)
         end;
  cbn in *; first [assumption | split; [constructor | cbn; lia]].

Lemma handle_respects_snapshots (e : @event num) :
  respects snapshots_recorded (handle e).
Proof.
  destruct e; cbn [handle]; try apply handleSnapshots_respects;
    unfold_handlers; repeat respects_step snap_close.
Qed.

Lemma snapshot_click_twice (s : @App num) :
  dispatch (dispatch s SnapshotClick) SnapshotClick = dispatch s SnapshotClick.
Proof.
  unfold dispatch. cbn [handle].
  destruct (handleSnapshots_cases s) as (s1 & r1 & -> & H1). cbn [fst].
  assert (E : existsb (Z.eqb (timeSlider_value s1)) (cursorIndices s1) = true).
  { destruct H1 as [[E ->] | (_ & Hi & Hc & _)]; [exact E |].
    rewrite Hi, Hc, existsb_app. cbn [existsb]. rewrite Z.eqb_refl, !orb_true_r.
    reflexivity. }
  destruct (handleSnapshots_cases s1) as (s2 & r2 & -> & [[_ ->] | (E' & _)]);
    [reflexivity |].
  rewrite E in E'. discriminate.
Qed.

(** X11.  Whatever happens on the page, no sample index is recorded twice
    in [cursorIndices] and there are never more thumbnails than recorded
    indices; and a second snapshot click right after the first changes
    nothing at all. *)
Theorem snapshots_stay_recorded (es : list (@event num)) (s : @App num) :
  snapshots_recorded s ->
  snapshots_recorded (run es s) /\
  dispatch (dispatch (run es s) SnapshotClick) SnapshotClick
  = dispatch (run es s) SnapshotClick.
Proof.
  intros H. split; [| apply snapshot_click_twice].
  revert H. apply run_respects, handle_respects_snapshots.
Qed.
End SnapshotInvariant.

Section PlayAtEnd.
Context {num : Type} {JN : JSNumber num} {JM : JSMath num}.
Local Open Scope Z_scope.

(** X12.  On a page that shows a loaded record, the slider's range set
    for it, and whose last sample can be shown: pressing Play with the
    slider on the last sample (the speed not negative) does not start
    playback over.  The click sets the controller playing and requests a
    frame, and that frame leaves the index on the last sample and stops
    the controller again, with no frame pending. *)
Theorem play_at_the_end_stops (s : @App num) (d : @Trajectory num) :
  data s = Some d -> timeSlider_max s = len (t d) - 1 -> 1 <= len (t d) ->
  drawable d (Z.to_nat (len (t d) - 1)) = true ->
  playing s = false -> timeSlider_value s = len (t d) - 1 -> 0 <= speed_of s ->
  let s1 := dispatch s PlayPauseClick in
  let s2 := dispatch s1 AnimationFrame in
  playing s1 = true /\ rafId s1 = true /\
  timeSlider_value s2 = len (t d) - 1 /\ playing s2 = false /\ rafId s2 = false /\
  data s2 = Some d.
Proof.
  intros Hd Hm HN Hc Hp Hi Hs. cbv zeta.
  assert (C : let s1 := dispatch s PlayPauseClick in
              playing s1 = true /\ rafId s1 = true /\ data s1 = Some d /\
              timeSlider_value s1 = len (t d) - 1 /\ speed_of s1 = speed_of s /\
              timeSlider_max s1 = len (t d) - 1).
  { unfold dispatch, speed_of. cbn [handle].
    unfold playPause_click, bindM, modify, get, ret. cbn. rewrite Hp. cbn.
    repeat split; assumption. }
  cbv zeta in C. destruct C as (C1 & C2 & C3 & C4 & C5 & C6).
  split; [exact C1 |]. split; [exact C2 |].
  assert (I : Z.max 0 (Z.min (len (t d) - 1)
                         (timeSlider_value (dispatch s PlayPauseClick)
                          + speed_of (dispatch s PlayPauseClick)))
              = len (t d) - 1) by (rewrite C4, C5; lia).
  pose proof (@frame_playing _ _ _ (dispatch s PlayPauseClick) d C3 C6 HN C1 C2) as F.
  cbv zeta in F. rewrite I in F.
  destruct (F Hc) as (F1 & _ & _ & F4 & F5 & F6).
  rewrite F1, F4, F5, F6.
  replace (len (t d) - 1 >=? len (t d) - 1) with true by (symmetry; apply Z.geb_le; lia).
  repeat split; assumption.
Qed.
End PlayAtEnd.

Section UnusableRecord.
Context {num : Type} {JN : JSNumber num} {JM : JSMath num}.
Local Open Scope string_scope.

(** Setting the slider's maximum and then its value to 0 leaves it at 0
    whatever the maximum is. *)
Lemma slider_reset (m : Z) (a : @App num) :
  assign_timeSlider_value (Some 0%Z) (assign_timeSlider_max m a)
  = set_timeSlider_value 0%Z (set_timeSlider_max m a).
Proof.
  unfold assign_timeSlider_value, assign_timeSlider_max, range_value. cbn.
  destruct (Z.ltb_spec m 0); [reflexivity |].
  replace (Z.max 0 (Z.min m 0)) with 0%Z by lia. reflexivity.
Qed.

(** X13.  A record whose first time entry is missing (an empty record, a
    file without a [t] column) is reported as a failed load, yet it has
    replaced the data by then: [setData] assigns [data] and the slider's
    range and value before it reads [data.t[0]], so after the alert the
    page holds the new record, the slider's maximum is its length minus
    one and its value 0, and everything else (plots, 3D view, snapshots,
    the playing flag) is as before. *)
Theorem load_without_first_time (s : @App num) (r : @Trajectory num) :
  (forall t0, nth_error (t r) 0 <> Some (Num t0)) ->
  let d := with_euler r (computeEulerAll (quat r)) in
  exists msg,
    dispatch s (FileSettled (Returned r))
    = set_alerts (alerts s ++ ["Failed to load file: " ++ msg])
        (set_timeSlider_value 0%Z
           (set_timeSlider_max (len (t r) - 1)%Z (set_data (Some d) s))).
Proof.
  intros H. cbv zeta. unfold dispatch. cbn [handle].
  unfold fileInput_change, try_catch, setData. cbv zeta.
  unfold bindM at 1, lift at 1. cbv beta iota.
  unfold bindM at 1, modify at 1. cbv beta iota.
  unfold bindM at 1, modify at 1. cbv beta iota.
  unfold bindM at 1, modify at 1. cbv beta iota.
  unfold bindM at 1.
  change (t (with_euler r (computeEulerAll (quat r)))) with (t r).
  rewrite slider_reset.
  destruct (nth_error (t r) 0) as [[| t0] |] eqn:E.
  - eexists. cbn. reflexivity.
  - exfalso. exact (H t0 eq_refl).
  - eexists. cbn. reflexivity.
Qed.
End UnusableRecord.

(** The integer nearest to a real number. *)
Lemma nearest_exact (r : R) : nearest (Exact.XFin r) = Some (Exact.floor (r + / 2)).
Proof. reflexivity. Qed.

Section Clicks.
Import Exact ExactFacts.
Local Open Scope R_scope.

Lemma floor_mono (x y : R) : x <= y -> (floor x <= floor y)%Z.
Proof.
  intros H. pose proof (floor_spec x) as Fx. pose proof (floor_spec y) as Fy.
  assert (L : IZR (floor x) < IZR (floor y + 1)) by (rewrite plus_IZR; lra).
  apply lt_IZR in L. lia.
Qed.

Lemma floor_half (k : Z) : floor (IZR k + / 2) = k.
Proof. apply floor_IZR. lra. Qed.

Lemma Math_min_exact (a b : R) : Math_min (XFin a) (XFin b) = XFin (Rmin a b).
Proof.
  unfold Math_min, isNaN, is_negative_zero. cbn.
  rewrite !Reqb_true by reflexivity. cbn.
  unfold Rmin. destruct (Rle_dec a b) as [Hab | Hab].
  - destruct (Rlt_dec a b) as [Hlt | Hlt].
    + rewrite Rltb_true by exact Hlt. reflexivity.
    + assert (a = b) by lra. subst b.
      rewrite !Rltb_false by lra.
      destruct (_ && _); reflexivity.
  - rewrite Rltb_false, Rltb_true by lra. reflexivity.
Qed.

Lemma Math_max_exact (a b : R) : Math_max (XFin a) (XFin b) = XFin (Rmax a b).
Proof.
  unfold Math_max, isNaN, is_negative_zero. cbn.
  rewrite !Reqb_true by reflexivity. cbn.
  unfold Rmax. destruct (Rle_dec a b) as [Hab | Hab].
  - destruct (Rlt_dec a b) as [Hlt | Hlt].
    + rewrite Rltb_true by exact Hlt. reflexivity.
    + assert (a = b) by lra. subst b.
      rewrite !Rltb_false by lra.
      destruct (_ && _); reflexivity.
  - rewrite Rltb_false, Rltb_true by lra. reflexivity.
Qed.

Lemma Rmin_IZR (a b : Z) : Rmin (IZR a) (IZR b) = IZR (Z.min a b).
Proof.
  unfold Rmin. destruct (Rle_dec (IZR a) (IZR b)) as [H | H].
  - apply le_IZR in H. rewrite Z.min_l by exact H. reflexivity.
  - assert (H' : IZR b < IZR a) by lra. apply lt_IZR in H'.
    rewrite Z.min_r by lia. reflexivity.
Qed.

Lemma Rmax_IZR (a b : Z) : Rmax (IZR a) (IZR b) = IZR (Z.max a b).
Proof.
  unfold Rmax. destruct (Rle_dec (IZR a) (IZR b)) as [H | H].
  - apply le_IZR in H. rewrite Z.max_r by exact H. reflexivity.
  - assert (H' : IZR b < IZR a) by lra. apply lt_IZR in H'.
    rewrite Z.max_l by lia. reflexivity.
Qed.

(** The index [handlePlotClick] computes, in real numbers. *)
Lemma clicked_exact (d : @Trajectory xnum) (cx left w : R) :
  w <> 0 ->
  clicked d (XFin cx) (XFin left) (XFin w)
  = XFin (IZR (Z.max 0 (Z.min (len (t d) - 1)
                              (floor ((cx + - left) / w * IZR (len (t d) - 1) + / 2))))).
Proof.
  intros Hw. unfold clicked. cbn. rewrite Reqb_false by exact Hw.
  cbn [round mul].
  rewrite Math_min_exact, Rmin_IZR.
  change (XFin 0) with (XFin (IZR 0)).
  rewrite Math_max_exact, Rmax_IZR. reflexivity.
Qed.

Lemma clicked_index_exact (d : @Trajectory xnum) (cx left w : R) :
  w <> 0 -> (1 <= len (t d))%Z ->
  clicked_index d (XFin cx) (XFin left) (XFin w)
  = Z.max 0 (Z.min (len (t d) - 1)
                   (floor ((cx + - left) / w * IZR (len (t d) - 1) + / 2))).
Proof.
  intros Hw HN. unfold clicked_index. rewrite clicked_exact by exact Hw.
  rewrite nearest_exact, floor_half.
  rewrite range_value_some by lia. lia.
Qed.

(** X14.  In exact arithmetic, on a page that shows a record of at least
    two samples, the slider's range set for it, and for a plot whose left
    edge is at [left] and whose width [w] is positive: a click selects an
    index that is always within the data, that grows with the abscissa of
    the click, that is the first sample for a click at or left of the
    plot's left edge and the last for a click at or right of its right
    edge; and every sample [i] is the one selected by a click at
    [left + i * w / (N - 1)]. *)
Theorem plot_click_selects (s : @App xnum) (d : @Trajectory xnum) (left w : R) :
  data s = Some d -> timeSlider_max s = (len (t d) - 1)%Z ->
  (2 <= len (t d))%Z -> 0 < w ->
  let N := len (t d) in
  let chosen (cx : R) :=
    timeSlider_value (dispatch s (PlotClick (XFin cx) (XFin left) (XFin w))) in
  (forall cx, (0 <= chosen cx <= N - 1)%Z) /\
  (forall cx cy, cx <= cy -> (chosen cx <= chosen cy)%Z) /\
  (forall cx, cx <= left -> chosen cx = 0%Z) /\
  (forall cx, left + w <= cx -> chosen cx = (N - 1)%Z) /\
  (forall i, (0 <= i <= N - 1)%Z -> chosen (left + IZR i * w / IZR (N - 1)) = i).
Proof.
  intros Hd Hm HN Hw. cbv zeta.
  assert (Hw0 : w <> 0) by lra.
  assert (E : forall cx,
             timeSlider_value (dispatch s (PlotClick (XFin cx) (XFin left) (XFin w)))
             = Z.max 0 (Z.min (len (t d) - 1)
                              (floor ((cx + - left) / w * IZR (len (t d) - 1) + / 2)))).
  { intros cx.
    destruct (@plot_click_keeps_state _ _ _ s d (XFin cx) (XFin left) (XFin w) Hd)
      as (H1 & _).
    rewrite H1, Hm. fold (clicked_index d (XFin cx) (XFin left) (XFin w)).
    apply clicked_index_exact; [exact Hw0 | lia]. }
  assert (Hn : 1 <= IZR (len (t d) - 1)) by (apply IZR_le; lia).
  assert (Hi : 0 < / w) by (apply Rinv_0_lt_compat; exact Hw).
  assert (Mono : forall x y, x <= y ->
            (x + - left) / w * IZR (len (t d) - 1) + / 2
            <= (y + - left) / w * IZR (len (t d) - 1) + / 2).
  { intros x y Hxy. unfold Rdiv.
    assert (0 <= (y - x) * (/ w * IZR (len (t d) - 1))).
    { apply Rmult_le_pos; [lra |]. apply Rmult_le_pos; lra. }
    lra. }
  repeat split.
  - rewrite E. lia.
  - rewrite E. lia.
  - intros cx cy Hxy. rewrite !E.
    pose proof (floor_mono (Mono cx cy Hxy)). lia.
  - intros cx Hx. rewrite E.
    pose proof (floor_mono (Mono cx left Hx)) as F.
    replace ((left + - left) / w * IZR (len (t d) - 1) + / 2) with (IZR 0 + / 2) in F
      by (field; exact Hw0).
    rewrite floor_half in F. lia.
  - intros cx Hx. rewrite E.
    pose proof (floor_mono (Mono (left + w) cx Hx)) as F.
    replace ((left + w + - left) / w * IZR (len (t d) - 1) + / 2)
      with (IZR (len (t d) - 1) + / 2) in F by (field; exact Hw0).
    rewrite floor_half in F. lia.
  - intros i Hi'. rewrite E.
    replace ((left + IZR i * w / IZR (len (t d) - 1) + - left) / w
             * IZR (len (t d) - 1) + / 2)
      with (IZR i + / 2) by (field; split; lra).
    rewrite floor_half. lia.
Qed.
End Clicks.

(** The theorems of this part on the sample page. *)

Lemma label_always_shows_state_witness :
  label_shows_state
    (run (JM:=math_nan)
         [FileSettled (Returned flight_100); PlayPauseClick; AnimationFrame;
          PlotClick (ofZ 330) (ofZ 300) (ofZ 100); SliderInput 7; SnapshotClick;
          PlayPauseClick]
         page_at_start).
Proof.
  apply label_always_shows_state. reflexivity.
Defined.

Lemma snapshots_stay_recorded_witness :
  snapshots_recorded
    (run (JM:=math_nan)
         [SliderInput 7; SnapshotClick; SnapshotClick; SliderInput 9; SnapshotClick]
         page_100) /\
  dispatch (JM:=math_nan)
    (dispatch (JM:=math_nan)
       (run (JM:=math_nan)
            [SliderInput 7; SnapshotClick; SnapshotClick; SliderInput 9; SnapshotClick]
            page_100) SnapshotClick) SnapshotClick
  = dispatch (JM:=math_nan)
      (run (JM:=math_nan)
           [SliderInput 7; SnapshotClick; SnapshotClick; SliderInput 9; SnapshotClick]
           page_100) SnapshotClick.
Proof.
  apply snapshots_stay_recorded.
  split; [vm_compute; constructor | vm_compute; lia].
Defined.

Lemma play_at_the_end_stops_witness :
  let s1 := dispatch (JM:=math_nan) page_100_end PlayPauseClick in
  let s2 := dispatch (JM:=math_nan) s1 AnimationFrame in
  playing s1 = true /\ rafId s1 = true /\
  timeSlider_value s2 = (len (t shown_100) - 1)%Z /\ playing s2 = false /\
  rafId s2 = false /\ data s2 = Some shown_100.
Proof.
  apply (@play_at_the_end_stops _ _ math_nan page_100_end shown_100);
    vm_compute; first [reflexivity | discriminate].
Defined.

Lemma load_without_first_time_witness :
  let r := loadCSV Number_sample "t,x,y,z,vx,vy,vz,qw,qx,qy,qz"%string in
  let d := with_euler r (computeEulerAll (JM:=math_nan) (quat r)) in
  exists msg,
    dispatch (JM:=math_nan) page_100 (FileSettled (Returned r))
    = set_alerts (alerts page_100 ++ ["Failed to load file: " ++ msg]%string)
        (set_timeSlider_value 0%Z
           (set_timeSlider_max (len (t r) - 1)%Z (set_data (Some d) page_100))).
Proof.
  apply (@load_without_first_time _ _ math_nan page_100
           (loadCSV Number_sample "t,x,y,z,vx,vy,vz,qw,qx,qy,qz"%string)).
  intros t0. vm_compute. discriminate.
Defined.

(** A plot 600 wide whose left edge is at 300, over the 46 samples. *)
Lemma plot_click_selects_witness :
  let N := len (t times_46) in
  let chosen (cx : R) :=
    timeSlider_value (dispatch page_46 (PlotClick (Exact.XFin cx) (Exact.XFin 300)
                                                  (Exact.XFin 600))) in
  (forall cx, (0 <= chosen cx <= N - 1)%Z) /\
  (forall cx cy, (cx <= cy)%R -> (chosen cx <= chosen cy)%Z) /\
  (forall cx, (cx <= 300)%R -> chosen cx = 0%Z) /\
  (forall cx, (300 + 600 <= cx)%R -> chosen cx = (N - 1)%Z) /\
  (forall i, (0 <= i <= N - 1)%Z -> chosen (300 + IZR i * 600 / IZR (N - 1))%R = i).
Proof.
  apply (@plot_click_selects page_46 times_46 300 600).
  - reflexivity.
  - reflexivity.
  - vm_compute. discriminate.
  - lra.
Defined.

(** On binary64 the product that is rounded can fall just below a half
    that the real product reaches: with 46 samples, a click at 7 of a
    plot 10 wide computes 0.7 * 45 = 31.499999999999996 and selects sample
    31, where the real 31.5 selects 32. *)
Example plot_click_binary64 :
  clicked_index (JM:=math_nan) flight_46 (ofZ 7) (ofZ 0) (ofZ 10) = 31%Z /\
  clicked_index times_46 (Exact.XFin 7) (Exact.XFin 0) (Exact.XFin 10) = 32%Z.
Proof.
  split; [vm_compute; reflexivity |].
  rewrite clicked_index_exact by (try lra; vm_compute; discriminate).
  replace (len (t times_46) - 1)%Z with 45%Z by (vm_compute; reflexivity).
  replace ((7 + - 0) / 10 * 45 + / 2)%R with (IZR 32) by lra.
  rewrite (@floor_IZR 32 (IZR 32)) by lra. reflexivity.
Qed.

(** ** threeview.js: the camera, the navball and the thumbnails *)

Section CameraFollow.
Import ExactFacts.
Local Open Scope R_scope.

Lemma lit_quarter : lit 25 100 = Exact.XFin (25 / 100).
Proof. unfold lit. cbn. rewrite Reqb_false by lra. reflexivity. Qed.

Lemma follow_once (ctx : @ThreeCtx Exact.xnum) (px py pz cx cy cz : R)
      (q : list (value Exact.xnum)) :
  cam_position (camera ctx) = inject (mkV3 cx cy cz) ->
  let p := [Num (Exact.XFin px); Num (Exact.XFin py); Num (Exact.XFin pz)] in
  let ctx' := fst (updateThreePose ctx (Some p) (Some q)) in
  snd (updateThreePose ctx (Some p) (Some q)) = Returned tt /\
  rocket ctx' = mkPose (mkV3 (Num (Exact.XFin px)) (Num (Exact.XFin py)) (Num (Exact.XFin pz))) (quat_of_array q) /\
  rocket_matrixWorld ctx' = rocket ctx' /\
  cam_target (camera ctx') = (mkV3 (Num (Exact.XFin px)) (Num (Exact.XFin py)) (Num (Exact.XFin pz))) /\
  cam_aspect (camera ctx') = cam_aspect (camera ctx) /\
  cam_position (camera ctx')
  = inject (mkV3 (px + 6 + 3 / 4 * (cx - (px + 6)))
                 (py + 6 + 3 / 4 * (cy - (py + 6)))
                 (pz + 4 + 3 / 4 * (cz - (pz + 4)))) /\
  (renderTarget ctx = Screen ->
   renderTarget ctx' = Screen /\ canvas ctx' = mkFrame (rocket ctx') (camera ctx')).
Proof.
  intros Hc. cbv zeta. unfold updateThreePose. cbn [fst snd].
  unfold render, render_with, set_camera, set_rocket, updateCameraFollow, lerp.
  cbn [rocket camera rocket_matrixWorld renderTarget canvas cam_position cam_target
       cam_aspect position quaternion].
  rewrite Hc, lit_quarter. unfold inject, position_set, Vector3_set, at_. cbn.
  repeat split.
  - f_equal; f_equal; field.
  - now rewrite H.
  - now rewrite H.
Qed.

(** X15.  In exact arithmetic, [updateThreePose] called [k] times with the
    same position and orientation leaves the camera at the followed point,
    the rocket's position plus (6, 6, 4), plus (3/4)^k times the offset the
    camera started with from that point: each call closes a quarter of
    the remaining gap.  From the first call on the rocket has the given
    pose, the renderer's world matrix agrees with it and the camera looks
    at the rocket. *)
Theorem camera_settles_on_the_rocket (ctx : @ThreeCtx Exact.xnum)
        (px py pz cx cy cz : R) (q : list (value Exact.xnum)) (k : nat) :
  cam_position (camera ctx) = inject (mkV3 cx cy cz) ->
  let p := [Num (Exact.XFin px); Num (Exact.XFin py); Num (Exact.XFin pz)] in
  let ctx' := Nat.iter k (fun c => fst (updateThreePose c (Some p) (Some q))) ctx in
  cam_position (camera ctx')
  = inject (mkV3 (px + 6 + (3 / 4) ^ k * (cx - (px + 6)))
                 (py + 6 + (3 / 4) ^ k * (cy - (py + 6)))
                 (pz + 4 + (3 / 4) ^ k * (cz - (pz + 4)))) /\
  ((1 <= k)%nat ->
   rocket ctx' = mkPose (mkV3 (Num (Exact.XFin px)) (Num (Exact.XFin py)) (Num (Exact.XFin pz))) (quat_of_array q) /\
   rocket_matrixWorld ctx' = rocket ctx' /\
   cam_target (camera ctx') = (mkV3 (Num (Exact.XFin px)) (Num (Exact.XFin py)) (Num (Exact.XFin pz)))).
Proof.
  intros Hc. cbv zeta. induction k as [| k [IH _]].
  - cbn. split; [| lia]. rewrite Hc. unfold inject. cbn. f_equal; f_equal; ring.
  - rewrite Nat.iter_succ.
    destruct (@follow_once _ px py pz _ _ _ q IH) as (_ & F1 & F2 & F3 & _ & F5 & _).
    split; [| intros _; repeat split; assumption].
    rewrite F5. unfold inject. cbn [v3x v3y v3z]. f_equal; f_equal; cbn [pow]; ring.
Qed.

Lemma camera_settles_on_the_rocket_witness :
  let p := [Num (Exact.XFin 0); Num (Exact.XFin 0); Num (Exact.XFin 10)] in
  let ctx' := Nat.iter 3 (fun c => fst (updateThreePose c (Some p) (Some gimbal_quat)))
                       (setupThree (Exact.XFin (3 / 2))) in
  cam_position (camera ctx')
  = inject (mkV3 (0 + 6 + (3 / 4) ^ 3 * (6 - (0 + 6)))
                 (0 + 6 + (3 / 4) ^ 3 * (6 - (0 + 6)))
                 (10 + 4 + (3 / 4) ^ 3 * (6 - (10 + 4)))) /\
  ((1 <= 3)%nat ->
   rocket ctx' = mkPose (mkV3 (Num (Exact.XFin 0)) (Num (Exact.XFin 0)) (Num (Exact.XFin 10))) (quat_of_array gimbal_quat) /\
   rocket_matrixWorld ctx' = rocket ctx' /\
   cam_target (camera ctx') = (mkV3 (Num (Exact.XFin 0)) (Num (Exact.XFin 0)) (Num (Exact.XFin 10)))).
Proof.
  apply (@camera_settles_on_the_rocket (setupThree (Exact.XFin (3 / 2)))
           0 0 10 6 6 6 gimbal_quat 3).
  reflexivity.
Defined.
End CameraFollow.

Section NavballFacts.
Import ExactFacts.
Local Open Scope R_scope.

(** What [normalize] makes of a quaternion of real components: the
    identity when its length is 0, and otherwise the quaternion divided by
    its length, which has length 1. *)
Lemma vehicleQ_normalized (w x y z : R) :
  let n := sqrt (x * x + y * y + z * z + w * w) in
  exists qx qy qz qw : R,
    vehicleQ (exact_quat w x y z) = exact_Q4 qw qx qy qz /\
    (n = 0 -> qx = 0 /\ qy = 0 /\ qz = 0 /\ qw = 1) /\
    (n <> 0 -> qx * n = x /\ qy * n = y /\ qz * n = z /\ qw * n = w) /\
    qx * qx + qy * qy + qz * qz + qw * qw = 1.
Proof.
  cbv zeta.
  unfold vehicleQ, normalize, quat_length, exact_quat, exact_Q4. cbn.
  rewrite Rltb_false by nra. cbn.
  set (S := x * x + y * y + z * z + w * w).
  assert (HS : 0 <= S) by (subst S; nra).
  destruct (Req_dec_T (sqrt S) 0) as [E | E].
  - rewrite Reqb_true by exact E. exists 0, 0, 0, 1. split; [reflexivity |].
    split; [intros _; repeat split; reflexivity |].
    split; [intros N; contradiction | ring].
  - rewrite Reqb_false by exact E. cbn.
    eexists _, _, _, _. split; [reflexivity |].
    split; [intros N; contradiction |].
    split; [intros _; repeat split; field; exact E |].
    assert (L : sqrt S * sqrt S = S) by (apply sqrt_sqrt; exact HS).
    set (l := sqrt S) in *.
    transitivity (S / (l * l)); [subst S; field; exact E | rewrite L; field].
    intros S0. apply E. subst l. rewrite S0. apply sqrt_0.
Qed.

Lemma rotate_back (qx qy qz qw vx vy vz : R) :
  qx * qx + qy * qy + qz * qz + qw * qw = 1 ->
  applyQuaternion
    (applyQuaternion (inject (mkV3 vx vy vz)) (exact_Q4 qw qx qy qz))
    (invert (exact_Q4 qw qx qy qz))
  = inject (mkV3 vx vy vz) /\
  applyQuaternion
    (applyQuaternion (inject (mkV3 vx vy vz)) (invert (exact_Q4 qw qx qy qz)))
    (exact_Q4 qw qx qy qz)
  = inject (mkV3 vx vy vz).
Proof.
  intros U. unfold applyQuaternion, invert, exact_Q4, inject. cbn.
  split; f_equal; f_equal; nsatz.
Qed.

(** X16.  In exact arithmetic, for every quaternion (w, x, y, z) of real
    components, of length n = sqrt (x^2 + y^2 + z^2 + w^2),
    [updateNavball] takes as the vehicle's orientation the identity when
    n = 0 and otherwise the quaternion divided by n, a unit quaternion,
    and gives the navball the inverse of that: turning a vector by the
    vehicle's orientation and then by the navball's, or the other way
    round, gives the vector back. *)
Theorem navball_undoes_vehicle (ctx : @NavballCtx Exact.xnum)
        (vel : list (value Exact.xnum)) (w x y z : R) :
  let n := sqrt (x * x + y * y + z * z + w * w) in
  exists qx qy qz qw : R,
    vehicleQ (exact_quat w x y z) = exact_Q4 qw qx qy qz /\
    (n = 0 -> qx = 0 /\ qy = 0 /\ qz = 0 /\ qw = 1) /\
    (n <> 0 -> qx * n = x /\ qy * n = y /\ qz * n = z /\ qw * n = w) /\
    qx * qx + qy * qy + qz * qz + qw * qw = 1 /\
    navballGroup_quaternion (updateNavball ctx vel (exact_quat w x y z))
    = invert (exact_Q4 qw qx qy qz) /\
    forall v : V3 R,
      applyQuaternion (applyQuaternion (inject v) (exact_Q4 qw qx qy qz))
                      (invert (exact_Q4 qw qx qy qz)) = inject v /\
      applyQuaternion (applyQuaternion (inject v) (invert (exact_Q4 qw qx qy qz)))
                      (exact_Q4 qw qx qy qz) = inject v.
Proof.
  cbv zeta.
  destruct (vehicleQ_normalized w x y z) as (qx & qy & qz & qw & E & Z0 & Z1 & U).
  exists qx, qy, qz, qw. split; [exact E |]. split; [exact Z0 |].
  split; [exact Z1 |]. split; [exact U |]. split.
  - unfold updateNavball. rewrite E.
    destruct (isFinite _ && gt _ _); reflexivity.
  - intros [vx vy vz]. apply rotate_back, U.
Qed.

Lemma lit_exact (n d : Z) : IZR d <> 0 -> lit n d = Exact.XFin (IZR n / IZR d).
Proof. intros H. unfold lit. cbn. rewrite Reqb_false by exact H. reflexivity. Qed.

(** X17.  In exact arithmetic, for a velocity and a quaternion of real
    components, [updateNavball] shows the length of the velocity as the
    speed; at a speed of at most 1e-6 it hides both markers and leaves
    them where they were; above it, it puts the prograde and retrograde
    markers on opposite points of the sphere of radius 5 * 1.01 and shows
    the prograde one exactly when it lies on the viewer's side (z > 0),
    the retrograde one exactly when the prograde lies on the far side
    (z < 0): never both. *)
Theorem navball_markers (ctx : @NavballCtx Exact.xnum) (vx vy vz w x y z : R) :
  let ctx' := updateNavball ctx [Num (Exact.XFin vx); Num (Exact.XFin vy); Num (Exact.XFin vz)]
                            (exact_quat w x y z) in
  let speed := sqrt (vx * vx + vy * vy + vz * vz) in
  speedText ctx' = Exact.XFin speed /\
  (speed <= 1 / 1000000 ->
   progradeMarker ctx' = mkMarker (marker_position (progradeMarker ctx)) false /\
   retrogradeMarker ctx' = mkMarker (marker_position (retrogradeMarker ctx)) false) /\
  (1 / 1000000 < speed ->
   exists px py pz : R,
     marker_position (progradeMarker ctx') = inject (mkV3 px py pz) /\
     marker_position (retrogradeMarker ctx') = inject (mkV3 (- px) (- py) (- pz)) /\
     px * px + py * py + pz * pz = (5 * (101 / 100)) * (5 * (101 / 100)) /\
     (marker_visible (progradeMarker ctx') = true <-> 0 < pz) /\
     (marker_visible (retrogradeMarker ctx') = true <-> pz < 0)).
Proof.
  cbv zeta.
  destruct (vehicleQ_normalized w x y z) as (qx & qy & qz & qw & E & _ & _ & U).
  set (S := vx * vx + vy * vy + vz * vz).
  assert (HS : 0 <= S) by (subst S; nra).
  assert (V : vec_length (mkV3 (Exact.XFin vx) (Exact.XFin vy) (Exact.XFin vz))
              = Exact.XFin (sqrt S)).
  { unfold vec_length. cbn. rewrite Rltb_false by (fold S; lra). reflexivity. }
  unfold updateNavball. rewrite E.
  unfold at_. cbn [nth_error or_default].
  rewrite V. unfold gt. rewrite (lit_exact 1 1000000) by lra.
  cbn [isFinite Exact.number Exact.isFinite lt Exact.lt andb].
  split; [| split].
  - destruct (Exact.Rltb _ _); reflexivity.
  - intros Hs. rewrite Rltb_false by lra. split; reflexivity.
  - intros Hs. rewrite Rltb_true by lra.
    assert (L : sqrt S * sqrt S = S) by (apply sqrt_sqrt; exact HS).
    set (l := sqrt S) in *.
    assert (Hl : l <> 0) by lra.
    rewrite (lit_exact 101 100) by lra.
    unfold divideScalar, multiplyScalar, negate, applyQuaternion, invert, exact_Q4,
      NAVBALL_RADIUS.
    cbn. rewrite Reqb_false by exact Hl. cbn.
    eexists _, _, _. split; [reflexivity |].
    split; [unfold inject; cbn; f_equal; f_equal; ring |].
    split; [| split].
    + set (ux := vx * (1 / l)). set (uy := vy * (1 / l)). set (uz := vz * (1 / l)).
      assert (Un : ux * ux + uy * uy + uz * uz = 1).
      { subst ux uy uz. transitivity (S / (l * l)); [subst S; field; exact Hl |].
        rewrite L. field. intros S0. rewrite S0 in L. nra. }
      nsatz.
    + match goal with
      | |- Exact.Rltb 0 ?a = true <-> _ => generalize a; intros dz
      end.
      rewrite Rltb_spec. lra.
    + match goal with
      | |- Exact.Rltb 0 ?b = true <-> ?a * _ < 0 =>
          assert (N : b = - a) by ring; rewrite N; generalize a; intros dz
      end.
      rewrite Rltb_spec. lra.
Qed.
End NavballFacts.

Lemma skipn_repeat_sub {A : Type} (x : A) (n m : nat) :
  skipn n (repeat x m) = repeat x (m - n).
Proof.
  revert m. induction n as [| n IH]; intros m; [rewrite Nat.sub_0_r; reflexivity |].
  destruct m as [| m]; [reflexivity |]. cbn. apply IH.
Qed.

Section FlipFacts.
Variable A : Type.
Variables (w h : nat) (zero : A) (data : list A).
Hypothesis data_length : List.length data = (w * h * 4)%nat.

Let L := (w * 4)%nat.

(** Row [i] of the picture. *)
Let row_of (i : nat) : list A := slice data (i * w * 4) (i * w * 4 + w * 4).

Lemma row_length (i : nat) : (i < h)%nat -> List.length (row_of i) = L.
Proof.
  intros Hi. unfold row_of, slice, L.
  rewrite length_firstn, length_skipn, data_length. nia.
Qed.

Lemma row_nth (i k : nat) (d : A) :
  (k < L)%nat -> nth k (row_of i) d = nth (i * L + k) data d.
Proof.
  intros Hk. unfold row_of, slice, L in *.
  replace (i * w * 4 + w * 4 - i * w * 4)%nat with (w * 4)%nat by lia.
  rewrite nth_firstn.
  replace (k <? w * 4)%nat with true by (symmetry; apply Nat.ltb_lt; exact Hk).
  rewrite nth_skipn. f_equal. lia.
Qed.

(** The rows written after [r] turns of the loop. *)
Let written (r : nat) : list A :=
  List.concat (map (fun j => row_of (h - 1 - j)) (List.seq 0 r)).

Lemma written_length (r : nat) : (r <= h)%nat -> List.length (written r) = (r * L)%nat.
Proof.
  unfold written. induction r as [| r IH]; intros Hr; [reflexivity |].
  rewrite seq_S, map_app, concat_app, length_app, IH by lia.
  cbn [map List.concat Nat.add]. rewrite app_nil_r, row_length by lia. lia.
Qed.

Lemma loop_invariant (r : nat) :
  (r <= h)%nat ->
  fold_left (flip_row w h data) (List.seq 0 r) (Returned (repeat zero (w * h * 4)))
  = Returned (written r ++ repeat zero ((h - r) * L)).
Proof.
  induction r as [| r IH]; intros Hr.
  - cbn. unfold L. f_equal. f_equal. lia.
  - rewrite seq_S, fold_left_app, IH by lia. cbn [fold_left Nat.add].
    unfold flip_row. cbn [bind].
    fold (row_of (h - 1 - r)).
    unfold set_from.
    assert (Hw := written_length (r:=r) ltac:(lia)).
    assert (Hrow := row_length (i:=h - 1 - r) ltac:(lia)).
    replace (r * w * 4)%nat with (r * L)%nat by (unfold L; lia).
    rewrite Hrow, length_app, Hw, repeat_length.
    replace (r * L + L <=? r * L + (h - r) * L)%nat with true
      by (symmetry; apply Nat.leb_le; nia).
    f_equal.
    rewrite firstn_app, Hw, Nat.sub_diag, firstn_O, app_nil_r.
    rewrite firstn_all2 by lia.
    rewrite skipn_app, Hw.
    rewrite (skipn_all2 (n:=r * L + L)) by lia.
    replace (r * L + L - r * L)%nat with L by lia.
    rewrite skipn_repeat_sub. cbn [app].
    unfold written at 2. rewrite seq_S, map_app, concat_app. cbn [map List.concat Nat.add].
    rewrite app_nil_r. fold (written r). rewrite <- app_assoc.
    f_equal. f_equal. f_equal. nia.
Qed.

Lemma flipY_rows : flipY w h zero data = Returned (written h).
Proof.
  unfold flipY. rewrite loop_invariant by lia.
  rewrite Nat.sub_diag. cbn. rewrite app_nil_r. reflexivity.
Qed.

Lemma written_nth (r i k : nat) (d : A) :
  (r <= h)%nat -> (i < r)%nat -> (k < L)%nat ->
  nth (i * L + k) (written r) d = nth ((h - 1 - i) * L + k) data d.
Proof.
  induction r as [| r IH]; intros Hr Hi Hk; [lia |].
  unfold written. rewrite seq_S, map_app, concat_app. cbn [map List.concat Nat.add].
  rewrite app_nil_r. fold (written r).
  assert (Hw := written_length (r:=r) ltac:(lia)).
  destruct (Nat.eq_dec i r) as [-> | Hne].
  - rewrite app_nth2 by (rewrite Hw; lia).
    rewrite Hw. replace (r * L + k - r * L)%nat with k by lia.
    apply row_nth, Hk.
  - rewrite app_nth1 by (rewrite Hw; nia).
    apply IH; lia.
Qed.
End FlipFacts.

Section FlipTheorem.
Variable A : Type.

Lemma flipY_spec (w h : nat) (zero : A) (data : list A) :
  List.length data = (w * h * 4)%nat ->
  exists out,
    flipY w h zero data = Returned out /\
    List.length out = (w * h * 4)%nat /\
    forall row k d, (row < h)%nat -> (k < w * 4)%nat ->
      nth (row * (w * 4) + k) out d = nth ((h - 1 - row) * (w * 4) + k) data d.
Proof.
  intros Hd. eexists. split; [apply flipY_rows, Hd |]. split.
  - rewrite written_length by (exact Hd || lia). lia.
  - intros row k d Hr Hk. apply written_nth; (exact Hd || lia).
Qed.

(** X18.  The loop of [addSnapshot] that flips the thumbnail: for a
    picture of [w] by [h] pixels of four bytes each, it never runs out of
    bounds, returns as many bytes as it was given, puts in row [r] of the
    result what row [h - 1 - r] of the picture holds, byte for byte, and
    applied to its own result gives the picture back. *)
Theorem flipY_turns_rows_over (w h : nat) (zero : A) (data : list A) :
  List.length data = (w * h * 4)%nat ->
  exists out,
    flipY w h zero data = Returned out /\
    List.length out = (w * h * 4)%nat /\
    (forall row k d, (row < h)%nat -> (k < w * 4)%nat ->
       nth (row * (w * 4) + k) out d = nth ((h - 1 - row) * (w * 4) + k) data d) /\
    flipY w h zero out = Returned data.
Proof.
  intros Hd.
  destruct (flipY_spec w h zero data Hd) as (out & E & Hl & Hn).
  exists out. split; [exact E |]. split; [exact Hl |]. split; [exact Hn |].
  destruct (flipY_spec w h zero out Hl) as (back & E' & Hl' & Hn').
  rewrite E'. f_equal.
  destruct (Nat.eq_dec (w * 4) 0) as [Z | NZ].
  { assert (List.length back = 0%nat) by lia. assert (List.length data = 0%nat) by lia.
    destruct back, data; cbn in *; try lia. reflexivity. }
  apply nth_ext with (d := zero) (d' := zero); [lia |].
  intros n Hlt. rewrite Hl' in Hlt.
  pose proof (Nat.div_mod_eq n (w * 4)) as D.
  set (i := (n / (w * 4))%nat) in *. set (k := (n mod (w * 4))%nat) in *.
  assert (Hk : (k < w * 4)%nat) by (apply Nat.mod_upper_bound; exact NZ).
  assert (Hi : (i < h)%nat).
  { destruct (Nat.lt_ge_cases i h) as [| Hge]; [assumption |]. nia. }
  replace n with (i * (w * 4) + k)%nat by lia.
  rewrite Hn' by assumption. rewrite Hn by (assumption || lia).
  f_equal. nia.
Qed.
End FlipTheorem.

Lemma flipY_turns_rows_over_witness :
  exists out,
    flipY 1 2 0%nat [1; 2; 3; 4; 5; 6; 7; 8]%nat = Returned out /\
    List.length out = (1 * 2 * 4)%nat /\
    (forall row k d, (row < 2)%nat -> (k < 1 * 4)%nat ->
       nth (row * (1 * 4) + k) out d
       = nth ((2 - 1 - row) * (1 * 4) + k) [1; 2; 3; 4; 5; 6; 7; 8]%nat d) /\
    flipY 1 2 0%nat out = Returned [1; 2; 3; 4; 5; 6; 7; 8]%nat.
Proof.
  apply (@flipY_turns_rows_over nat 1 2 0%nat [1; 2; 3; 4; 5; 6; 7; 8]%nat).
  reflexivity.
Defined.

Section ResizeFacts.
Import ExactFacts.
Local Open Scope R_scope.

(** X19.  In exact arithmetic, the frustum [resize] gives the navball's
    camera is centred (left = -right, bottom = -top = -7.5) and 15 units
    high; its width over its height is the canvas's width over its height
    when the canvas is at least one pixel high, and a lower canvas (one of
    height 0 included) counts as one pixel high, so that nothing is
    divided by zero. *)
Theorem navball_frustum_keeps_aspect (width height : R) :
  exists l r : R,
    navball_resize (Exact.XFin width) (Exact.XFin height)
    = mkFrustum (Exact.XFin l) (Exact.XFin r) (Exact.XFin (15 / 2)) (Exact.XFin (- 15 / 2)) /\
    l = - r /\
    (1 <= height -> r - l = (15 / 2 - - 15 / 2) * (width / height)) /\
    (height < 1 -> r - l = 15 * width).
Proof.
  unfold navball_resize, max_1. cbn.
  rewrite Reqb_true by reflexivity. cbn.
  destruct (Rlt_dec 1 height) as [H | H].
  - rewrite Rltb_true by exact H. cbn.
    rewrite (@Reqb_false height 0) by lra. cbn.
    rewrite (@Reqb_false 2 0) by lra.
    eexists _, _. split; [reflexivity |]. repeat split; intros; try lra; field; lra.
  - rewrite Rltb_false by lra. cbn.
    rewrite (@Reqb_false 1 0) by lra. cbn.
    rewrite (@Reqb_false 2 0) by lra.
    eexists _, _. split; [reflexivity |]. repeat split; intros; try field; try lra.
    assert (height = 1) by lra. subst. field.
Qed.
End ResizeFacts.

Section SnapshotContent.
Context {num : Type} {JN : JSNumber num} {JM : JSMath num}.
Local Open Scope Z_scope.

(** X20.  A snapshot click on a sample that has a number for its time, a
    position and an orientation, and no snapshot yet, records the sample's
    index and appends exactly one thumbnail: the picture of the rocket at
    that sample's position (a z that is missing counting as 0) and
    orientation, taken from where the main camera stands and looks, with
    the aspect ratio 100/80, labelled with that sample's time. *)
Theorem snapshot_click_shows_sample (s : @App num) (d : @Trajectory num)
        (ctx : @ThreeCtx num) (tn : num) (p q : list (value num)) :
  data s = Some d -> three s = Some ctx ->
  nthZ (t d) (timeSlider_value s) = Some (Num tn) ->
  nthZ (pos d) (timeSlider_value s) = Some p ->
  nthZ (quat d) (timeSlider_value s) = Some q ->
  existsb (Z.eqb (timeSlider_value s)) (cursorIndices s) = false ->
  let s' := dispatch s SnapshotClick in
  let z := match at_ p 2 with
           | Undefined => Num (ofZ 0)
           | Num pz => Num pz
           end in
  cursorIndices s' = cursorIndices s ++ [timeSlider_value s] /\
  snapshots s' =
  snapshots s ++
    [mkSnapshot
       (Some (mkFrame (mkPose (mkV3 (at_ p 0) (at_ p 1) z) (quat_of_array q))
                      (mkCamera (cam_position (camera ctx)) (cam_target (camera ctx))
                                (div (ofZ 100) (ofZ 80)))))
       tn].
Proof.
  intros Hd Ht E1 E2 E4 Hn. cbv zeta.
  assert (P : position_set Vector3_new p
              = mkV3 (at_ p 0) (at_ p 1)
                     (match at_ p 2 with
                      | Undefined => Num (ofZ 0)
                      | Num pz => Num pz
                      end)).
  { unfold position_set, Vector3_set, Vector3_new. cbn [v3z].
    destruct (at_ p 2); reflexivity. }
  rewrite <- P.
  split.
  - unfold dispatch. cbn [handle]. unfold handleSnapshots, bindM at 1, get. cbv beta iota.
    rewrite Hn. unfold bindM at 1, modify at 1. cbv beta iota.
    rewrite Hd, Ht, E1, E2, E4.
    unfold addSnapshot. cbn. reflexivity.
  - unfold dispatch. cbn [handle]. unfold handleSnapshots, bindM at 1, get. cbv beta iota.
    rewrite Hn. unfold bindM at 1, modify at 1. cbv beta iota.
    rewrite Hd, Ht, E1, E2, E4.
    unfold addSnapshot. cbn. reflexivity.
Qed.
End SnapshotContent.

(** The theorem on the 100-sample page, at its first sample: the rocket
    on the pad, at the origin and unrotated, at time 0. *)
Lemma snapshot_click_shows_sample_witness :
  let s' := dispatch (JM:=math_nan) page_100 SnapshotClick in
  cursorIndices s' = cursorIndices page_100 ++ [timeSlider_value page_100] /\
  snapshots s' =
  snapshots page_100 ++
    [mkSnapshot
       (Some (mkFrame (mkPose (mkV3 (Num (ofZ 0)) (Num (ofZ 0)) (Num (ofZ 0)))
                              (quat_of_array [Num (ofZ 1); Num (ofZ 0); Num (ofZ 0);
                                              Num (ofZ 0)]))
                      (mkCamera (cam_position (camera scene_100))
                                (cam_target (camera scene_100))
                                (div (ofZ 100) (ofZ 80)))))
       (ofZ 0)].
Proof.
  apply (@snapshot_click_shows_sample _ _ math_nan page_100 shown_100 scene_100
           (ofZ 0) [Num (ofZ 0); Num (ofZ 0); Num (ofZ 0)]
           [Num (ofZ 1); Num (ofZ 0); Num (ofZ 0); Num (ofZ 0)]);
    vm_compute; reflexivity.
Defined.

(** ** main.js: more on [quatToEuler] *)

Section Angles.
Import ExactFacts.
Local Open Scope R_scope.

Lemma sin_zero_near (x : R) : - PI < x < PI -> sin x = 0 -> x = 0.
Proof.
  intros [H1 H2] S.
  destruct (Rtotal_order x 0) as [Hn | [-> | Hp]]; [| reflexivity |].
  - pose proof (sin_lt_0_var x H1 Hn). lra.
  - pose proof (sin_gt_0 x Hp H2). lra.
Qed.

Lemma angle_unique (a b : R) :
  - PI < a <= PI -> - PI < b <= PI -> cos a = cos b -> sin a = sin b -> a = b.
Proof.
  intros Ha Hb C S.
  assert (C1 : cos (a - b) = 1).
  { rewrite cos_minus, C, S. pose proof (sin2_cos2 b) as Q. unfold Rsqr in Q. lra. }
  assert (S0 : sin ((a - b) / 2) = 0).
  { replace (a - b) with (2 * ((a - b) / 2)) in C1 by field.
    rewrite cos_2a_sin in C1.
    assert (sin ((a - b) / 2) * sin ((a - b) / 2) = 0) by lra.
    apply Rmult_integral in H. destruct H; assumption. }
  apply sin_zero_near in S0; lra.
Qed.

Lemma atan2R_sin_cos (a : R) : - PI < a <= PI -> Exact.atan2R (sin a) (cos a) = a.
Proof.
  intros Ha.
  assert (U : cos a * cos a + sin a * sin a = 1 * 1).
  { pose proof (sin2_cos2 a) as Q. unfold Rsqr in Q. lra. }
  destruct (@atan2R_polar (sin a) (cos a) 1 ltac:(lra) U) as [C S].
  apply angle_unique; [apply atan2R_range | exact Ha | rewrite C; field | rewrite S; field].
Qed.

Lemma atan2R_zero_nonneg (x : R) : 0 <= x -> Exact.atan2R 0 x = 0.
Proof.
  intros H. unfold Exact.atan2R.
  destruct (Rlt_dec 0 x).
  - replace (0 / x) with 0 by (field; lra). apply atan_0.
  - destruct (Rlt_dec x 0); [lra |].
    destruct (Rlt_dec 0 0); [lra |]. reflexivity.
Qed.

Lemma quatToEuler_real (w x y z : R) :
  let s := 2 * (w * y + - (z * x)) in
  quatToEuler (exact_quat w x y z)
  = [Exact.XFin (Exact.atan2R (2 * (w * x + y * z)) (1 + - (2 * (x * x + y * y))));
     Exact.XFin (if Rle_dec 1 (Rabs s)
                 then (if Rlt_dec 0 s then PI / 2 else - (PI / 2))
                 else asin s);
     Exact.XFin (Exact.atan2R (2 * (w * z + x * y)) (1 + - (2 * (y * y + z * z))))].
Proof.
  cbv zeta. unfold quatToEuler, exact_quat. cbn.
  set (s := 2 * (w * y + - (z * x))).
  f_equal. f_equal.
  destruct (Rle_dec 1 (Rabs s)) as [H | H].
  - rewrite Rleb_true by exact H. rewrite (@Reqb_false 2 0) by lra.
    unfold Math_sign. cbn.
    destruct (Rlt_dec 0 s) as [Hp | Hp].
    + rewrite Rltb_true by exact Hp. cbn. f_equal. lra.
    + rewrite Rltb_false by lra.
      assert (Hn : s < 0).
      { destruct (Rtotal_order s 0) as [| [E | ]]; [assumption | | lra].
        rewrite E, Rabs_R0 in H. lra. }
      rewrite Rltb_true by exact Hn. cbn. f_equal. lra.
  - rewrite Rleb_false by lra.
    assert (B : -1 < s < 1) by (destruct (Rabs_def2 s 1 ltac:(lra)); lra).
    destruct (Rle_dec (-1) s); [| lra]. destruct (Rle_dec s 1); [| lra]. reflexivity.
Qed.

(** X21.  In exact arithmetic, for every quaternion of real components,
    unit or not, [quatToEuler] returns three real angles: roll and yaw in
    (-pi, pi] and pitch in [-pi/2, pi/2]. *)
Theorem quatToEuler_ranges (w x y z : R) :
  exists roll pitch yaw : R,
    quatToEuler (exact_quat w x y z)
    = [Exact.XFin roll; Exact.XFin pitch; Exact.XFin yaw] /\
    - PI < roll <= PI /\ - (PI / 2) <= pitch <= PI / 2 /\ - PI < yaw <= PI.
Proof.
  rewrite quatToEuler_real. eexists _, _, _. split; [reflexivity |].
  split; [apply atan2R_range |]. split; [| apply atan2R_range].
  pose proof PI_RGT_0.
  destruct (Rle_dec 1 _); [destruct (Rlt_dec 0 _); lra | apply asin_bound].
Qed.

(** X22.  In exact arithmetic, [quatToEuler] reads a turn about a single
    axis back as it is: the quaternion (cos a/2, sin a/2, 0, 0) as roll
    [a], (cos a/2, 0, 0, sin a/2) as yaw [a], for [a] in (-pi, pi], and
    (cos a/2, 0, sin a/2, 0) as pitch [a] for [a] in [-pi/2, pi/2], the
    other two angles being 0. *)
Theorem quatToEuler_single_axis (a : R) :
  - PI < a <= PI ->
  quatToEuler (exact_quat (cos (a / 2)) (sin (a / 2)) 0 0)
  = [Exact.XFin a; Exact.XFin 0; Exact.XFin 0] /\
  quatToEuler (exact_quat (cos (a / 2)) 0 0 (sin (a / 2)))
  = [Exact.XFin 0; Exact.XFin 0; Exact.XFin a] /\
  (- (PI / 2) <= a <= PI / 2 ->
   quatToEuler (exact_quat (cos (a / 2)) 0 (sin (a / 2)) 0)
   = [Exact.XFin 0; Exact.XFin a; Exact.XFin 0]).
Proof.
  intros Ha. pose proof PI_RGT_0 as HP.
  assert (S2 : 2 * (cos (a / 2) * sin (a / 2)) = sin a).
  { assert (E : sin a = sin (2 * (a / 2))) by (f_equal; field).
    rewrite sin_2a in E. lra. }
  assert (C2 : 1 - 2 * (sin (a / 2) * sin (a / 2)) = cos a).
  { assert (E : cos a = cos (2 * (a / 2))) by (f_equal; field).
    rewrite cos_2a_sin in E. lra. }
  assert (Z0 : Rabs 0 < 1) by (rewrite Rabs_R0; lra).
  split; [| split].
  - rewrite quatToEuler_real. cbv zeta.
    replace (2 * (cos (a / 2) * sin (a / 2) + 0 * 0)) with (sin a) by lra.
    replace (1 + - (2 * (sin (a / 2) * sin (a / 2) + 0 * 0))) with (cos a) by lra.
    replace (2 * (cos (a / 2) * 0 + - (0 * sin (a / 2)))) with 0 by ring.
    replace (2 * (cos (a / 2) * 0 + sin (a / 2) * 0)) with 0 by ring.
    replace (1 + - (2 * (0 * 0 + 0 * 0))) with 1 by ring.
    rewrite atan2R_sin_cos by exact Ha. rewrite atan2R_zero_nonneg by lra.
    destruct (Rle_dec 1 (Rabs 0)); [lra |]. rewrite asin_0. reflexivity.
  - rewrite quatToEuler_real. cbv zeta.
    replace (2 * (cos (a / 2) * 0 + 0 * sin (a / 2))) with 0 by ring.
    replace (1 + - (2 * (0 * 0 + 0 * 0))) with 1 by ring.
    replace (2 * (cos (a / 2) * 0 + - (sin (a / 2) * 0))) with 0 by ring.
    replace (2 * (cos (a / 2) * sin (a / 2) + 0 * 0)) with (sin a) by lra.
    replace (1 + - (2 * (0 * 0 + sin (a / 2) * sin (a / 2)))) with (cos a) by lra.
    rewrite atan2R_sin_cos by exact Ha. rewrite atan2R_zero_nonneg by lra.
    destruct (Rle_dec 1 (Rabs 0)); [lra |]. rewrite asin_0. reflexivity.
  - intros Hb. rewrite quatToEuler_real. cbv zeta.
    replace (2 * (cos (a / 2) * 0 + sin (a / 2) * 0)) with 0 by ring.
    replace (1 + - (2 * (0 * 0 + sin (a / 2) * sin (a / 2)))) with (cos a) by lra.
    replace (2 * (cos (a / 2) * sin (a / 2) + - (0 * 0))) with (sin a) by lra.
    replace (2 * (cos (a / 2) * 0 + 0 * sin (a / 2))) with 0 by ring.
    replace (1 + - (2 * (sin (a / 2) * sin (a / 2) + 0 * 0))) with (cos a) by lra.
    assert (Cn : 0 <= cos a) by (apply cos_ge_0; lra).
    rewrite atan2R_zero_nonneg by exact Cn.
    f_equal. f_equal. f_equal.
    destruct (Rle_dec 1 (Rabs (sin a))) as [H1 | H1].
    + (* |sin a| = 1: a = +- PI/2 *)
      assert (C0 : cos a = 0).
      { pose proof (sin2_cos2 a) as Q. unfold Rsqr in Q.
        assert (1 <= sin a * sin a).
        { unfold Rabs in H1. destruct (Rcase_abs (sin a)); nra. }
        nra. }
      destruct (Rlt_dec 0 (sin a)) as [Sp | Sp].
      * symmetry. apply angle_unique; [lra | lra | rewrite cos_PI2; exact C0 |].
        rewrite sin_PI2. pose proof (sin2_cos2 a) as Q. unfold Rsqr in Q. nra.
      * symmetry. apply angle_unique; [lra | lra | rewrite cos_neg, cos_PI2; exact C0 |].
        rewrite sin_neg, sin_PI2. pose proof (sin2_cos2 a) as Q. unfold Rsqr in Q.
        assert (sin a <= 0) by lra.
        assert (sin a <> 0) by (intros E; rewrite E, Rabs_R0 in H1; lra).
        nra.
    + apply asin_sin. lra.
Qed.

Lemma quatToEuler_single_axis_witness :
  quatToEuler (exact_quat (cos (PI / 2 / 2)) (sin (PI / 2 / 2)) 0 0)
  = [Exact.XFin (PI / 2); Exact.XFin 0; Exact.XFin 0] /\
  quatToEuler (exact_quat (cos (PI / 2 / 2)) 0 0 (sin (PI / 2 / 2)))
  = [Exact.XFin 0; Exact.XFin 0; Exact.XFin (PI / 2)] /\
  (- (PI / 2) <= PI / 2 <= PI / 2 ->
   quatToEuler (exact_quat (cos (PI / 2 / 2)) 0 (sin (PI / 2 / 2)) 0)
   = [Exact.XFin 0; Exact.XFin (PI / 2); Exact.XFin 0]).
Proof.
  apply (@quatToEuler_single_axis (PI / 2)).
  pose proof PI_RGT_0. lra.
Defined.
End Angles.

(** ** threeview.js: a heading shown as 360 *)

Section HeadingRounded.
Import ExactFacts.
Local Open Scope R_scope.

(** A rocket turned about y by a quarter of a degree the negative way has
    its forward axis a quarter of a degree short of +Z in the XZ plane:
    the heading computed is 359.75, within [0, 360), and the text shows it
    rounded, as 360. *)
Example heading_shows_360 :
  heading (exact_quat (cos (- (PI / 1440))) 0 (sin (- (PI / 1440))) 0)
  = Some (Exact.XFin 360).
Proof.
  pose proof PI_RGT_0 as HP. pose proof PI_4 as HP4.
  set (b := - (PI / 1440)).
  assert (Hu : cos b * cos b + 0 * 0 + sin b * sin b + 0 * 0 = 1).
  { pose proof (sin2_cos2 b) as Q. unfold Rsqr in Q. lra. }
  assert (F : forwardWorld (exact_quat (cos b) 0 (sin b) 0)
              = inject (mkV3 (sin (2 * b)) 0 (cos (2 * b)))).
  { rewrite (forwardWorld_unit Hu). unfold inject. cbn.
    rewrite sin_2a, cos_2a_sin. f_equal; f_equal; ring. }
  unfold heading, heading_proj, heading_deg. rewrite F.
  unfold inject, gt, lit. cbn.
  rewrite (@Reqb_false 100 0) by lra. cbn.
  replace (sin (2 * b) * sin (2 * b) + cos (2 * b) * cos (2 * b)) with 1
    by (pose proof (sin2_cos2 (2 * b)) as Q; unfold Rsqr in Q; lra).
  rewrite sqrt_1, Rltb_true by lra.
  rewrite (@Reqb_false PI 0) by lra. cbn.
  rewrite (@Reqb_false 360 0) by lra.
  rewrite atan2R_sin_cos by (subst b; lra).
  replace (2 * b * 180 / PI + 360) with (1439 / 4) by (subst b; field; lra).
  rewrite trunc_nonneg by lra.
  rewrite (@floor_IZR 0 (1439 / 4 / 360)) by lra.
  unfold Exact.round.
  rewrite (@floor_IZR 360 (1439 / 4 - 360 * 0 + / 2)) by lra.
  reflexivity.
Qed.
End HeadingRounded.

Section Antipodal.
Variables (asin : B64.num -> B64.num) (atan2 hypot : B64.num -> B64.num -> B64.num).
Variables (round : B64.num -> B64.num) (rem : B64.num -> B64.num -> B64.num).
#[local] Instance engine' : JSMath B64.num := B64.math asin atan2 hypot round rem.

Lemma mul_opp_opp (a b : B64.num) : mul (neg a) (neg b) = mul a b.
Proof.
  destruct a as [sa | sa | | sa ma ea], b as [sb | sb | | sb mb eb]; cbn;
    try reflexivity; rewrite ?Bool.xorb_negb_negb; reflexivity.
Qed.

(** X23.  On binary64, with any engine's [Math.asin] and [Math.atan2], a
    quaternion and its negative, which stand for the same orientation,
    get the same three angles bit for bit: every term [quatToEuler]
    computes is a product of two components. *)
Theorem quatToEuler_antipodal (w x y z : B64.num) :
  quatToEuler [Num (neg w); Num (neg x); Num (neg y); Num (neg z)]
  = quatToEuler [Num w; Num x; Num y; Num z].
Proof.
  unfold quatToEuler, at_. cbn [nth_error toNumber].
  rewrite !mul_opp_opp. reflexivity.
Qed.
End Antipodal.
